(** * VidyaLok: the personalized recommendation service

    A shallow embedding of the recommendation service (the module that
    exports [getPersonalizedRecommendations]) together with the interface of
    [books-dataset] that it consumes, and the properties of the engine that
    the specification states.  The last part embeds [books-dataset] itself
    (the CSV loader, its cache, search and aggregations) and
    [resolveDepartment], which the loader calls.

    Conventions of the embedding.
    - JavaScript numbers that the service handles are integers (scores,
      copy counts, limits, millisecond timestamps); they are modelled in [Z].
      A number of days, the quotient of two such integers that is only
      compared with 60, is a rational; the average of [searchBooks], a
      quotient of doubles that is returned, is kept as its two operands.
    - JavaScript strings are modelled by [string]; [toLowerCase] and [trim]
      act on the ASCII range.  A department is a string or, for a row whose
      department key is [constructor], the function [Object] that
      [resolveDepartment] finds on the prototype of its table; calling
      [toLowerCase] on it throws.
    - A JavaScript [Set] or [Map] iterates in insertion order, and the
      service depends on that order, so both are lists.
    - Prisma queries are evaluated over in-memory tables; every query site
      can fail, and every collaborator call is recorded in a trace. *)

From Stdlib Require Import ZArith List String Ascii Bool Lia Permutation Sorted.
From Stdlib Require Import QArith Qabs OrderedTypeEx.
From Stdlib Require Import DecimalString DecimalNat.
Import ListNotations.
Open Scope string_scope.
Open Scope list_scope.
Open Scope Z_scope.

(** ** Stable sorting with a numeric comparator

    [Array.prototype.sort] is stable and takes a comparator whose sign orders
    its arguments; a database [orderBy] is modelled with the same function,
    ties being left in table order. *)

Section StableSort.
Context {A : Type}.
Variable cmp : A -> A -> Z.

Fixpoint insert (x : A) (l : list A) : list A :=
  match l with
  | [] => [x]
  | y :: r => if cmp x y <=? 0 then x :: y :: r else y :: insert x r
  end.

Definition stable_sort (l : list A) : list A := fold_right insert [] l.
End StableSort.

(** ** The JavaScript built-ins the service uses *)

Module JS.

(** [Boolean(s)] for a string: the empty string is the only falsy one. *)
Definition truthy (s : string) : bool := negb (String.eqb s "").

Definition is_upper (c : ascii) : bool :=
  let n := N_of_ascii c in ((65 <=? n) && (n <=? 90))%N.

Definition lower_char (c : ascii) : ascii :=
  if is_upper c then ascii_of_N (N_of_ascii c + 32) else c.

Fixpoint toLowerCase (s : string) : string :=
  match s with
  | EmptyString => EmptyString
  | String c r => String (lower_char c) (toLowerCase r)
  end.

(** White space removed by [trim]: TAB, LF, VT, FF, CR and SPACE. *)
Definition is_space (c : ascii) : bool :=
  let n := N_of_ascii c in (((9 <=? n) && (n <=? 13)) || (n =? 32))%N.

Fixpoint trimStart (s : string) : string :=
  match s with
  | EmptyString => EmptyString
  | String c r => if is_space c then trimStart r else s
  end.

Fixpoint trimEnd (s : string) : string :=
  match s with
  | EmptyString => EmptyString
  | String c r =>
      match trimEnd r with
      | EmptyString => if is_space c then EmptyString else String c EmptyString
      | r' => String c r'
      end
  end.

Definition trim (s : string) : string := trimEnd (trimStart s).

(** [hay.includes(needle)]. *)
Fixpoint includes (hay needle : string) : bool :=
  String.prefix needle hay
  || match hay with
     | EmptyString => false
     | String _ r => includes r needle
     end.

(** [Set<string>], in insertion order. *)
Definition set_has (s : list string) (x : string) : bool :=
  existsb (String.eqb x) s.

Definition set_add (s : list string) (x : string) : list string :=
  if set_has s x then s else s ++ [x].

(** [new Set(array)]. *)
Definition set_from (l : list string) : list string := fold_left set_add l [].

(** [Map<string, V>], in insertion order. *)
Section MapOps.
Context {V : Type}.

Definition map_has (m : list (string * V)) (k : string) : bool :=
  existsb (fun e => String.eqb k (fst e)) m.

Fixpoint map_get (m : list (string * V)) (k : string) : option V :=
  match m with
  | [] => None
  | (k', v) :: r => if String.eqb k k' then Some v else map_get r k
  end.

(** [m.set(k, v)]: a present key keeps its position and takes the new
    value, an absent key is appended. *)
Fixpoint map_set (m : list (string * V)) (k : string) (v : V)
  : list (string * V) :=
  match m with
  | [] => [(k, v)]
  | (k', v') :: r =>
      if String.eqb k k' then (k', v) :: r else (k', v') :: map_set r k v
  end.

Definition map_values (m : list (string * V)) : list V := map snd m.
Definition map_size (m : list (string * V)) : Z := Z.of_nat (List.length m).
End MapOps.

(** [array.slice(0, n)]: a negative [n] counts from the end. *)
Definition slice0 {A} (n : Z) (l : list A) : list A :=
  if 0 <=? n then firstn (Z.to_nat n) l
  else firstn (List.length l - Z.to_nat (- n)) l.

(** [array.sort(cmp)]. *)
Definition sort {A} (cmp : A -> A -> Z) (l : list A) : list A :=
  stable_sort cmp l.

(** [array.length] as a number. *)
Definition len {A} (l : list A) : Z := Z.of_nat (List.length l).

End JS.

(** [o ?? d]. *)
Definition default {A} (o : option A) (d : A) : A :=
  match o with Some a => a | None => d end.

(** ** The store: tables and the Prisma queries issued by the service *)

Inductive BorrowingStatus := BORROWED | OVERDUE | RENEWED | RETURNED.

Definition status_eqb (a b : BorrowingStatus) : bool :=
  match a, b with
  | BORROWED, BORROWED | OVERDUE, OVERDUE
  | RENEWED, RENEWED | RETURNED, RETURNED => true
  | _, _ => false
  end.

(** The columns of [user] that the service selects. *)
Record User := {
  user_id : string;
  user_branch : option string;
  user_department : option string;
  user_interests : option (list string)
}.

(** [RecommendationCandidate]: the columns of [book] that are selected;
    [addedAt] is [Date.getTime()], in milliseconds. *)
Record RecommendationCandidate := {
  cand_id : string;
  cand_title : string;
  cand_author : option string;
  cand_category : string;
  cand_department : string;
  cand_availableCopies : Z;
  cand_addedAt : Z
}.

Record Borrowing := {
  bor_userId : string;
  bor_bookId : string;
  bor_status : BorrowingStatus;
  bor_borrowDate : Z
}.

(** A history row: a borrowing with [include: { book: { category } }]. *)
Record HistoryEntry := {
  hist_borrowing : Borrowing;
  hist_book : option (option string)
}.

Module Prisma.

(** [take: n]: the first [n] rows, or the last [-n] for a negative [n]. *)
Definition take {A} (n : Z) (l : list A) : list A :=
  if 0 <=? n then firstn (Z.to_nat n) l
  else skipn (List.length l - Z.to_nat (- n)) l.

(** The clauses the service puts under [OR]. *)
Inductive BookClause :=
| CategoryIn (categories : list string)
| DepartmentIs (department : string).

(** Conditions of a [book] [where] object. *)
Inductive BookFilter :=
| AvailableCopiesGt (n : Z)
| IdNotIn (ids : list string)
| IdIn (ids : list string)
| OR (clauses : list BookClause).

Definition str_in (x : string) (l : list string) : bool :=
  existsb (String.eqb x) l.

Definition clause_matches (c : BookClause) (b : RecommendationCandidate) : bool :=
  match c with
  | CategoryIn cs => str_in (cand_category b) cs
  | DepartmentIs d => String.eqb (cand_department b) d
  end.

Definition book_matches (f : BookFilter) (b : RecommendationCandidate) : bool :=
  match f with
  | AvailableCopiesGt n => n <? cand_availableCopies b
  | IdNotIn ids => negb (str_in (cand_id b) ids)
  | IdIn ids => str_in (cand_id b) ids
  | OR clauses => existsb (fun c => clause_matches c b) clauses
  end.

(** The fields of a [where] object are conjoined. *)
Definition book_where (w : list BookFilter) (b : RecommendationCandidate) : bool :=
  forallb (fun f => book_matches f b) w.

(** [orderBy: { addedAt: 'desc' }]. *)
Definition addedAt_desc (a b : RecommendationCandidate) : Z :=
  cand_addedAt b - cand_addedAt a.

Definition order_books (desc : bool) (l : list RecommendationCandidate) :=
  if desc then stable_sort addedAt_desc l else l.

Definition take_opt {A} (n : option Z) (l : list A) : list A :=
  match n with Some k => take k l | None => l end.

(** [prisma.book.findMany({ where, orderBy, take })]. *)
Definition book_findMany (table : list RecommendationCandidate)
    (w : list BookFilter) (orderByAddedAtDesc : bool) (tk : option Z)
  : list RecommendationCandidate :=
  take_opt tk (order_books orderByAddedAtDesc (filter (book_where w) table)).

Inductive BorrowingFilter :=
| UserIdIs (id : string)
| StatusIn (statuses : list BorrowingStatus)
| BorrowDateGte (t : Z).

Definition borrowing_matches (f : BorrowingFilter) (b : Borrowing) : bool :=
  match f with
  | UserIdIs id => String.eqb (bor_userId b) id
  | StatusIn ss => existsb (status_eqb (bor_status b)) ss
  | BorrowDateGte t => t <=? bor_borrowDate b
  end.

Definition borrowing_where (w : list BorrowingFilter) (b : Borrowing) : bool :=
  forallb (fun f => borrowing_matches f b) w.

(** [orderBy: { borrowDate: 'desc' }]. *)
Definition borrowDate_desc (a b : Borrowing) : Z :=
  bor_borrowDate b - bor_borrowDate a.

Definition order_borrowings (desc : bool) (l : list Borrowing) :=
  if desc then stable_sort borrowDate_desc l else l.

(** [prisma.borrowing.findMany({ where, orderBy, take })]. *)
Definition borrowing_findMany (table : list Borrowing)
    (w : list BorrowingFilter) (orderByBorrowDateDesc : bool) (tk : option Z)
  : list Borrowing :=
  take_opt tk (order_borrowings orderByBorrowDateDesc (filter (borrowing_where w) table)).

(** The relation [borrowing.book], restricted to [category]. *)
Definition join_book (books : list RecommendationCandidate) (b : Borrowing)
  : HistoryEntry :=
  {| hist_borrowing := b;
     hist_book :=
       option_map (fun bk => Some (cand_category bk))
         (find (fun bk => String.eqb (cand_id bk) (bor_bookId b)) books) |}.

(** [prisma.user.findUnique({ where: { id } })]. *)
Definition user_findUnique (table : list User) (id : string) : option User :=
  find (fun u => String.eqb (user_id u) id) table.

End Prisma.

(** ** Department names ([department-utils])

    [resolveDepartment] maps the free text of a department column to one of
    eight names.  Case mapping is that of the letters A to Z. *)

Module Departments.

Definition AIML : string := "Artificial Intelligence & Machine Learning".
Definition COMPUTER : string := "Computer Engineering".
Definition IT : string := "Information Technology".
Definition CIVIL : string := "Civil".
Definition DATA_SCIENCE : string := "Data Science".
Definition EXTC : string := "EXTC".
Definition HAS : string := "H & AS".
Definition MECHANICAL : string := "Mechanical".

Definition FALLBACK_DEPARTMENT : string := HAS.

(** The names the tables of this module can produce. *)
Definition department_names : list string :=
  [AIML; COMPUTER; IT; CIVIL; DATA_SCIENCE; EXTC; HAS; MECHANICAL].

(** [.replace(/&/g, 'and')]. *)
Fixpoint replace_ampersand (s : string) : string :=
  match s with
  | EmptyString => EmptyString
  | String c r =>
      if Ascii.eqb c "&" then String.append "and" (replace_ampersand r)
      else String c (replace_ampersand r)
  end.

Definition is_key_char (c : ascii) : bool :=
  let n := N_of_ascii c in
  (((97 <=? n) && (n <=? 122)) || ((48 <=? n) && (n <=? 57)))%N.

(** [.replace(/[^a-z0-9]+/g, '')]. *)
Fixpoint strip_non_key (s : string) : string :=
  match s with
  | EmptyString => EmptyString
  | String c r =>
      if is_key_char c then String c (strip_non_key r) else strip_non_key r
  end.

Definition sanitizeDepartmentKey (value : string) : string :=
  strip_non_key (replace_ampersand (JS.toLowerCase value)).

Definition departmentSynonyms : list (string * string) :=
  [
   ("aiml", AIML);
   ("articialinteeligence", AIML);
   ("artificialinteelience", AIML);
   ("artificialinteeligence", AIML);
   ("artificialintelligence", AIML);
   ("artificialintelligencemachinelearning", AIML);
   ("compengineering", COMPUTER);
   ("compitengineering", COMPUTER);
   ("compitengineeringmaths", COMPUTER);
   ("computer", COMPUTER);
   ("computerengg", COMPUTER);
   ("computerenggit", COMPUTER);
   ("computerenggitengg", COMPUTER);
   ("computerengineering", COMPUTER);
   ("cs", COMPUTER);
   ("computerscienceinformationtechnology", IT);
   ("informationtech", IT);
   ("informationtechnology", IT);
   ("informationtecnology", IT);
   ("it", IT);
   ("itengg", IT);
   ("civil", CIVIL);
   ("civilengg", CIVIL);
   ("civilengineeing", CIVIL);
   ("civilengineerimg", CIVIL);
   ("civilengineering", CIVIL);
   ("civilemgineering", CIVIL);
   ("communicationskills", HAS);
   ("chemistry", HAS);
   ("chemstry", HAS);
   ("dadascience", DATA_SCIENCE);
   ("datascience", DATA_SCIENCE);
   ("datascienceartificialintelligence", DATA_SCIENCE);
   ("electronicsandtelecommunications", EXTC);
   ("evs", HAS);
   ("ex", EXTC);
   ("extc", EXTC);
   ("extcengg", EXTC);
   ("extcengineering", EXTC);
   ("exte", EXTC);
   ("frenchlanguage", HAS);
   ("general", HAS);
   ("genral", HAS);
   ("genralhas", HAS);
   ("germanlanguage", HAS);
   ("has", HAS);
   ("haschemistry", HAS);
   ("hascs", HAS);
   ("hasevs", HAS);
   ("hasgen", HAS);
   ("hasjapanese", HAS);
   ("haslaw", HAS);
   ("haslibsci", HAS);
   ("hasmanagement", HAS);
   ("hasmaths", HAS);
   ("hasmathematics", HAS);
   ("hasmgmt", HAS);
   ("hasphysics", HAS);
   ("japaneselanguage", HAS);
   ("management", HAS);
   ("mathematics", HAS);
   ("maths", HAS);
   ("mecg", MECHANICAL);
   ("mech", MECHANICAL);
   ("mechcivilautomobile", MECHANICAL);
   ("mechcivilautomobileetc", MECHANICAL);
   ("mechengineering", MECHANICAL);
   ("mechanicalengg", MECHANICAL);
   ("mechanicalengineering", MECHANICAL);
   ("mechnicalengineering", MECHANICAL);
   ("meths", HAS);
   ("mrvh", HAS);
   ("pct", HAS);
   ("phy", HAS);
   ("physics", HAS);
   ("spanishlanguage", HAS)
  ].

(** What [departmentSynonyms[key]] can be: a name of the table, or, the
    table being a plain object, a member of [Object.prototype].  A key is
    made of lower-case letters and digits, and [constructor] is the only
    prototype member with such a name. *)
Inductive Resolved :=
| Department (name : string)
| PrototypeMember.

Definition synonym (key : string) : option Resolved :=
  match JS.map_get departmentSynonyms key with
  | Some name => Some (Department name)
  | None => if String.eqb key "constructor" then Some PrototypeMember else None
  end.

(** [/comp(?!lete)/]: some occurrence of comp is not followed by lete. *)
Fixpoint comp_not_complete (key : string) : bool :=
  (String.prefix "comp" key && negb (String.prefix "complete" key))
  || match key with
     | EmptyString => false
     | String _ r => comp_not_complete r
     end.

Definition any_of (needles : list string) (key : string) : bool :=
  existsb (fun needle => JS.includes key needle) needles.

(** [departmentPatternRules].  In a key every character is a word
    character, so that [\bit\b] and [^ex$] match the whole key only. *)
Definition departmentPatternRules : list ((string -> bool) * string) :=
  [(any_of ["aiml"; "artificial"; "machinelearning"], AIML);
   (any_of ["datascience"], DATA_SCIENCE);
   (fun key => any_of ["computer"] key || comp_not_complete key, COMPUTER);
   (fun key => any_of ["informationtech"] key || String.eqb key "it", IT);
   (any_of ["civil"], CIVIL);
   (any_of ["mech"; "automobile"], MECHANICAL);
   (fun key => any_of ["extc"; "electronicsandtelecommunication"] key
               || String.eqb key "ex", EXTC);
   (any_of ["has"; "math"; "chem"; "evs"; "communication"; "language"; "general";
            "management"; "physics"; "pct"; "mrvh"; "phy"], HAS)].

Definition resolveDepartment (rawDepartment : option string) : Resolved :=
  let trimmed := JS.trim (default rawDepartment "") in
  if negb (JS.truthy trimmed) then Department FALLBACK_DEPARTMENT
  else
    let key := sanitizeDepartmentKey trimmed in
    match (if JS.truthy key then synonym key else None) with
    | Some found => found
    | None =>
        match find (fun rule => fst rule key) departmentPatternRules with
        | Some rule => Department (snd rule)
        | None => Department FALLBACK_DEPARTMENT
        end
    end.

End Departments.

(** ** The catalog snapshot of [books-dataset.ts] *)

(** [LibraryBook], as [getAllBooks] returns it.  The department is what
    [resolveDepartment] returned for the row: a name, or the function
    [Object]. *)
Record LibraryBook := {
  lb_id : string;
  lb_department : Departments.Resolved;
  lb_publisher : string;
  lb_author : string;
  lb_title : string;
  lb_copies : Z
}.

(** ** The environment of one call and its effects *)

(** The places of the service that query the store. *)
Inductive Site :=
| UserLookup          (* prisma.user.findUnique *)
| ActiveBorrowings    (* prisma.borrowing.findMany, active statuses *)
| RecentHistory       (* prisma.borrowing.findMany, 40 most recent *)
| PopularSample       (* fetchPopularBookIds *)
| PrimaryTier         (* fetchCandidateBooks *)
| BroadFallback       (* prisma.book.findMany without category filter *)
| PopularTopUp.       (* fetchBooksByIds *)

Inductive Err :=
| StorageError (s : Site)
| DatasetError
| TypeError.          (* a call of a method the value does not have *)

Inductive Event :=
| Query (s : Site)
| GetAllBooks
| ConsoleError (msg : string).

Inductive Outcome (A : Type) :=
| Returned (a : A)
| Thrown (e : Err).
Arguments Returned {A} a.
Arguments Thrown {A} e.

(** What a call can observe: the tables, which query sites fail, the result
    of [getAllBooks] ([None] when [ensureCache] throws: the dataset file is
    unreadable or does not parse), the successive readings of the system
    clock, and the collation of the runtime. *)
Record World := {
  users : list User;
  books : list RecommendationCandidate;
  borrowings : list Borrowing;
  storage_fails : Site -> bool;
  dataset : option (list LibraryBook);
  clock : nat -> Z;
  localeCompare : string -> string -> Z
}.

(** The effects of a call so far: the collaborator calls and log lines, in
    order, and the number of clock readings taken. *)
Record St := {
  trace : list Event;
  reads : nat
}.

Definition emit (e : Event) (s : St) : St :=
  {| trace := trace s ++ [e]; reads := reads s |}.

Definition M (A : Type) : Type := St -> Outcome A * St.

Definition ret {A} (a : A) : M A := fun s => (Returned a, s).

Definition bind {A B} (m : M A) (k : A -> M B) : M B :=
  fun s =>
    match m s with
    | (Returned a, s') => k a s'
    | (Thrown e, s') => (Thrown e, s')
    end.

Notation "x <- m ;; k" := (bind m (fun x => k))
  (at level 61, m at next level, right associativity).
Notation "' pat <- m ;; k" := (bind m (fun x => match x with pat => k end))
  (at level 61, pat pattern, m at next level, right associativity).

(** A step without effects that returns or throws. *)
Definition lift {A} (o : Outcome A) : M A := fun s => (o, s).

(** [try { body } catch (error) { handler }]. *)
Definition try_catch {A} (body : M A) (handler : Err -> M A) : M A :=
  fun s =>
    match body s with
    | (Returned a, s') => (Returned a, s')
    | (Thrown e, s') => handler e s'
    end.

(** [console.error(msg, error)]. *)
Definition console_error (msg : string) : M unit :=
  fun s => (Returned tt, emit (ConsoleError msg) s).

(** [await Promise.all([p, q])]: both are started; the first rejection is
    the one that is thrown. *)
Definition promise_all {A B} (p : M A) (q : M B) : M (A * B) :=
  fun s =>
    let '(ra, s1) := p s in
    let '(rb, s2) := q s1 in
    match ra, rb with
    | Returned a, Returned b => (Returned (a, b), s2)
    | Thrown e, _ => (Thrown e, s2)
    | _, Thrown e => (Thrown e, s2)
    end.

Section Effects.
Variable w : World.

(** A query at [site] whose rows are [rows] when the store answers. *)
Definition query {A} (site : Site) (rows : A) : M A :=
  fun s =>
    if storage_fails w site
    then (Thrown (StorageError site), emit (Query site) s)
    else (Returned rows, emit (Query site) s).

(** [now().getTime()]. *)
Definition now : M Z :=
  fun s => (Returned (clock w (reads s)),
            {| trace := trace s; reads := S (reads s) |}).

(** [await getAllBooks()]. *)
Definition getAllBooks : M (list LibraryBook) :=
  fun s =>
    match dataset w with
    | Some l => (Returned l, emit GetAllBooks s)
    | None => (Thrown DatasetError, emit GetAllBooks s)
    end.
End Effects.

(** ** The recommendation service: types and constants *)

Record RecommendationInput := {
  in_userId : string;
  in_limit : option Z;
  in_excludeBookIds : option (list string)
}.

Record PersonalizedRecommendation := {
  rec_id : string;
  rec_title : string;
  rec_author : string;
  rec_category : Departments.Resolved;
  rec_department : Departments.Resolved;
  rec_availableCopies : Z;
  rec_score : Z;
  rec_reasons : list string;
  rec_isNewArrival : bool;
  rec_isPopular : bool
}.

Record RecommendationContext := {
  ctx_explicitInterests : list string;
  ctx_derivedCategories : list string;
  ctx_department : option string;
  ctx_fallbackUsed : bool
}.

Record RecommendationResult := {
  res_items : list PersonalizedRecommendation;
  res_context : RecommendationContext
}.

Definition NEW_ARRIVAL_DAYS : Z := 60.
Definition POPULAR_LOOKBACK_DAYS : Z := 90.
Definition POPULAR_SAMPLE_SIZE : Z := 300.

(** [1000 * 60 * 60 * 24]. *)
Definition MS_PER_DAY : Z := 1000 * 60 * 60 * 24.

(** [differenceInDays(started, ended)], on the millisecond timestamps of
    the two dates.  The quotient is exact here; the floating-point quotient
    of the source compares with a whole number of days in the same way. *)
Definition differenceInDays (started ended : Z) : Q :=
  let diffMs := ended - started in
  (inject_Z diffMs / inject_Z MS_PER_DAY)%Q.

(** ** Signal collection *)

Definition buildExcludeSet (input : RecommendationInput)
    (activeBorrowings : list string) : list string :=
  let exclude := JS.set_from (default (in_excludeBookIds input) []) in
  fold_left
    (fun exclude bookId =>
       if JS.truthy bookId then JS.set_add exclude bookId else exclude)
    activeBorrowings exclude.

(** [entry.book?.category?.trim()]. *)
Definition history_category (entry : HistoryEntry) : option string :=
  match hist_book entry with
  | Some (Some c) => Some (JS.trim c)
  | _ => None
  end.

Definition count_key (counts : list (string * Z)) (k : string) : list (string * Z) :=
  JS.map_set counts k (default (JS.map_get counts k) 0 + 1).

Definition by_count_desc (a b : string * Z) : Z := snd b - snd a.

(** The callback of [history.forEach]: one more borrowing of the entry's
    trimmed category, when it has one. *)
Definition count_category (counts : list (string * Z)) (entry : HistoryEntry)
  : list (string * Z) :=
  match history_category entry with
  | Some category =>
      if JS.truthy category then count_key counts category else counts
  | None => counts
  end.

Definition collectTopCategoriesFromHistory (history : list HistoryEntry)
  : list string :=
  let counts := fold_left count_category history [] in
  let sorted :=
    JS.sort by_count_desc (filter (fun e => 2 <=? snd e) counts) in
  map fst sorted.

(** The rows of the popularity sample, given the clock reading. *)
Definition popular_rows (w : World) (nowMs : Z) : list Borrowing :=
  let lookbackStart := nowMs - POPULAR_LOOKBACK_DAYS * 24 * 60 * 60 * 1000 in
  Prisma.borrowing_findMany (borrowings w)
    [Prisma.BorrowDateGte lookbackStart] true (Some POPULAR_SAMPLE_SIZE).

Definition popular_ranking (rows : list Borrowing) : list string :=
  let counts :=
    fold_left
      (fun counts entry =>
         if JS.truthy (bor_bookId entry)
         then count_key counts (bor_bookId entry) else counts)
      rows [] in
  map fst (JS.sort by_count_desc counts).

Definition fetchPopularBookIds (w : World) : M (list string) :=
  nowMs <- now w ;;
  borrowings <- query w PopularSample (popular_rows w nowMs) ;;
  ret (popular_ranking borrowings).

(** ** Candidate retrieval *)

Definition candidate_map := list (string * RecommendationCandidate).

Definition fetchBooksByIds (w : World) (bookIds : list string)
  : M (list RecommendationCandidate) :=
  if (JS.len bookIds =? 0) then ret []
  else
    books <- query w PopularTopUp
               (Prisma.book_findMany (books w) [Prisma.IdIn bookIds] false None) ;;
    let bookMap :=
      fold_left (fun m book => JS.map_set m (cand_id book) book) books [] in
    ret (flat_map
           (fun id => match JS.map_get bookMap id with
                      | Some c => [c]
                      | None => []
                      end)
           bookIds).

Record CandidateFilters := {
  f_categories : list string;
  f_department : option string;
  f_excludeIds : list string;
  f_limit : Z
}.

Definition candidate_where (filters : CandidateFilters) : list Prisma.BookFilter :=
  let orClauses :=
    (if negb (JS.len (f_categories filters) =? 0)
     then [Prisma.CategoryIn (f_categories filters)] else [])
    ++ match f_department filters with
       | Some d => if JS.truthy d then [Prisma.DepartmentIs d] else []
       | None => []
       end in
  [Prisma.AvailableCopiesGt 0; Prisma.IdNotIn (f_excludeIds filters)]
  ++ (if negb (JS.len orClauses =? 0) then [Prisma.OR orClauses] else []).

Definition fetchCandidateBooks (w : World) (filters : CandidateFilters)
  : M (list RecommendationCandidate) :=
  query w PrimaryTier
    (Prisma.book_findMany (books w) (candidate_where filters) true
       (Some (f_limit filters))).

(** [candidateMap.set(candidate.id, candidate)] for each row. *)
Definition set_all (m : candidate_map) (rows : list RecommendationCandidate)
  : candidate_map :=
  fold_left (fun m candidate => JS.map_set m (cand_id candidate) candidate) rows m.

(** [if (!candidateMap.has(candidate.id)) candidateMap.set(...)] for each row. *)
Definition set_missing (m : candidate_map) (rows : list RecommendationCandidate)
  : candidate_map :=
  fold_left
    (fun m candidate =>
       if negb (JS.map_has m (cand_id candidate))
       then JS.map_set m (cand_id candidate) candidate else m)
    rows m.

(** The rows of the broad fallback query. *)
Definition fallback_rows (w : World) (excludeIds : list string) (limit : Z)
  : list RecommendationCandidate :=
  Prisma.book_findMany (books w)
    [Prisma.AvailableCopiesGt 0; Prisma.IdNotIn excludeIds] true
    (Some (limit * 3)).

(** The block [if (candidateMap.size < limit) { ... }] of
    [getPersonalizedRecommendations]: the broad fallback tier and, inside
    it, the popularity top-up.  Returns the candidate map and [fallbackUsed]. *)
Definition broadenCandidates (w : World) (limit : Z)
    (excludeIds popularIdSet : list string) (candidateMap : candidate_map)
  : M (candidate_map * bool) :=
  if JS.map_size candidateMap <? limit then
    fallbackBooks <- query w BroadFallback (fallback_rows w excludeIds limit) ;;
    let candidateMap := set_missing candidateMap fallbackBooks in
    if (JS.map_size candidateMap <? limit) && negb (JS.len popularIdSet =? 0)
    then
      let remainingPopularIds :=
        filter
          (fun bookId =>
             negb (JS.map_has candidateMap bookId)
             && negb (JS.set_has excludeIds bookId))
          popularIdSet in
      popularBooks <- fetchBooksByIds w (JS.slice0 (limit * 2) remainingPopularIds) ;;
      ret (set_missing candidateMap popularBooks, true)
    else ret (candidateMap, true)
  else ret (candidateMap, false).

(** ** Multi-signal scoring *)

Definition reason_interest (category : string) : string :=
  String.append "Matches your interest in " category.
Definition reason_derived (category : string) : string :=
  String.append "You often borrow " (String.append category " titles").
Definition reason_department : string := "From your department collection".
Definition reason_new : string := "New arrival this term".
Definition reason_popular : string := "Popular with other students".
Definition reason_baseline : string := "Handpicked by the library team".

(** [context.department && candidate.department === context.department]. *)
Definition department_matches (department : option string) (d : string) : bool :=
  match department with
  | Some dep => JS.truthy dep && String.eqb d dep
  | None => false
  end.

(** [Array.prototype.includes] on strings. *)
Definition array_includes (l : list string) (x : string) : bool :=
  existsb (String.eqb x) l.

(** The addition and the reason of one signal, applied when it fires. *)
Definition signal (fires : bool) (delta : Z) (reason : string)
    (acc : Z * list string) : Z * list string :=
  if fires then (fst acc + delta, JS.set_add (snd acc) reason) else acc.

(** [Number.isFinite(daysSinceAdded) && daysSinceAdded <= NEW_ARRIVAL_DAYS],
    with [daysSinceAdded = Math.abs(differenceInDays(addedAt, nowDate))];
    every number of the model is finite. *)
Definition is_new_arrival (addedAt nowDate : Z) : bool :=
  let daysSinceAdded := Qabs (differenceInDays addedAt nowDate) in
  Qle_bool daysSinceAdded (inject_Z NEW_ARRIVAL_DAYS).

(** The body of the [map] callback of [enrichCandidates]. *)
Definition enrichCandidate (context : RecommendationContext)
    (popularIds derivedCategorySet : list string) (nowDate : Z)
    (candidate : RecommendationCandidate) : PersonalizedRecommendation :=
  let acc := (0, []) in
  let acc :=
    signal (array_includes (ctx_explicitInterests context) (cand_category candidate))
      3 (reason_interest (cand_category candidate)) acc in
  let acc :=
    signal (JS.set_has derivedCategorySet (cand_category candidate))
      2 (reason_derived (cand_category candidate)) acc in
  let acc :=
    signal (department_matches (ctx_department context) (cand_department candidate))
      2 reason_department acc in
  let isNewArrival := is_new_arrival (cand_addedAt candidate) nowDate in
  let acc := signal isNewArrival 1 reason_new acc in
  let isPopular := JS.set_has popularIds (cand_id candidate) in
  let acc := signal isPopular 1 reason_popular acc in
  let acc :=
    if fst acc =? 0 then (1, JS.set_add (snd acc) reason_baseline) else acc in
  {| rec_id := cand_id candidate;
     rec_title := cand_title candidate;
     rec_author := default (cand_author candidate) "Unknown author";
     rec_category := Departments.Department (cand_category candidate);
     rec_department := Departments.Department (cand_department candidate);
     rec_availableCopies := cand_availableCopies candidate;
     rec_score := fst acc;
     rec_reasons := snd acc;
     rec_isNewArrival := isNewArrival;
     rec_isPopular := isPopular |}.

Definition enrichCandidates (w : World) (candidates : list RecommendationCandidate)
    (context : RecommendationContext)
    (popularIds derivedCategorySet : list string)
  : M (list PersonalizedRecommendation) :=
  nowDate <- now w ;;
  ret (map (enrichCandidate context popularIds derivedCategorySet nowDate) candidates).

(** The comparator of the scored path. *)
Definition by_score_then_copies (a b : PersonalizedRecommendation) : Z :=
  if negb (rec_score b =? rec_score a) then rec_score b - rec_score a
  else rec_availableCopies b - rec_availableCopies a.

(** ** The dataset bridge *)

Record ScoredBook := {
  sb_book : LibraryBook;
  sb_score : Z;
  sb_reasons : list string;
  sb_matchedInterest : option string
}.

(** A template literal prints an absent array element as [undefined]. *)
Definition show_interest (o : option string) : string := default o "undefined".

(** [if (!matchedInterest) matchedInterest = originalInterest]. *)
Definition remember_first (matched original : option string) : option string :=
  match matched with
  | Some m => if JS.truthy m then matched else original
  | None => original
  end.

(** [interestTokens.forEach((token, index) => ...)], from [index] on. *)
Fixpoint match_tokens (searchable : string) (explicitInterests : list string)
    (tokens : list string) (index : nat)
    (acc : Z * list string * option string) : Z * list string * option string :=
  match tokens with
  | [] => acc
  | token :: rest =>
      let '(score, reasons, matched) := acc in
      let acc' :=
        if JS.includes searchable token then
          let originalInterest := nth_error explicitInterests index in
          (score + 3,
           JS.set_add reasons (reason_interest (show_interest originalInterest)),
           remember_first matched originalInterest)
        else acc in
      match_tokens searchable explicitInterests rest (S index) acc'
  end.

Definition reason_catalog_popular : string := "Popular in the general catalog".
Definition reason_featured : string := "Featured from the library catalog".

Definition interest_tokens (explicitInterests : list string) : list string :=
  filter JS.truthy (map (fun i => JS.toLowerCase (JS.trim i)) explicitInterests).

(** [value.toLowerCase()] on a department: a name is a string; the function
    [Object] has no such method, and calling it throws a [TypeError]. *)
Definition department_toLowerCase (d : Departments.Resolved) : Outcome string :=
  match d with
  | Departments.Department name => Returned (JS.toLowerCase name)
  | Departments.PrototypeMember => Thrown TypeError
  end.

(** [department && book.department.toLowerCase() === department.toLowerCase()]. *)
Definition dataset_department_matches (department : option string)
    (d : Departments.Resolved) : Outcome bool :=
  match department with
  | Some dep =>
      if JS.truthy dep then
        match department_toLowerCase d with
        | Returned lower => Returned (String.eqb lower (JS.toLowerCase dep))
        | Thrown e => Thrown e
        end
      else Returned false
  | None => Returned false
  end.

(** The body of the first [map] callback of [buildDatasetFallback]. *)
Definition score_book (explicitInterests : list string) (department : option string)
    (book : LibraryBook) : Outcome ScoredBook :=
  let searchable :=
    JS.toLowerCase (String.append (lb_title book) (String.append " " (lb_author book))) in
  let '(score, reasons, matchedInterest) :=
    match_tokens searchable explicitInterests (interest_tokens explicitInterests)
      0%nat (1, [], None) in
  match dataset_department_matches department (lb_department book) with
  | Thrown e => Thrown e
  | Returned sameDepartment =>
      let '(score, reasons) :=
        signal sameDepartment 2 reason_department (score, reasons) in
      let '(score, reasons) :=
        signal (5 <=? lb_copies book) 1 reason_catalog_popular (score, reasons) in
      Returned {| sb_book := book; sb_score := score; sb_reasons := reasons;
                  sb_matchedInterest := matchedInterest |}
  end.

(** [array.map(f)] for a callback that can throw: the first throw ends the
    loop. *)
Fixpoint map_outcome {A B} (f : A -> Outcome B) (l : list A) : Outcome (list B) :=
  match l with
  | [] => Returned []
  | x :: rest =>
      match f x with
      | Thrown e => Thrown e
      | Returned y =>
          match map_outcome f rest with
          | Thrown e => Thrown e
          | Returned ys => Returned (y :: ys)
          end
      end
  end.

(** The comparator of the dataset bridge. *)
Definition by_score_copies_title (w : World) (a b : ScoredBook) : Z :=
  if negb (sb_score b =? sb_score a) then sb_score b - sb_score a
  else if negb (lb_copies (sb_book b) =? lb_copies (sb_book a))
       then lb_copies (sb_book b) - lb_copies (sb_book a)
       else localeCompare w (lb_title (sb_book a)) (lb_title (sb_book b)).

(** The body of the final [map] callback of [buildDatasetFallback]. *)
Definition to_recommendation (s : ScoredBook) : PersonalizedRecommendation :=
  let book := sb_book s in
  {| rec_id := String.append "dataset-" (lb_id book);
     rec_title := lb_title book;
     rec_author := if JS.truthy (lb_author book) then lb_author book
                   else "Unknown author";
     rec_category := match sb_matchedInterest s with
                     | Some interest => Departments.Department interest
                     | None => lb_department book
                     end;
     rec_department := lb_department book;
     rec_availableCopies := Z.max (lb_copies book) 1;
     rec_score := sb_score s;
     rec_reasons := if negb (JS.len (sb_reasons s) =? 0) then sb_reasons s
                    else [reason_featured];
     rec_isNewArrival := false;
     rec_isPopular := 5 <=? lb_copies book |}.

(** The entries of the bridge after filtering, scoring, sorting and
    truncation: the value of [sorted], unless scoring throws. *)
Definition dataset_sorted (w : World) (explicitInterests : list string)
    (department : option string) (limit : Z) (excludeIds : list string)
    (books : list LibraryBook) : Outcome (list ScoredBook) :=
  match
    map_outcome (score_book explicitInterests department)
      (filter (fun book => negb (JS.set_has excludeIds (lb_id book))) books)
  with
  | Returned scored =>
      Returned (JS.slice0 limit (JS.sort (by_score_copies_title w) scored))
  | Thrown e => Thrown e
  end.

Definition dataset_error_message : string :=
  "[recommendation-service] Failed to load dataset fallback".

Definition buildDatasetFallback (w : World) (explicitInterests : list string)
    (department : option string) (limit : Z) (excludeIds : list string)
  : M (list PersonalizedRecommendation) :=
  try_catch
    (books <- getAllBooks w ;;
     if JS.len books =? 0 then ret []
     else
       sorted <-
         lift (dataset_sorted w explicitInterests department limit excludeIds books) ;;
       ret (map to_recommendation sorted))
    (fun error =>
       _ <- console_error dataset_error_message ;;
       ret []).

(** ** The entry point *)

Definition empty_result : RecommendationResult :=
  {| res_items := [];
     res_context :=
       {| ctx_explicitInterests := [];
          ctx_derivedCategories := [];
          ctx_department := None;
          ctx_fallbackUsed := true |} |}.

Definition active_statuses : list BorrowingStatus := [BORROWED; OVERDUE; RENEWED].

(** The rows of the two borrowing queries of a user. *)
Definition active_rows (w : World) (user : User) : list string :=
  map bor_bookId
    (Prisma.borrowing_findMany (borrowings w)
       [Prisma.UserIdIs (user_id user); Prisma.StatusIn active_statuses]
       false None).

Definition history_rows (w : World) (user : User) : list HistoryEntry :=
  map (Prisma.join_book (books w))
    (Prisma.borrowing_findMany (borrowings w)
       [Prisma.UserIdIs (user_id user)] true (Some 40)).

Definition user_affiliation (user : User) : option string :=
  match user_branch user with
  | Some b => Some b
  | None => user_department user
  end.

Definition user_explicitInterests (user : User) : list string :=
  filter JS.truthy (JS.set_from (default (user_interests user) [])).

Definition getPersonalizedRecommendations (w : World) (input : RecommendationInput)
  : M RecommendationResult :=
  let limit := default (in_limit input) 6 in
  user <- query w UserLookup (Prisma.user_findUnique (users w) (in_userId input)) ;;
  match user with
  | None => ret empty_result
  | Some user =>
      '(activeBorrowings, recentHistory) <-
        promise_all (query w ActiveBorrowings (active_rows w user))
                    (query w RecentHistory (history_rows w user)) ;;
      let excludeIds := buildExcludeSet input activeBorrowings in
      let derivedCategories := collectTopCategoriesFromHistory recentHistory in
      let explicitInterests := user_explicitInterests user in
      let userDepartment := user_affiliation user in
      popularBookIds <- fetchPopularBookIds w ;;
      let popularIdSet := JS.set_from (JS.slice0 20 popularBookIds) in
      let candidateCategories :=
        JS.set_from (explicitInterests ++ derivedCategories) in
      primaryCandidates <-
        fetchCandidateBooks w
          {| f_categories := candidateCategories;
             f_department := userDepartment;
             f_excludeIds := excludeIds;
             f_limit := limit * 3 |} ;;
      let candidateMap := set_all [] primaryCandidates in
      '(candidateMap, fallbackUsed) <-
        broadenCandidates w limit excludeIds popularIdSet candidateMap ;;
      enriched <-
        enrichCandidates w (JS.map_values candidateMap)
          {| ctx_explicitInterests := explicitInterests;
             ctx_derivedCategories := derivedCategories;
             ctx_department := userDepartment;
             ctx_fallbackUsed := fallbackUsed |}
          popularIdSet (JS.set_from derivedCategories) ;;
      let items := JS.slice0 limit (JS.sort by_score_then_copies enriched) in
      '(items, fallbackUsed) <-
        (if JS.len items =? 0 then
           datasetFallback <-
             buildDatasetFallback w explicitInterests userDepartment limit excludeIds ;;
           if negb (JS.len datasetFallback =? 0)
           then ret (datasetFallback, true)
           else ret (items, fallbackUsed)
         else ret (items, fallbackUsed)) ;;
      ret {| res_items := items;
             res_context :=
               {| ctx_explicitInterests := explicitInterests;
                  ctx_derivedCategories := derivedCategories;
                  ctx_department := userDepartment;
                  ctx_fallbackUsed := fallbackUsed |} |}
  end.

(** A call starts with an empty trace and an unread clock. *)
Definition initial : St := {| trace := []; reads := 0 |}.

(** Named values of a call, for the statements below. *)

Definition limit_of (input : RecommendationInput) : Z := default (in_limit input) 6.

(** The exclusion set once the active borrowings of [user] are known. *)
Definition exclusion_set (w : World) (input : RecommendationInput) (user : User)
  : list string :=
  buildExcludeSet input (active_rows w user).

(** [x] is excluded for a call: supplied by the caller, or the (truthy)
    book id of one of the user's active borrowings. *)
Definition excluded (w : World) (input : RecommendationInput) (x : string) : Prop :=
  In x (default (in_excludeBookIds input) [])
  \/ (x <> ""
      /\ exists b, In b (borrowings w)
                   /\ bor_userId b = in_userId input
                   /\ In (bor_status b) active_statuses
                   /\ bor_bookId b = x).

(** The popular set: the first 20 ids of the popularity ranking computed at
    clock reading [nowMs]. *)
Definition popular_set (w : World) (nowMs : Z) : list string :=
  JS.set_from (JS.slice0 20 (popular_ranking (popular_rows w nowMs))).

(** The candidate map after the primary tier. *)
Definition primary_map (w : World) (input : RecommendationInput) (user : User)
  : candidate_map :=
  set_all []
    (Prisma.book_findMany (books w)
       (candidate_where
          {| f_categories :=
               JS.set_from
                 (user_explicitInterests user
                  ++ collectTopCategoriesFromHistory (history_rows w user));
             f_department := user_affiliation user;
             f_excludeIds := exclusion_set w input user;
             f_limit := limit_of input * 3 |})
       true (Some (limit_of input * 3))).

(** The context a call returns for [user]. *)
Definition context_of (w : World) (user : User) (fallbackUsed : bool)
  : RecommendationContext :=
  {| ctx_explicitInterests := user_explicitInterests user;
     ctx_derivedCategories := collectTopCategoriesFromHistory (history_rows w user);
     ctx_department := user_affiliation user;
     ctx_fallbackUsed := fallbackUsed |}.

(** The list the scored path ends with: candidates enriched in retrieval
    order, sorted, truncated. *)
Definition scored_items (limit : Z) (context : RecommendationContext)
    (popularIdSet : list string) (nowDate : Z)
    (candidates : list RecommendationCandidate)
  : list PersonalizedRecommendation :=
  JS.slice0 limit
    (JS.sort by_score_then_copies
       (map (enrichCandidate context popularIdSet
               (JS.set_from (ctx_derivedCategories context)) nowDate)
            candidates)).

(** The rows [fetchBooksByIds] returns for [bookIds] when its query is
    answered. *)
Definition books_by_ids (w : World) (bookIds : list string)
  : list RecommendationCandidate :=
  if JS.len bookIds =? 0 then []
  else
    let rows := Prisma.book_findMany (books w) [Prisma.IdIn bookIds] false None in
    let bookMap :=
      fold_left (fun m book => JS.map_set m (cand_id book) book) rows [] in
    flat_map
      (fun id => match JS.map_get bookMap id with
                 | Some c => [c]
                 | None => []
                 end)
      bookIds.

(** The candidate map and the flag that the block
    [if (candidateMap.size < limit) { ... }] leaves when the store answers
    its queries: the map completed by the rows of the broad query that it
    lacks, and then, when it is still short and there are popular ids, by
    the popular books that it lacks. *)
Definition broadened (w : World) (limit : Z) (excludeIds popularIdSet : list string)
    (candidateMap : candidate_map) : candidate_map * bool :=
  if JS.map_size candidateMap <? limit then
    let candidateMap := set_missing candidateMap (fallback_rows w excludeIds limit) in
    if (JS.map_size candidateMap <? limit) && negb (JS.len popularIdSet =? 0)
    then
      let remainingPopularIds :=
        filter
          (fun bookId =>
             negb (JS.map_has candidateMap bookId)
             && negb (JS.set_has excludeIds bookId))
          popularIdSet in
      (set_missing candidateMap
         (books_by_ids w (JS.slice0 (limit * 2) remainingPopularIds)),
       true)
    else (candidateMap, true)
  else (candidateMap, false).

(** The candidates of a call for [user], in the order of their retrieval
    into the candidate map. *)
Definition candidates_of (w : World) (input : RecommendationInput) (user : User)
  : list RecommendationCandidate :=
  JS.map_values
    (fst (broadened w (limit_of input) (exclusion_set w input user)
            (popular_set w (clock w 0%nat)) (primary_map w input user))).

(** What the scoring of the bridge gives for [user] over [snapshot]. *)
Definition bridge_sorted (w : World) (input : RecommendationInput) (user : User)
    (snapshot : list LibraryBook) : Outcome (list ScoredBook) :=
  dataset_sorted w (user_explicitInterests user) (user_affiliation user)
    (limit_of input) (exclusion_set w input user) snapshot.

(** The list the dataset bridge computes for [user] over [snapshot]: none
    when scoring throws. *)
Definition bridge_items (w : World) (input : RecommendationInput) (user : User)
    (snapshot : list LibraryBook) : list PersonalizedRecommendation :=
  match bridge_sorted w input user snapshot with
  | Returned sorted => map to_recommendation sorted
  | Thrown _ => []
  end.

(** The callback of the bridge throws on [book]: the user has a department
    and that of the book is the function [Object]. *)
Definition throws_on (department : option string) (book : LibraryBook) : bool :=
  match department, lb_department book with
  | Some dep, Departments.PrototypeMember => JS.truthy dep
  | _, _ => false
  end.

(** The department signal of the bridge when the test returns. *)
Definition same_department (department : option string) (book : LibraryBook) : bool :=
  match department, lb_department book with
  | Some dep, Departments.Department name =>
      JS.truthy dep && String.eqb (JS.toLowerCase name) (JS.toLowerCase dep)
  | _, _ => false
  end.

(** The entry the callback of the bridge returns for [book], when it
    returns. *)
Definition scored_entry (explicitInterests : list string) (department : option string)
    (book : LibraryBook) : ScoredBook :=
  let searchable :=
    JS.toLowerCase (String.append (lb_title book) (String.append " " (lb_author book))) in
  let '(score, reasons, matchedInterest) :=
    match_tokens searchable explicitInterests (interest_tokens explicitInterests)
      0%nat (1, [], None) in
  let '(score, reasons) :=
    signal (same_department department book) 2 reason_department (score, reasons) in
  let '(score, reasons) :=
    signal (5 <=? lb_copies book) 1 reason_catalog_popular (score, reasons) in
  {| sb_book := book; sb_score := score; sb_reasons := reasons;
     sb_matchedInterest := matchedInterest |}.

(** The value of [sorted] when scoring returns for every entry. *)
Definition sorted_entries (w : World) (explicitInterests : list string)
    (department : option string) (limit : Z) (excludeIds : list string)
    (books : list LibraryBook) : list ScoredBook :=
  JS.slice0 limit
    (JS.sort (by_score_copies_title w)
       (map (scored_entry explicitInterests department)
          (filter (fun book => negb (JS.set_has excludeIds (lb_id book))) books))).

(** The loading or the scoring of the bridge throws for [user]. *)
Definition bridge_fails (w : World) (input : RecommendationInput) (user : User)
  : Prop :=
  dataset w = None
  \/ exists snapshot e,
       dataset w = Some snapshot /\ bridge_sorted w input user snapshot = Thrown e.

(** The events of the fallback block when it runs: the broad query,
    followed by the top-up query when that one is issued. *)
Definition fallback_events (evs : list Event) : Prop :=
  evs = [Query BroadFallback] \/ evs = [Query BroadFallback; Query PopularTopUp].

(** The queries every call for a known user starts with. *)
Definition opening_events : list Event :=
  [Query UserLookup; Query ActiveBorrowings; Query RecentHistory;
   Query PopularSample; Query PrimaryTier].

(** The five signals of the scored path, as the code tests them. *)
Record Signals := {
  sig_interest : bool;
  sig_derived : bool;
  sig_department : bool;
  sig_new : bool;
  sig_popular : bool
}.

Definition signals_of (context : RecommendationContext)
    (popularIds derivedCategorySet : list string) (nowDate : Z)
    (candidate : RecommendationCandidate) : Signals :=
  {| sig_interest :=
       array_includes (ctx_explicitInterests context) (cand_category candidate);
     sig_derived := JS.set_has derivedCategorySet (cand_category candidate);
     sig_department :=
       department_matches (ctx_department context) (cand_department candidate);
     sig_new := is_new_arrival (cand_addedAt candidate) nowDate;
     sig_popular := JS.set_has popularIds (cand_id candidate) |}.

(** No signal fires. *)
Definition no_signal : Signals :=
  {| sig_interest := false; sig_derived := false; sig_department := false;
     sig_new := false; sig_popular := false |}.

(** Every signal fires. *)
Definition every_signal : Signals :=
  {| sig_interest := true; sig_derived := true; sig_department := true;
     sig_new := true; sig_popular := true |}.

Definition delta (fires : bool) (d : Z) : Z := if fires then d else 0.

(** The sum of the deltas of the signals that fire. *)
Definition signal_sum (g : Signals) : Z :=
  delta (sig_interest g) 3 + delta (sig_derived g) 2 + delta (sig_department g) 2
  + delta (sig_new g) 1 + delta (sig_popular g) 1.

Definition when (fires : bool) (reason : string) : list string :=
  if fires then [reason] else [].

(** The reasons of the signals that fire, in the order they are tested. *)
Definition signal_reasons (g : Signals) (category : string) : list string :=
  when (sig_interest g) (reason_interest category)
  ++ when (sig_derived g) (reason_derived category)
  ++ when (sig_department g) reason_department
  ++ when (sig_new g) reason_new
  ++ when (sig_popular g) reason_popular.

(** The number of history rows whose trimmed, non-empty category is [c]. *)
Definition occurrences (c : string) (history : list HistoryEntry) : Z :=
  JS.len
    (filter
       (fun entry =>
          match history_category entry with
          | Some category => JS.truthy category && String.eqb category c
          | None => false
          end)
       history).

(** The order of the scored path: a higher score first, and among equal
    scores more available copies first. *)
Definition ranks_before (a b : PersonalizedRecommendation) : Prop :=
  rec_score b < rec_score a
  \/ (rec_score a = rec_score b /\ rec_availableCopies b <= rec_availableCopies a).

(** Recommendations with the given score and available copies: an exact tie
    of the scored path. *)
Definition tied (score copies : Z) (r : PersonalizedRecommendation) : bool :=
  (rec_score r =? score) && (rec_availableCopies r =? copies).

(** The order of the dataset bridge: score descending, then copies
    descending, then title ascending in the collation of the runtime. *)
Definition bridge_before (w : World) (a b : ScoredBook) : Prop :=
  sb_score b < sb_score a
  \/ (sb_score a = sb_score b
      /\ (lb_copies (sb_book b) < lb_copies (sb_book a)
          \/ (lb_copies (sb_book a) = lb_copies (sb_book b)
              /\ localeCompare w (lb_title (sb_book a)) (lb_title (sb_book b)) <= 0))).

(** The collation is a total preorder. *)
Definition collation_consistent (w : World) : Prop :=
  (forall x y z,
      localeCompare w x y <= 0 -> localeCompare w y z <= 0 ->
      localeCompare w x z <= 0)
  /\ (forall x y, 0 < localeCompare w x y -> localeCompare w y x <= 0).

(** The score as the specification words it: the sum of the deltas of the
    five signals, with the department compared to the affiliation and the
    age [nowDate - addedAt] compared to 60 days. *)
Definition claimed_score (explicitInterests derivedCategories : list string)
    (affiliation : option string) (popularIds : list string) (nowDate : Z)
    (candidate : RecommendationCandidate) : Z :=
  delta (array_includes explicitInterests (cand_category candidate)) 3
  + delta (array_includes derivedCategories (cand_category candidate)) 2
  + delta (match affiliation with
           | Some d => String.eqb (cand_department candidate) d
           | None => false
           end) 2
  + delta (nowDate - cand_addedAt candidate <=? NEW_ARRIVAL_DAYS * MS_PER_DAY) 1
  + delta (array_includes popularIds (cand_id candidate)) 1.

(** The outcome of a computation satisfies [Q] when it returns and [E] when
    it throws. *)
Definition post {A} (m : M A) (s : St)
    (Q : A -> St -> Prop) (E : Err -> St -> Prop) : Prop :=
  match m s with
  | (Returned a, s') => Q a s'
  | (Thrown e, s') => E e s'
  end.

(** An error that surfaces from a call is a failure of the store at a site
    that fails. *)
Definition storage_fault (w : World) (e : Err) : Prop :=
  exists site, e = StorageError site /\ storage_fails w site = true.

(** What every returned recommendation satisfies. *)
Definition well_formed (r : PersonalizedRecommendation) : Prop :=
  1 <= rec_score r /\ rec_reasons r <> [] /\ NoDup (rec_reasons r).

(** ** A small library, used to instantiate the statements *)

Module Campus.

Definition day : Z := MS_PER_DAY.

(** Collation by code units. *)
Definition code_unit_order (a b : string) : Z :=
  match String.compare a b with
  | Lt => -1
  | Eq => 0
  | Gt => 1
  end.

Definition book (id category department : string) (copies added : Z)
  : RecommendationCandidate :=
  {| cand_id := id; cand_title := String.append "Title of " id;
     cand_author := None; cand_category := category;
     cand_department := department; cand_availableCopies := copies;
     cand_addedAt := added |}.

Definition borrowing (user bookId : string) (status : BorrowingStatus) (date : Z)
  : Borrowing :=
  {| bor_userId := user; bor_bookId := bookId; bor_status := status;
     bor_borrowDate := date |}.

Definition asha : User :=
  {| user_id := "asha"; user_branch := Some "Computer Engineering";
     user_department := None; user_interests := Some ["Computer Science"] |}.

Definition catalog : list LibraryBook :=
  [ {| lb_id := "book-1";
       lb_department := Departments.Department "Computer Engineering";
       lb_publisher := "TMH"; lb_author := "Korth";
       lb_title := "Computer Science Primer"; lb_copies := 7 |};
    {| lb_id := "book-2";
       lb_department := Departments.Department "Mechanical Engineering";
       lb_publisher := "PHI"; lb_author := "";
       lb_title := "Thermodynamics"; lb_copies := 0 |} ].

(** A book that matches none of asha's signals, and her context. *)
Definition physics_book : RecommendationCandidate :=
  book "b2" "Physics" "Mechanical Engineering" 2 (100 * day).

Definition asha_context : RecommendationContext :=
  {| ctx_explicitInterests := ["Computer Science"];
     ctx_derivedCategories := ["Computer Science"];
     ctx_department := Some "Computer Engineering";
     ctx_fallbackUsed := true |}.

(** A store that answers every query; today is day 1000. *)
Definition world : World :=
  {| users := [asha];
     books :=
       [ book "b1" "Computer Science" "Computer Engineering" 3 (990 * day);
         physics_book;
         book "b3" "Computer Science" "Civil Engineering" 1 (500 * day);
         book "b4" "Mathematics" "Civil Engineering" 0 (999 * day) ];
     borrowings :=
       [ borrowing "asha" "b3" RETURNED (900 * day);
         borrowing "asha" "b3" RETURNED (950 * day);
         borrowing "asha" "b3" BORROWED (980 * day);
         borrowing "ravi" "b1" RETURNED (999 * day) ];
     storage_fails := fun _ => false;
     dataset := Some catalog;
     clock := fun _ => 1000 * day;
     localeCompare := code_unit_order |}.

(** The same library with no book left in the store. *)
Definition bare_world : World :=
  {| users := [asha]; books := []; borrowings := [];
     storage_fails := fun _ => false;
     dataset := Some catalog;
     clock := fun _ => 1000 * day;
     localeCompare := code_unit_order |}.

(** The bare library whose dataset file cannot be read. *)
Definition broken_world : World :=
  {| users := [asha]; books := []; borrowings := [];
     storage_fails := fun _ => false;
     dataset := None;
     clock := fun _ => 1000 * day;
     localeCompare := code_unit_order |}.

(** The catalog of a file with a row whose department column reads
    [Constructor]: the loader stores the function [Object] for it. *)
Definition odd_catalog : list LibraryBook :=
  [ {| lb_id := "book-1";
       lb_department := Departments.Department "Computer Engineering";
       lb_publisher := "TMH"; lb_author := "Korth";
       lb_title := "Computer Science Primer"; lb_copies := 7 |};
    {| lb_id := "book-2"; lb_department := Departments.PrototypeMember;
       lb_publisher := "PHI"; lb_author := "";
       lb_title := "Thermodynamics"; lb_copies := 2 |} ].

(** The bare library over that catalog. *)
Definition odd_world : World :=
  {| users := [asha]; books := []; borrowings := [];
     storage_fails := fun _ => false;
     dataset := Some odd_catalog;
     clock := fun _ => 1000 * day;
     localeCompare := code_unit_order |}.

Definition request : RecommendationInput :=
  {| in_userId := "asha"; in_limit := None; in_excludeBookIds := None |}.

Definition stranger_request : RecommendationInput :=
  {| in_userId := "nobody"; in_limit := Some 3; in_excludeBookIds := None |}.

(** A caller that excludes an id the bridge showed it before. *)
Definition repeat_request : RecommendationInput :=
  {| in_userId := "asha"; in_limit := Some 3;
     in_excludeBookIds := Some ["dataset-book-1"] |}.

End Campus.

(** ** Further named values of the service *)

(** The store has a book with this id. *)
Definition has_book (table : list RecommendationCandidate) (id : string) : bool :=
  existsb (fun b => String.eqb (cand_id b) id) table.

(** The number of rows of a borrowing sample that are for book [id]. *)
Definition borrow_count (id : string) (rows : list Borrowing) : Z :=
  JS.len (filter (fun b => String.eqb (bor_bookId b) id) rows).

(** One step of a counting loop: one more for the key of [x], when it has one. *)
Definition tally {A} (key : A -> option string) (counts : list (string * Z)) (x : A)
  : list (string * Z) :=
  match key x with
  | Some k => count_key counts k
  | None => counts
  end.

(** The number of elements whose key is [k]. *)
Definition key_count {A} (key : A -> option string) (k : string) (l : list A) : Z :=
  JS.len
    (filter (fun x => match key x with
                      | Some k' => String.eqb k' k
                      | None => false
                      end) l).

(** The key under which the popularity loop counts a borrowing. *)
Definition popular_key (b : Borrowing) : option string :=
  if JS.truthy (bor_bookId b) then Some (bor_bookId b) else None.

(** The key under which the history loop counts an entry. *)
Definition category_key (entry : HistoryEntry) : option string :=
  match history_category entry with
  | Some category => if JS.truthy category then Some category else None
  | None => None
  end.

(** A candidate map binds each key once, to a candidate of that id. *)
Definition keys_ok (cm : candidate_map) : Prop :=
  NoDup (map fst cm) /\ forall k c, In (k, c) cm -> k = cand_id c.

(** The text the bridge searches: title and author, in lower case. *)
Definition searchable_text (book : LibraryBook) : string :=
  JS.toLowerCase (String.append (lb_title book) (String.append " " (lb_author book))).

(** An interest as the bridge looks for it: trimmed, in lower case. *)
Definition interest_token (interest : string) : string :=
  JS.toLowerCase (JS.trim interest).

(** The interests whose token occurs in the text of [book]. *)
Definition matching_interests (explicitInterests : list string) (book : LibraryBook)
  : list string :=
  filter (fun i => JS.includes (searchable_text book) (interest_token i))
    explicitInterests.

(** The snapshot entries the bridge may recommend. *)
Definition bridge_pool (excludeIds : list string) (snapshot : list LibraryBook)
  : list LibraryBook :=
  filter (fun book => negb (JS.set_has excludeIds (lb_id book))) snapshot.

(** ** The catalog dataset ([books-dataset])

    The module behind [getAllBooks]: a CSV file read through a cache that is
    refreshed when the file's modification time moves forward. *)

(** [array.slice(start, end)]: a negative index counts from the end. *)
Definition array_slice {A} (start finish : Z) (l : list A) : list A :=
  let len := JS.len l in
  let clamp := fun k => if k <? 0 then Z.max (len + k) 0 else Z.min k len in
  let from := clamp start in
  let to := clamp finish in
  firstn (Z.to_nat (to - from)) (skipn (Z.to_nat from) l).

(** The decimal numeral of a natural number, as a template literal prints it. *)
Definition decimal (n : nat) : string := NilEmpty.string_of_uint (Nat.to_uint n).

Module BooksDataset.

(** A row of the CSV file, by column name; a missing column is [None]. *)
Record CsvRecord := {
  csv_title : option string;
  csv_author : option string;
  csv_publishercode : option string;
  csv_Department : option string;
  csv_Count : option string
}.

Record InternalBookRecord := {
  ib_book : LibraryBook;
  ib_searchVector : string
}.

Record BookAggregations := {
  agg_departments : list string;
  agg_publishers : list string;
  agg_authors : list string
}.

(** The module-level variables. *)
Record Cache := {
  cachedBooks : option (list InternalBookRecord);
  cachedAggregations : option BookAggregations;
  cachedMtime : option Z
}.

(** What the module takes from outside this repository's sources: the CSV
    parser ([None] when it throws), the constant [CANONICAL_DEPARTMENTS],
    the collation of the runtime, and the text the engine prints for the
    function [Object] (in Node: function Object, a pair of parentheses and
    native code in brackets between braces). *)
Record Runtime := {
  parse : string -> option (list CsvRecord);
  CANONICAL_DEPARTMENTS : list string;
  collation : string -> string -> Z;
  object_function_text : string
}.

(** What one call finds: the dataset file ([None] when it cannot be read),
    its modification time in milliseconds ([None] when it cannot be
    stat'ed) and the clock.  Times are compared and tested for zero, never
    computed with; they are integers here. *)
Record Moment := {
  file_content : option string;
  file_mtime : option Z;
  date_now : Z
}.

Inductive FsEvent :=
| StatFile
| ReadFile
| LogError (msg : string).

(** Why a call throws: the file could not be read (the module's own error),
    the parser threw, or a method was called on a value that does not have
    it (a [TypeError]). *)
Inductive Failure :=
| Unreadable
| Malformed
| NoSuchMethod.

Inductive Result (A : Type) :=
| Done (a : A)
| Failed (f : Failure).
Arguments Done {A} a.
Arguments Failed {A} f.

Definition BOOKS_DEFAULT_PAGE_SIZE : Z := 50.

Definition normalizeString (value : option string) : string :=
  JS.trim (default value "").

Definition digit_of (c : ascii) : option Z :=
  let n := N_of_ascii c in
  if ((48 <=? n) && (n <=? 57))%N then Some (Z.of_N n - 48) else None.

(** The value of the longest prefix of decimal digits, after [acc]. *)
Fixpoint parse_digits (s : string) (acc : option Z) : option Z :=
  match s with
  | EmptyString => acc
  | String c r =>
      match digit_of c with
      | Some d => parse_digits r (Some (10 * default acc 0 + d))
      | None => acc
      end
  end.

(** [Number.parseInt(s, 10)]; [None] is [NaN].  The integer is exact here;
    the source holds it in a double, which is the same number below 2^53. *)
Definition parseInt10 (s : string) : option Z :=
  match JS.trimStart s with
  | EmptyString => None
  | String c r =>
      if Ascii.eqb c "-" then option_map Z.opp (parse_digits r None)
      else if Ascii.eqb c "+" then parse_digits r None
      else parse_digits (String c r) None
  end.

Definition parseCopies (value : option string) : Z :=
  match parseInt10 (JS.trim (default value "")) with
  | Some parsed => if 0 <? parsed then parsed else 0
  | None => 0
  end.

(** [String(value)] of a department, as [join] and a template literal
    print it. *)
Definition department_text (text_of_function : string)
    (d : Departments.Resolved) : string :=
  match d with
  | Departments.Department name => name
  | Departments.PrototypeMember => text_of_function
  end.

(** [Boolean(value)] of a department: a function is truthy. *)
Definition department_truthy (d : Departments.Resolved) : bool :=
  match d with
  | Departments.Department name => JS.truthy name
  | Departments.PrototypeMember => true
  end.

(** [a === b] on departments. *)
Definition department_eqb (a b : Departments.Resolved) : bool :=
  match a, b with
  | Departments.Department x, Departments.Department y => String.eqb x y
  | Departments.PrototypeMember, Departments.PrototypeMember => true
  | _, _ => false
  end.

(** [value.toLowerCase()] of a department: the function [Object] has no
    such method. *)
Definition department_lower (d : Departments.Resolved) : Result string :=
  match d with
  | Departments.Department name => Done (JS.toLowerCase name)
  | Departments.PrototypeMember => Failed NoSuchMethod
  end.

Definition buildSearchVector (text_of_function : string) (book : LibraryBook)
  : string :=
  JS.toLowerCase
    (String.concat " | "
       [lb_title book; lb_author book; lb_publisher book;
        department_text text_of_function (lb_department book)]).

Definition stripSearchVector (r : InternalBookRecord) : LibraryBook := ib_book r.

Definition read_error_message : string :=
  "[books-dataset] Failed to read dataset file:".
Definition stat_error_message : string :=
  "[books-dataset] Failed to stat dataset file:".

(** The outcome of a call: what it returns or throws, the cache it leaves
    and what it did to the file system and the log, in order.  A call runs
    to its end before the next one starts. *)
Definition Run (A : Type) : Type := Result A * Cache * list FsEvent.

(** A number is falsy when it is 0, and so is [null]. *)
Definition truthy_number (n : option Z) : bool :=
  match n with
  | Some k => negb (k =? 0)
  | None => false
  end.

(** [!cachedMtime || (currentMtime && currentMtime > cachedMtime)]. *)
Definition cache_is_stale (cached current : option Z) : bool :=
  negb (truthy_number cached)
  || (truthy_number current && (default cached 0 <? default current 0)).

(** [getFileModifiedTime]. *)
Definition getFileModifiedTime (at_call : Moment) : option Z * list FsEvent :=
  match file_mtime at_call with
  | Some m => (Some m, [StatFile])
  | None => (None, [StatFile; LogError stat_error_message])
  end.

(** [Set.add] for each truthy value of a field, then [Array.from]. *)
Definition distinct_truthy (values : list string) : list string :=
  fold_left (fun set v => if JS.truthy v then JS.set_add set v else set) values [].

(** The same for the set of departments, whose members need not be
    strings. *)
Definition department_set_has (set : list Departments.Resolved)
    (d : Departments.Resolved) : bool :=
  existsb (department_eqb d) set.

Definition distinct_departments (values : list Departments.Resolved)
  : list Departments.Resolved :=
  fold_left
    (fun set d =>
       if department_truthy d
       then (if department_set_has set d then set else set ++ [d])
       else set)
    values [].

Section WithRuntime.

Variable rt : Runtime.

(** The book made of the record at [index], once its title is known not to
    be blank. *)
Definition book_of_record (record : CsvRecord) (index : nat) : InternalBookRecord :=
  let title := normalizeString (csv_title record) in
  let author := normalizeString (csv_author record) in
  let publisher := normalizeString (csv_publishercode record) in
  let department := Departments.resolveDepartment (csv_Department record) in
  let copies := parseCopies (csv_Count record) in
  let book :=
    {| lb_id := String.append "book-" (decimal (index + 1));
       lb_department := department;
       lb_publisher := publisher;
       lb_author := author;
       lb_title := title;
       lb_copies := copies |} in
  {| ib_book := book;
     ib_searchVector := buildSearchVector (object_function_text rt) book |}.

(** The loop of [loadBooksFromCsv], from [index] on. *)
Fixpoint load_records (records : list CsvRecord) (index : nat)
  : list InternalBookRecord :=
  match records with
  | [] => []
  | record :: rest =>
      if negb (JS.truthy (normalizeString (csv_title record)))
      then load_records rest (S index)
      else book_of_record record index :: load_records rest (S index)
  end.

(** [readDatasetFile] followed by [parse] and the loop; the cache is not
    touched. *)
Definition loadBooksFromCsv (at_call : Moment)
  : Result (list InternalBookRecord) * list FsEvent :=
  match file_content at_call with
  | None => (Failed Unreadable, [ReadFile; LogError read_error_message])
  | Some csvContent =>
      match parse rt csvContent with
      | None => (Failed Malformed, [ReadFile])
      | Some records => (Done (load_records records 0%nat), [ReadFile])
      end
  end.

(** The assignments after a successful load. *)
Definition refreshed (at_call : Moment) (currentMtime : option Z)
    (freshBooks : list InternalBookRecord) : Cache :=
  {| cachedBooks := Some freshBooks;
     cachedAggregations := None;
     cachedMtime := Some (default currentMtime (date_now at_call)) |}.

Definition ensureCache (at_call : Moment) (c : Cache)
  : Run (list InternalBookRecord) :=
  let '(currentMtime, statEvents) := getFileModifiedTime at_call in
  let reload :=
    match loadBooksFromCsv at_call with
    | (Done freshBooks, events) =>
        (Done freshBooks, refreshed at_call currentMtime freshBooks,
         statEvents ++ events)
    | (Failed f, events) => (Failed f, c, statEvents ++ events)
    end in
  match cachedBooks c with
  | Some books =>
      if cache_is_stale (cachedMtime c) currentMtime then reload
      else (Done books, c, statEvents)
  | None => reload
  end.

Definition getAllBooks (at_call : Moment) (c : Cache) : Run (list LibraryBook) :=
  match ensureCache at_call c with
  | (Done books, c', events) => (Done (map stripSearchVector books), c', events)
  | (Failed f, c', events) => (Failed f, c', events)
  end.

Definition getBookById (at_call : Moment) (c : Cache) (bookId : string)
  : Run (option LibraryBook) :=
  match ensureCache at_call c with
  | (Done books, c', events) =>
      (Done
         (option_map stripSearchVector
            (find (fun book => String.eqb (lb_id (ib_book book)) bookId) books)),
       c', events)
  | (Failed f, c', events) => (Failed f, c', events)
  end.

Definition buildAggregations (books : list InternalBookRecord)
  : BookAggregations :=
  let departments :=
    distinct_departments (map (fun b => lb_department (ib_book b)) books) in
  let publishers := distinct_truthy (map (fun b => lb_publisher (ib_book b)) books) in
  let authors := distinct_truthy (map (fun b => lb_author (ib_book b)) books) in
  {| agg_departments :=
       filter
         (fun dept => department_set_has departments (Departments.Department dept))
         (CANONICAL_DEPARTMENTS rt);
     agg_publishers := JS.sort (collation rt) publishers;
     agg_authors := JS.sort (collation rt) authors |}.

Definition getBooksAggregations (at_call : Moment) (c : Cache)
  : Run BookAggregations :=
  match ensureCache at_call c with
  | (Done books, c', events) =>
      match cachedAggregations c' with
      | Some aggregations => (Done aggregations, c', events)
      | None =>
          let aggregations := buildAggregations books in
          (Done aggregations,
           {| cachedBooks := cachedBooks c';
              cachedAggregations := Some aggregations;
              cachedMtime := cachedMtime c' |},
           events)
      end
  | (Failed f, c', events) => (Failed f, c', events)
  end.

(** What the module-level variables can hold after any number of calls:
    books that came out of the loader, and aggregations built from the
    books held. *)
Definition cache_valid (c : Cache) : Prop :=
  match cachedBooks c with
  | Some books =>
      (exists records, books = load_records records 0%nat)
      /\ match cachedAggregations c with
         | Some aggregations => aggregations = buildAggregations books
         | None => True
         end
  | None => cachedAggregations c = None
  end.

End WithRuntime.

(** Page numbers and sizes are integers here. *)
Record BookSearchOptions := {
  opt_query : option string;
  opt_department : option string;
  opt_publisher : option string;
  opt_author : option string;
  opt_page : option Z;
  opt_pageSize : option Z
}.

(** [matches.length > 0 ? totalCopies / matches.length : 0].  The quotient
    is that of two doubles, rounded; it is kept as its two operands. *)
Inductive Average :=
| ZeroAverage
| DoubleQuotient (dividend divisor : Z).

Record SearchStats := {
  totalCopies : Z;
  lowStockCount : Z;
  lowStockCopies : Z;
  healthyCopies : Z;
  singleCopyCount : Z;
  averageCopies : Average
}.

Record BookSearchResult := {
  sr_items : list LibraryBook;
  sr_total : Z;
  sr_page : Z;
  sr_pageSize : Z;
  sr_totalPages : Z;
  sr_stats : SearchStats
}.

(** [s.split(/\s+/).filter(Boolean)]: the maximal runs without white space. *)
Fixpoint words_from (s : string) (current : string) : list string :=
  match s with
  | EmptyString => if JS.truthy current then [current] else []
  | String c r =>
      if JS.is_space c
      then (if JS.truthy current then [current] else []) ++ words_from r EmptyString
      else words_from r (String.append current (String c EmptyString))
  end.

Definition words (s : string) : list string := words_from s EmptyString.

(** [wanted && value.toLowerCase() !== wanted.toLowerCase()] on a string
    field. *)
Definition field_differs (wanted value : string) : bool :=
  JS.truthy wanted
  && negb (String.eqb (JS.toLowerCase value) (JS.toLowerCase wanted)).

(** [department && book.department.toLowerCase() !== department.toLowerCase()]. *)
Definition department_differs (wanted : string) (d : Departments.Resolved)
  : Result bool :=
  if JS.truthy wanted then
    match department_lower d with
    | Done lower => Done (negb (String.eqb lower (JS.toLowerCase wanted)))
    | Failed f => Failed f
    end
  else Done false.

(** The query test of the callback: every token occurs in the search
    vector. *)
Definition has_all_tokens (query : string) (book : InternalBookRecord) : bool :=
  if JS.truthy query
  then forallb (fun token => JS.includes (ib_searchVector book) token) (words query)
  else true.

(** The callback of [books.filter] in [searchBooks]. *)
Definition book_matches_search (query department publisher author : string)
    (book : InternalBookRecord) : Result bool :=
  if negb (has_all_tokens query book) then Done false
  else
    match department_differs department (lb_department (ib_book book)) with
    | Failed f => Failed f
    | Done true => Done false
    | Done false =>
        if field_differs publisher (lb_publisher (ib_book book)) then Done false
        else if field_differs author (lb_author (ib_book book)) then Done false
        else Done true
    end.

(** [array.filter(f)] for a callback that can throw: the first throw ends
    the loop. *)
Fixpoint filter_result {A} (f : A -> Result bool) (l : list A) : Result (list A) :=
  match l with
  | [] => Done []
  | x :: rest =>
      match f x with
      | Failed e => Failed e
      | Done keep =>
          match filter_result f rest with
          | Failed e => Failed e
          | Done kept => Done (if keep then x :: kept else kept)
          end
      end
  end.

(** [given && given > 0 ? given : fallback]. *)
Definition positive_or (given : option Z) (fallback : Z) : Z :=
  match given with
  | Some n => if negb (n =? 0) && (0 <? n) then n else fallback
  | None => fallback
  end.

(** The counters of the statistics loop. *)
Record Counters := {
  n_totalCopies : Z;
  n_lowStockCount : Z;
  n_lowStockCopies : Z;
  n_healthyCopies : Z;
  n_singleCopyCount : Z
}.

(** The body of [for (const book of matches)]. *)
Definition count_stock (n : Counters) (book : InternalBookRecord) : Counters :=
  let copies := lb_copies (ib_book book) in
  if copies <=? 2 then
    {| n_totalCopies := n_totalCopies n + copies;
       n_lowStockCount := n_lowStockCount n + 1;
       n_lowStockCopies := n_lowStockCopies n + copies;
       n_healthyCopies := n_healthyCopies n;
       n_singleCopyCount :=
         if copies =? 1 then n_singleCopyCount n + 1 else n_singleCopyCount n |}
  else
    {| n_totalCopies := n_totalCopies n + copies;
       n_lowStockCount := n_lowStockCount n;
       n_lowStockCopies := n_lowStockCopies n;
       n_healthyCopies := n_healthyCopies n + copies;
       n_singleCopyCount := n_singleCopyCount n |}.

Definition no_counts : Counters :=
  {| n_totalCopies := 0; n_lowStockCount := 0; n_lowStockCopies := 0;
     n_healthyCopies := 0; n_singleCopyCount := 0 |}.

(** [Math.ceil(a / b)] for a positive [b]. *)
Definition ceil_div (a b : Z) : Z := (a + b - 1) / b.

(** The selection of [searchBooks]: the books that pass the filters, unless
    the callback throws. *)
Definition search_matches (options : BookSearchOptions)
    (books : list InternalBookRecord) : Result (list InternalBookRecord) :=
  let query := JS.toLowerCase (normalizeString (opt_query options)) in
  let department := normalizeString (opt_department options) in
  let publisher := normalizeString (opt_publisher options) in
  let author := normalizeString (opt_author options) in
  filter_result (book_matches_search query department publisher author) books.

(** What [searchBooks] makes of the matches: paging and statistics. *)
Definition page_result (options : BookSearchOptions)
    (matches : list InternalBookRecord) : BookSearchResult :=
  let pageSize := positive_or (opt_pageSize options) BOOKS_DEFAULT_PAGE_SIZE in
  let page := positive_or (opt_page options) 1 in
  let offset := (page - 1) * pageSize in
  let n := fold_left count_stock matches no_counts in
  let averageCopies :=
    if 0 <? JS.len matches
    then DoubleQuotient (n_totalCopies n) (JS.len matches)
    else ZeroAverage in
  let paginatedItems := array_slice offset (offset + pageSize) matches in
  {| sr_items := map stripSearchVector paginatedItems;
     sr_total := JS.len matches;
     sr_page := page;
     sr_pageSize := pageSize;
     sr_totalPages := Z.max 1 (ceil_div (JS.len matches) pageSize);
     sr_stats :=
       {| totalCopies := n_totalCopies n;
          lowStockCount := n_lowStockCount n;
          lowStockCopies := n_lowStockCopies n;
          healthyCopies := n_healthyCopies n;
          singleCopyCount := n_singleCopyCount n;
          averageCopies := averageCopies |} |}.

(** [searchBooks] once the books are at hand. *)
Definition search (options : BookSearchOptions) (books : list InternalBookRecord)
  : Result BookSearchResult :=
  match search_matches options books with
  | Done matches => Done (page_result options matches)
  | Failed f => Failed f
  end.

Definition searchBooks (rt : Runtime) (at_call : Moment) (c : Cache)
    (options : BookSearchOptions) : Run BookSearchResult :=
  match ensureCache rt at_call c with
  | (Done books, c', events) =>
      match search options books with
      | Done result => (Done result, c', events)
      | Failed f => (Failed f, c', events)
      end
  | (Failed f, c', events) => (Failed f, c', events)
  end.

(** The state of the module when it is loaded. *)
Definition empty_cache : Cache :=
  {| cachedBooks := None; cachedAggregations := None; cachedMtime := None |}.


(** A search by free text alone. *)
Definition query_only (text : string) : BookSearchOptions :=
  {| opt_query := Some text;
     opt_department := None;
     opt_publisher := None;
     opt_author := None;
     opt_page := None;
     opt_pageSize := None |}.

(** A numeral is made of digits. *)
Fixpoint all_digits (s : string) : bool :=
  match s with
  | EmptyString => true
  | String c r => match digit_of c with Some _ => all_digits r | None => false end
  end.



End BooksDataset.

(** A small dataset file, for examples. *)
Module Shelf.

Definition row (title author publisher department count : string)
  : BooksDataset.CsvRecord :=
  {| BooksDataset.csv_title := Some title;
     BooksDataset.csv_author := Some author;
     BooksDataset.csv_publishercode := Some publisher;
     BooksDataset.csv_Department := Some department;
     BooksDataset.csv_Count := Some count |}.

Definition records : list BooksDataset.CsvRecord :=
  [row " Signals and Systems " "Oppenheim" "PHI" "EXTC Engg" "4";
   row "   " "Nobody" "PHI" "Civil" "7";
   row "Thermodynamics" "Cengel" "TMH" "Mech. Engineering" "1"].

Definition runtime : BooksDataset.Runtime :=
  {| BooksDataset.parse := fun _ => Some records;
     BooksDataset.CANONICAL_DEPARTMENTS := Departments.department_names;
     BooksDataset.collation := Campus.code_unit_order;
     BooksDataset.object_function_text := "function Object() { [native code] }" |}.

(** The same file with one more row, whose department column reads
    [Constructor]. *)
Definition odd_records : list BooksDataset.CsvRecord :=
  records ++ [row "Design Patterns" "Gamma" "AW" "Constructor" "3"].

Definition odd_runtime : BooksDataset.Runtime :=
  {| BooksDataset.parse := fun _ => Some odd_records;
     BooksDataset.CANONICAL_DEPARTMENTS := Departments.department_names;
     BooksDataset.collation := Campus.code_unit_order;
     BooksDataset.object_function_text := "function Object() { [native code] }" |}.

(** A search for the books of one department. *)
Definition civil_only : BooksDataset.BookSearchOptions :=
  {| BooksDataset.opt_query := None;
     BooksDataset.opt_department := Some "Civil";
     BooksDataset.opt_publisher := None;
     BooksDataset.opt_author := None;
     BooksDataset.opt_page := None;
     BooksDataset.opt_pageSize := None |}.

Definition morning : BooksDataset.Moment :=
  {| BooksDataset.file_content := Some "title,author,publishercode,Department,Count";
     BooksDataset.file_mtime := Some 1000;
     BooksDataset.date_now := 2000 |}.

Definition books : list BooksDataset.InternalBookRecord :=
  BooksDataset.load_records runtime records 0.

Definition thermodynamics : BooksDataset.InternalBookRecord :=
  BooksDataset.book_of_record runtime
    (row "Thermodynamics" "Cengel" "TMH" "Mech. Engineering" "1") 2.

(** The cache after a first load in the [morning]. *)
Definition loaded : BooksDataset.Cache :=
  BooksDataset.refreshed morning (Some 1000) books.

End Shelf.

(** * Properties *)

(** ** Stable sorting *)

Section StableSortFacts.
Context {A : Type}.
Variable cmp : A -> A -> Z.

Lemma insert_perm (x : A) (l : list A) : Permutation (insert cmp x l) (x :: l).
Proof.
  induction l as [|y r IH]; simpl.
  - reflexivity.
  - destruct (cmp x y <=? 0).
    + reflexivity.
    + rewrite IH. apply perm_swap.
Qed.

Lemma stable_sort_perm (l : list A) : Permutation (stable_sort cmp l) l.
Proof.
  induction l as [|x r IH]; simpl.
  - reflexivity.
  - rewrite insert_perm. now constructor.
Qed.

Lemma stable_sort_In (l : list A) (x : A) : In x (stable_sort cmp l) <-> In x l.
Proof.
  split; apply Permutation_in;
    [apply stable_sort_perm | symmetry; apply stable_sort_perm].
Qed.

(** Elements that [p] selects and the comparator never separates keep
    their relative order. *)
Lemma insert_filter (p : A -> bool) (x : A) (l : list A) :
  (forall y, In y l -> p x = true -> p y = true -> cmp x y <= 0) ->
  filter p (insert cmp x l) = filter p (x :: l).
Proof.
  induction l as [|y r IH]; intros Htie; simpl.
  - reflexivity.
  - destruct (cmp x y <=? 0) eqn:Hc.
    + reflexivity.
    + simpl. rewrite IH by (intros; apply Htie; simpl; auto).
      simpl. destruct (p x) eqn:Hx, (p y) eqn:Hy; try reflexivity.
      exfalso. apply Z.leb_gt in Hc.
      specialize (Htie y (or_introl eq_refl) eq_refl Hy). lia.
Qed.

Lemma stable_sort_stable (p : A -> bool) (l : list A) :
  (forall x y, p x = true -> p y = true -> cmp x y <= 0) ->
  filter p (stable_sort cmp l) = filter p l.
Proof.
  intros Htie. induction l as [|x r IH]; simpl.
  - reflexivity.
  - rewrite insert_filter by (intros; now apply Htie).
    simpl. now rewrite IH.
Qed.

Section Sorted.
Hypothesis cmp_trans :
  forall x y z, cmp x y <= 0 -> cmp y z <= 0 -> cmp x z <= 0.
Hypothesis cmp_total : forall x y, 0 < cmp x y -> cmp y x <= 0.

Lemma insert_sorted (x : A) (l : list A) :
  StronglySorted (fun a b => cmp a b <= 0) l ->
  StronglySorted (fun a b => cmp a b <= 0) (insert cmp x l).
Proof.
  induction 1 as [|y r Hs IH Hall]; simpl.
  - repeat constructor.
  - destruct (cmp x y <=? 0) eqn:Hc.
    + apply Z.leb_le in Hc. constructor.
      * now constructor.
      * constructor; [exact Hc|].
        rewrite Forall_forall in Hall |- *.
        intros z Hz. eapply cmp_trans; eauto.
    + apply Z.leb_gt in Hc. constructor; [exact IH|].
      rewrite Forall_forall in Hall |- *.
      intros z Hz. apply (Permutation_in _ (insert_perm x r)) in Hz.
      destruct Hz as [<-|Hz]; auto.
Qed.

Lemma stable_sort_sorted (l : list A) :
  StronglySorted (fun a b => cmp a b <= 0) (stable_sort cmp l).
Proof.
  induction l as [|x r IH]; simpl.
  - constructor.
  - now apply insert_sorted.
Qed.
End Sorted.
End StableSortFacts.

(** ** Arrays, sets and maps *)

Lemma slice0_length {A} (n : Z) (l : list A) :
  0 <= n -> JS.len (JS.slice0 n l) <= n.
Proof.
  intros Hn. unfold JS.len, JS.slice0.
  destruct (0 <=? n) eqn:H; [|apply Z.leb_gt in H; lia].
  rewrite length_firstn. lia.
Qed.

(** A negative bound drops elements from the end instead. *)
Example slice0_negative : JS.slice0 (-1) [1; 2; 3] = [1; 2].
Proof. reflexivity. Qed.

Lemma slice0_prefix {A} (n : Z) (l : list A) :
  exists rest, l = JS.slice0 n l ++ rest.
Proof.
  unfold JS.slice0. destruct (0 <=? n).
  - exists (skipn (Z.to_nat n) l). symmetry. apply firstn_skipn.
  - exists (skipn (List.length l - Z.to_nat (- n)) l). symmetry. apply firstn_skipn.
Qed.

Lemma slice0_In {A} (n : Z) (l : list A) (x : A) :
  In x (JS.slice0 n l) -> In x l.
Proof.
  intros H. destruct (slice0_prefix n l) as [rest E]. rewrite E.
  apply in_or_app. now left.
Qed.

Lemma slice0_nonneg {A} (n : Z) (l : list A) :
  0 <= n -> JS.slice0 n l = firstn (Z.to_nat n) l.
Proof.
  intros H. unfold JS.slice0. apply Z.leb_le in H. now rewrite H.
Qed.

Lemma take_In {A} (n : Z) (l : list A) (x : A) : In x (Prisma.take n l) -> In x l.
Proof.
  unfold Prisma.take. destruct (0 <=? n); intros H.
  - rewrite <- (firstn_skipn (Z.to_nat n) l). apply in_or_app. now left.
  - rewrite <- (firstn_skipn (List.length l - Z.to_nat (- n)) l).
    apply in_or_app. now right.
Qed.

Lemma take_length {A} (n : Z) (l : list A) :
  0 <= n -> JS.len (Prisma.take n l) <= n.
Proof.
  intros Hn. unfold JS.len, Prisma.take.
  destruct (0 <=? n) eqn:H; [|apply Z.leb_gt in H; lia].
  rewrite length_firstn. lia.
Qed.

Lemma len_zero {A} (l : list A) : (JS.len l =? 0) = true <-> l = [].
Proof.
  unfold JS.len. rewrite Z.eqb_eq. destruct l; simpl; split; intros; try easy; lia.
Qed.

Lemma set_has_In (s : list string) (x : string) :
  JS.set_has s x = true <-> In x s.
Proof.
  unfold JS.set_has. rewrite existsb_exists. split.
  - intros [y [Hy E]]. apply String.eqb_eq in E. now subst.
  - intros H. exists x. split; [exact H | apply String.eqb_refl].
Qed.

Lemma set_has_false (s : list string) (x : string) :
  JS.set_has s x = false <-> ~ In x s.
Proof.
  rewrite <- set_has_In. destruct (JS.set_has s x); split; congruence.
Qed.

Lemma set_add_In (s : list string) (x y : string) :
  In y (JS.set_add s x) <-> In y s \/ y = x.
Proof.
  unfold JS.set_add. destruct (JS.set_has s x) eqn:H.
  - apply set_has_In in H. split; [auto | intros [?| ->]; auto].
  - rewrite in_app_iff. simpl. intuition.
Qed.

Lemma set_add_NoDup (s : list string) (x : string) :
  NoDup s -> NoDup (JS.set_add s x).
Proof.
  intros Hs. unfold JS.set_add. destruct (JS.set_has s x) eqn:H; [exact Hs|].
  apply set_has_false in H.
  apply NoDup_app; [exact Hs | repeat constructor; simpl; tauto |].
  intros y Hy [<-|[]]. contradiction.
Qed.

Lemma fold_set_add_In (l s : list string) (y : string) :
  In y (fold_left JS.set_add l s) <-> In y s \/ In y l.
Proof.
  revert s. induction l as [|x r IH]; intros s; simpl.
  - tauto.
  - rewrite IH, set_add_In. intuition.
Qed.

Lemma set_from_In (l : list string) (y : string) :
  In y (JS.set_from l) <-> In y l.
Proof. unfold JS.set_from. rewrite fold_set_add_In. simpl. tauto. Qed.

Section MapFacts.
Context {V : Type}.
Implicit Types m : list (string * V).

Lemma map_has_In m (k : string) :
  JS.map_has m k = true <-> In k (map fst m).
Proof.
  unfold JS.map_has. rewrite existsb_exists, in_map_iff. split.
  - intros [e [He E]]. apply String.eqb_eq in E. exists e. now split.
  - intros [e [E He]]. exists e. split; [exact He|]. subst. apply String.eqb_refl.
Qed.

Lemma map_set_values m (k : string) (v x : V) :
  In x (JS.map_values (JS.map_set m k v)) -> In x (JS.map_values m) \/ x = v.
Proof.
  unfold JS.map_values. induction m as [|[k' v'] r IH]; simpl.
  - intros [<-|[]]. now right.
  - destruct (String.eqb k k'); simpl.
    + intros [<-|H]; auto.
    + intros [<-|H]; auto. destruct (IH H); auto.
Qed.

(** Setting an absent key appends the binding. *)
Lemma map_set_absent m (k : string) (v : V) :
  JS.map_has m k = false -> JS.map_set m k v = m ++ [(k, v)].
Proof.
  unfold JS.map_has. induction m as [|[k' v'] r IH]; simpl; intros H.
  - reflexivity.
  - apply orb_false_iff in H. destruct H as [H1 H2].
    rewrite H1. now rewrite IH.
Qed.

Lemma map_get_app_l m (extra : list (string * V)) (k : string) :
  JS.map_has m k = true -> JS.map_get (m ++ extra) k = JS.map_get m k.
Proof.
  unfold JS.map_has. induction m as [|[k' v'] r IH]; simpl; intros H.
  - discriminate.
  - destruct (String.eqb k k'); [reflexivity | now apply IH].
Qed.

Lemma map_has_app m (extra : list (string * V)) (k : string) :
  JS.map_has (m ++ extra) k = JS.map_has m k || JS.map_has extra k.
Proof. unfold JS.map_has. apply existsb_app. Qed.
End MapFacts.

(** ** The effect monad *)

Lemma post_ret {A} (a : A) s (Q : A -> St -> Prop) E :
  Q a s -> post (ret a) s Q E.
Proof. intros H. exact H. Qed.

Lemma post_bind {A B} (m : M A) (k : A -> M B) s (Q : B -> St -> Prop) E :
  post m s (fun a s' => post (k a) s' Q E) E -> post (bind m k) s Q E.
Proof.
  unfold post, bind. destruct (m s) as [[a|e] s']; intros H; exact H.
Qed.

Lemma post_weaken {A} (m : M A) s (Q Q' : A -> St -> Prop) (E E' : Err -> St -> Prop) :
  post m s Q E ->
  (forall a s', Q a s' -> Q' a s') ->
  (forall e s', E e s' -> E' e s') ->
  post m s Q' E'.
Proof.
  unfold post. destruct (m s) as [[a|e] s']; intros H HQ HE; auto.
Qed.

Lemma post_query {A} (w : World) (site : Site) (rows : A) s
    (Q : A -> St -> Prop) (E : Err -> St -> Prop) :
  (storage_fails w site = true -> E (StorageError site) (emit (Query site) s)) ->
  (storage_fails w site = false -> Q rows (emit (Query site) s)) ->
  post (query w site rows) s Q E.
Proof.
  unfold post, query. destruct (storage_fails w site); auto.
Qed.

Lemma post_now (w : World) s (Q : Z -> St -> Prop) E :
  Q (clock w (reads s)) {| trace := trace s; reads := S (reads s) |} ->
  post (now w) s Q E.
Proof. intros H. exact H. Qed.

Lemma post_all_queries {A B} (w : World) (s1 s2 : Site) (r1 : A) (r2 : B) s
    (Q : A * B -> St -> Prop) (E : Err -> St -> Prop) :
  let s' := emit (Query s2) (emit (Query s1) s) in
  (storage_fails w s1 = true -> E (StorageError s1) s') ->
  (storage_fails w s1 = false -> storage_fails w s2 = true ->
   E (StorageError s2) s') ->
  (storage_fails w s1 = false -> storage_fails w s2 = false -> Q (r1, r2) s') ->
  post (promise_all (query w s1 r1) (query w s2 r2)) s Q E.
Proof.
  unfold post, promise_all, query.
  destruct (storage_fails w s1), (storage_fails w s2); simpl; auto.
Qed.

Lemma storage_fault_intro (w : World) (site : Site) :
  storage_fails w site = true -> storage_fault w (StorageError site).
Proof. intros H. exists site. now split. Qed.

(** ** The dataset bridge in closed form *)

Lemma dataset_sorted_nil w explicitInterests department limit excludeIds :
  dataset_sorted w explicitInterests department limit excludeIds [] = Returned [].
Proof.
  unfold dataset_sorted, JS.slice0. simpl.
  destruct (0 <=? limit); [now rewrite firstn_nil|reflexivity].
Qed.

(** [buildDatasetFallback] always returns: the recommendations of the
    snapshot when it loads and scoring returns, and the empty list, after
    one log line, when loading or scoring throws. *)
Lemma buildDatasetFallback_eval w explicitInterests department limit excludeIds s :
  buildDatasetFallback w explicitInterests department limit excludeIds s =
  match dataset w with
  | Some snapshot =>
      match dataset_sorted w explicitInterests department limit excludeIds snapshot with
      | Returned sorted =>
          (Returned (map to_recommendation sorted), emit GetAllBooks s)
      | Thrown _ =>
          (Returned [],
           emit (ConsoleError dataset_error_message) (emit GetAllBooks s))
      end
  | None =>
      (Returned [], emit (ConsoleError dataset_error_message) (emit GetAllBooks s))
  end.
Proof.
  unfold buildDatasetFallback, try_catch, bind, getAllBooks, console_error, ret, lift.
  destruct (dataset w) as [snapshot|]; [|reflexivity].
  destruct (JS.len snapshot =? 0) eqn:H.
  - apply len_zero in H. subst snapshot. now rewrite dataset_sorted_nil.
  - destruct (dataset_sorted _ _ _ _ _ snapshot); reflexivity.
Qed.

(** The department test of the bridge throws on what [throws_on] names,
    and else gives [same_department]. *)
Lemma dataset_department_matches_cases department book :
  dataset_department_matches department (lb_department book)
  = if throws_on department book then Thrown TypeError
    else Returned (same_department department book).
Proof.
  unfold throws_on, same_department, dataset_department_matches,
    department_toLowerCase.
  destruct department as [dep|]; [destruct (JS.truthy dep)|];
    destruct (lb_department book); reflexivity.
Qed.

(** The callback of the bridge returns unless the user has a department and
    the book's is not a string. *)
Lemma score_book_cases explicitInterests department book :
  score_book explicitInterests department book
  = if throws_on department book then Thrown TypeError
    else Returned (scored_entry explicitInterests department book).
Proof.
  unfold score_book, scored_entry, throws_on, same_department,
    dataset_department_matches, department_toLowerCase.
  destruct (match_tokens _ _ _ _ _) as [[score reasons] matched].
  destruct department as [dep|]; [destruct (JS.truthy dep) eqn:T|];
    destruct (lb_department book) as [name|]; cbn [andb];
    try reflexivity;
    destruct (signal _ 2 _ _) as [score1 reasons1];
    destruct (signal _ 1 _ _) as [score2 reasons2]; reflexivity.
Qed.

Lemma map_outcome_cases {A B} (f : A -> Outcome B) (throws : A -> bool)
    (g : A -> B) (e : Err) (l : list A) :
  (forall x, f x = if throws x then Thrown e else Returned (g x)) ->
  map_outcome f l = if existsb throws l then Thrown e else Returned (map g l).
Proof.
  intros Hf. induction l as [|x l IH]; [reflexivity|].
  cbn [map_outcome existsb map]. rewrite Hf, IH.
  destruct (throws x), (existsb throws l); reflexivity.
Qed.

(** Scoring throws when the callback throws on an entry of the snapshot
    outside the exclusion set, and else gives the sorted entries. *)
Lemma dataset_sorted_cases w explicitInterests department limit excludeIds books :
  dataset_sorted w explicitInterests department limit excludeIds books
  = if existsb (throws_on department)
         (filter (fun book => negb (JS.set_has excludeIds (lb_id book))) books)
    then Thrown TypeError
    else Returned
           (sorted_entries w explicitInterests department limit excludeIds books).
Proof.
  unfold dataset_sorted, sorted_entries.
  rewrite (map_outcome_cases _ (throws_on department)
             (scored_entry explicitInterests department) TypeError)
    by (intros x; apply score_book_cases).
  destruct (existsb _ _); reflexivity.
Qed.

Lemma bridge_items_cases w input user snapshot :
  (exists e, bridge_sorted w input user snapshot = Thrown e
             /\ bridge_items w input user snapshot = [])
  \/ (bridge_sorted w input user snapshot
      = Returned (sorted_entries w (user_explicitInterests user)
                    (user_affiliation user) (limit_of input)
                    (exclusion_set w input user) snapshot)
      /\ bridge_items w input user snapshot
         = map to_recommendation
             (sorted_entries w (user_explicitInterests user)
                (user_affiliation user) (limit_of input)
                (exclusion_set w input user) snapshot)).
Proof.
  unfold bridge_items, bridge_sorted. rewrite dataset_sorted_cases.
  destruct (existsb _ _); [left; eexists; split; reflexivity|right; split; reflexivity].
Qed.

(** ** Queries and candidate maps *)

Lemma take_opt_In {A} (n : option Z) (l : list A) (x : A) :
  In x (Prisma.take_opt n l) -> In x l.
Proof. destruct n; simpl; [apply take_In | auto]. Qed.

Lemma book_findMany_In table wh ord tk b :
  In b (Prisma.book_findMany table wh ord tk) ->
  In b table /\ Prisma.book_where wh b = true.
Proof.
  unfold Prisma.book_findMany, Prisma.order_books. intros H.
  apply take_opt_In in H.
  destruct ord; [apply stable_sort_In in H|]; now apply filter_In in H.
Qed.

Lemma str_in_In (x : string) (l : list string) :
  Prisma.str_in x l = true <-> In x l.
Proof. apply set_has_In. Qed.

(** A row of a query whose [where] has [id: { notIn: ids }] has its id
    outside [ids]. *)
Lemma book_where_notIn wh ids b :
  In (Prisma.IdNotIn ids) wh -> Prisma.book_where wh b = true -> ~ In (cand_id b) ids.
Proof.
  unfold Prisma.book_where. rewrite forallb_forall. intros Hin Hall Hc.
  specialize (Hall _ Hin). simpl in Hall.
  apply str_in_In in Hc. rewrite Hc in Hall. discriminate.
Qed.

Lemma book_where_available wh b :
  In (Prisma.AvailableCopiesGt 0) wh -> Prisma.book_where wh b = true ->
  0 < cand_availableCopies b.
Proof.
  unfold Prisma.book_where. rewrite forallb_forall. intros Hin Hall.
  specialize (Hall _ Hin). simpl in Hall. now apply Z.ltb_lt in Hall.
Qed.

Lemma candidate_where_notIn filters :
  In (Prisma.IdNotIn (f_excludeIds filters)) (candidate_where filters).
Proof. unfold candidate_where. simpl. auto. Qed.

(** [set_missing] only appends: bindings already present are untouched, and
    each new binding is a row under its own id, absent before. *)
Lemma set_missing_appends (rows : list RecommendationCandidate) (m : candidate_map) :
  exists extra,
    set_missing m rows = m ++ extra
    /\ forall k c, In (k, c) extra ->
         JS.map_has m k = false /\ In c rows /\ k = cand_id c.
Proof.
  unfold set_missing. revert m.
  induction rows as [|r rows IH]; intros m; simpl.
  - exists []. split; [now rewrite app_nil_r | intros k c []].
  - destruct (JS.map_has m (cand_id r)) eqn:Hhas; simpl.
    + destruct (IH m) as [extra [E Hx]]. exists extra. split; [exact E|].
      intros k c Hin. destruct (Hx k c Hin) as [? [? ?]]. auto.
    + rewrite map_set_absent by exact Hhas.
      destruct (IH (m ++ [(cand_id r, r)])) as [extra [E Hx]].
      exists ((cand_id r, r) :: extra). split.
      * rewrite E, <- app_assoc. reflexivity.
      * intros k c [Heq|Hin].
        -- inversion Heq; subst. auto.
        -- destruct (Hx k c Hin) as [Hn [? ?]].
           rewrite map_has_app in Hn. apply orb_false_iff in Hn. tauto.
Qed.

Lemma set_missing_values rows m c :
  In c (JS.map_values (set_missing m rows)) ->
  In c (JS.map_values m) \/ In c rows.
Proof.
  destruct (set_missing_appends rows m) as [extra [E Hx]]. rewrite E.
  unfold JS.map_values. rewrite map_app, in_app_iff.
  intros [H|H]; [now left|right].
  apply in_map_iff in H. destruct H as [[k c'] [<- Hin]].
  now destruct (Hx k c' Hin) as [_ [? _]].
Qed.

Lemma set_all_values rows m c :
  In c (JS.map_values (set_all m rows)) -> In c (JS.map_values m) \/ In c rows.
Proof.
  unfold set_all. revert m. induction rows as [|r rows IH]; intros m; simpl.
  - auto.
  - intros H. destruct (IH _ H) as [H'|H']; auto.
    destruct (map_set_values _ _ _ _ H') as [?| ->]; auto.
Qed.

Lemma map_get_map_set {V} (m : list (string * V)) (k k' : string) (v : V) :
  JS.map_get (JS.map_set m k v) k' =
  if String.eqb k' k then Some v else JS.map_get m k'.
Proof.
  induction m as [|[k0 v0] r IH]; simpl.
  - destruct (String.eqb k' k); reflexivity.
  - destruct (String.eqb k k0) eqn:E0; simpl.
    + apply String.eqb_eq in E0. subst k0.
      destruct (String.eqb k' k); reflexivity.
    + destruct (String.eqb k' k0) eqn:E1.
      * apply String.eqb_eq in E1. subst k0.
        rewrite String.eqb_sym in E0. now rewrite E0.
      * exact IH.
Qed.

(** The lookup table of [fetchBooksByIds] binds each id to a row of that id. *)
Lemma book_map_get rows (m : candidate_map) k c :
  (forall k c, JS.map_get m k = Some c -> cand_id c = k /\ In c rows) ->
  JS.map_get
    (fold_left (fun m book => JS.map_set m (cand_id book) book) rows m) k = Some c ->
  cand_id c = k /\ In c rows.
Proof.
  assert (G : forall rs (m : candidate_map) (P : RecommendationCandidate -> Prop),
             (forall k c, JS.map_get m k = Some c -> cand_id c = k /\ P c) ->
             (forall r, In r rs -> P r) ->
             forall k c,
               JS.map_get
                 (fold_left (fun m book => JS.map_set m (cand_id book) book) rs m) k
               = Some c ->
               cand_id c = k /\ P c).
  { induction rs as [|r rs IH]; intros m0 P Hm HP k0 c0; simpl.
    - apply Hm.
    - apply IH.
      + intros k1 c1. rewrite map_get_map_set.
        destruct (String.eqb k1 (cand_id r)) eqn:E.
        * intros [= <-]. apply String.eqb_eq in E. split; [now symmetry|].
          apply HP. now left.
        * apply Hm.
      + intros r' Hr'. apply HP. now right. }
  intros Hm. apply (G rows m (fun c => In c rows)); auto.
Qed.

Lemma fetchBooksByIds_post w bookIds s :
  post (fetchBooksByIds w bookIds) s
    (fun rows _ =>
       forall c, In c rows -> In (cand_id c) bookIds /\ In c (books w))
    (fun e _ => storage_fault w e).
Proof.
  unfold fetchBooksByIds. destruct (JS.len bookIds =? 0).
  - apply post_ret. intros c [].
  - apply post_bind, post_query; [apply storage_fault_intro|].
    intros _. apply post_ret. intros c Hc.
    apply in_flat_map in Hc. destruct Hc as [k [Hk Hc]].
    destruct (JS.map_get _ k) as [c'|] eqn:G; [|destruct Hc].
    destruct Hc as [<-|[]].
    apply book_map_get in G.
    + destruct G as [<- Hin]. split; [exact Hk|].
      now apply book_findMany_In in Hin.
    + intros k0 c0. discriminate.
Qed.

(** Candidates gathered by the fallback tiers stay outside the exclusion
    set when the incoming ones are. *)
Lemma broadenCandidates_excludes w limit excludeIds popularIdSet cm s :
  (forall c, In c (JS.map_values cm) -> ~ In (cand_id c) excludeIds) ->
  post (broadenCandidates w limit excludeIds popularIdSet cm) s
    (fun out _ =>
       forall c, In c (JS.map_values (fst out)) -> ~ In (cand_id c) excludeIds)
    (fun e _ => storage_fault w e).
Proof.
  intros Hcm. unfold broadenCandidates.
  destruct (JS.map_size cm <? limit); [|now apply post_ret].
  apply post_bind, post_query; [apply storage_fault_intro|]. intros _.
  assert (Hfb : forall c,
             In c (JS.map_values (set_missing cm (fallback_rows w excludeIds limit))) ->
             ~ In (cand_id c) excludeIds).
  { intros c Hc. apply set_missing_values in Hc. destruct Hc as [Hc|Hc]; auto.
    unfold fallback_rows in Hc.
    apply book_findMany_In in Hc. destruct Hc as [_ Hc].
    eapply book_where_notIn; [|exact Hc]. simpl; auto. }
  destruct (_ && _); [|now apply post_ret].
  apply post_bind.
  eapply post_weaken; [apply fetchBooksByIds_post| |auto].
  intros rows s' Hrows. apply post_ret. simpl.
  intros c Hc. apply set_missing_values in Hc. destruct Hc as [Hc|Hc]; auto.
  apply Hrows in Hc. destruct Hc as [Hc _].
  apply slice0_In in Hc. apply filter_In in Hc. destruct Hc as [_ Hc].
  apply andb_true_iff in Hc. destruct Hc as [_ Hc].
  apply negb_true_iff in Hc. now apply set_has_false in Hc.
Qed.

Lemma post_conj {A} (m : M A) s (Q1 Q2 : A -> St -> Prop) (E1 E2 : Err -> St -> Prop) :
  post m s Q1 E1 -> post m s Q2 E2 ->
  post m s (fun a s' => Q1 a s' /\ Q2 a s') (fun e s' => E1 e s' /\ E2 e s').
Proof.
  unfold post. destruct (m s) as [[a|e] s']; auto.
Qed.

Lemma fetchBooksByIds_effects w bookIds s :
  post (fetchBooksByIds w bookIds) s
    (fun _ s' =>
       reads s' = reads s
       /\ (trace s' = trace s \/ trace s' = trace s ++ [Query PopularTopUp]))
    (fun _ s' =>
       reads s' = reads s /\ trace s' = trace s ++ [Query PopularTopUp]).
Proof.
  unfold fetchBooksByIds. destruct (JS.len bookIds =? 0).
  - apply post_ret. auto.
  - apply post_bind, post_query; [now split|].
    intros _. apply post_ret. simpl. auto.
Qed.

Lemma broadenCandidates_effects w limit excludeIds popularIdSet cm s :
  post (broadenCandidates w limit excludeIds popularIdSet cm) s
    (fun out s' =>
       reads s' = reads s
       /\ (((JS.map_size cm <? limit) = false
            /\ out = (cm, false) /\ trace s' = trace s)
           \/ ((JS.map_size cm <? limit) = true
               /\ snd out = true
               /\ exists evs, trace s' = trace s ++ evs /\ fallback_events evs)))
    (fun _ s' =>
       reads s' = reads s
       /\ (JS.map_size cm <? limit) = true
       /\ exists evs, trace s' = trace s ++ evs /\ fallback_events evs).
Proof.
  unfold broadenCandidates, fallback_events.
  destruct (JS.map_size cm <? limit); [|apply post_ret; auto].
  apply post_bind, post_query.
  - intros _. simpl. repeat split. eauto.
  - intros _. destruct (_ && _).
    + apply post_bind.
      eapply post_weaken; [apply fetchBooksByIds_effects| |].
      * intros rows s' [Hr Ht]. apply post_ret. simpl in *.
        split; [exact Hr|]. right. repeat split.
        destruct Ht as [Ht|Ht]; rewrite Ht; [eauto|].
        rewrite <- app_assoc. simpl. eauto.
      * intros e s' [Hr Ht]. simpl in *. repeat split; [exact Hr|].
        rewrite Ht, <- app_assoc. simpl. eauto.
    + apply post_ret. simpl. split; [reflexivity|]. right. repeat split. eauto.
Qed.

(** The fallback block, when its queries are answered, leaves the map and
    the flag of [broadened]. *)
Lemma fetchBooksByIds_value w bookIds s :
  post (fetchBooksByIds w bookIds) s
    (fun rows _ => rows = books_by_ids w bookIds) (fun _ _ => True).
Proof.
  unfold fetchBooksByIds, books_by_ids.
  destruct (JS.len bookIds =? 0); [apply post_ret; reflexivity|].
  apply post_bind, post_query; [auto|]. intros _. apply post_ret. reflexivity.
Qed.

Lemma broadenCandidates_value w limit excludeIds popularIdSet cm s :
  post (broadenCandidates w limit excludeIds popularIdSet cm) s
    (fun out _ => out = broadened w limit excludeIds popularIdSet cm)
    (fun _ _ => True).
Proof.
  unfold broadenCandidates, broadened.
  destruct (JS.map_size cm <? limit); [|apply post_ret; reflexivity].
  apply post_bind, post_query; [auto|]. intros _.
  destruct ((JS.map_size _ <? limit) && negb (JS.len popularIdSet =? 0));
    [|apply post_ret; reflexivity].
  apply post_bind.
  eapply post_weaken; [apply fetchBooksByIds_value| |auto].
  intros rows s' ->. apply post_ret. reflexivity.
Qed.

(** ** The shape of a result *)

(** Every way a call ends.  A call that returns either found no user, or
    went through the opening queries, possibly the fallback block, the
    scored path, and, when that left no item, the dataset bridge, whose
    loading and scoring may throw.  A call that throws does so at a failing
    query site, before the bridge. *)
Lemma getPersonalizedRecommendations_shape w input :
  post (getPersonalizedRecommendations w input) initial
    (fun r s1 =>
       (Prisma.user_findUnique (users w) (in_userId input) = None
        /\ r = empty_result /\ trace s1 = [Query UserLookup])
       \/ exists user candidates fallbackUsed tier bridge,
            Prisma.user_findUnique (users w) (in_userId input) = Some user
            /\ (forall c, In c candidates ->
                  ~ In (cand_id c) (exclusion_set w input user))
            /\ trace s1 = opening_events ++ tier ++ bridge
            /\ (((JS.map_size (primary_map w input user) <? limit_of input) = false
                 /\ fallbackUsed = false /\ tier = []
                 /\ candidates = JS.map_values (primary_map w input user))
                \/ ((JS.map_size (primary_map w input user) <? limit_of input) = true
                    /\ fallbackUsed = true /\ fallback_events tier))
            /\ candidates = candidates_of w input user
            /\ let scored :=
                 scored_items (limit_of input) (context_of w user fallbackUsed)
                   (popular_set w (clock w 0%nat)) (clock w 1%nat) candidates in
               let context := context_of w user in
               (scored <> [] /\ bridge = []
                /\ r = {| res_items := scored; res_context := context fallbackUsed |})
               \/ (scored = []
                   /\ exists snapshot sorted,
                        dataset w = Some snapshot
                        /\ bridge_sorted w input user snapshot = Returned sorted
                        /\ bridge = [GetAllBooks]
                        /\ ((bridge_items w input user snapshot = []
                             /\ r = {| res_items := [];
                                       res_context := context fallbackUsed |})
                            \/ (bridge_items w input user snapshot <> []
                                /\ r = {| res_items := bridge_items w input user snapshot;
                                          res_context := context true |})))
               \/ (scored = [] /\ bridge_fails w input user
                   /\ bridge = [GetAllBooks; ConsoleError dataset_error_message]
                   /\ r = {| res_items := []; res_context := context fallbackUsed |}))
    (fun e s1 =>
       storage_fault w e
       /\ ~ In GetAllBooks (trace s1)
       /\ forall user,
            Prisma.user_findUnique (users w) (in_userId input) = Some user ->
            In (Query BroadFallback) (trace s1) ->
            (JS.map_size (primary_map w input user) <? limit_of input) = true).
Proof.
  assert (early : forall site evs,
             storage_fails w site = true ->
             ~ In GetAllBooks evs -> ~ In (Query BroadFallback) evs ->
             storage_fault w (StorageError site)
             /\ ~ In GetAllBooks evs
             /\ forall user,
                  Prisma.user_findUnique (users w) (in_userId input) = Some user ->
                  In (Query BroadFallback) evs ->
                  (JS.map_size (primary_map w input user) <? limit_of input) = true).
  { intros site evs Hf H1 H2. split; [now apply storage_fault_intro|].
    split; [exact H1|]. intros u Hu H. contradiction. }
  unfold getPersonalizedRecommendations.
  apply post_bind, post_query;
    [intros Hf; apply early; [exact Hf|simpl; intuition discriminate..]|].
  intros _.
  destruct (Prisma.user_findUnique (users w) (in_userId input)) as [user|] eqn:Hu;
    [|apply post_ret; left; now repeat split].
  apply post_bind, post_all_queries;
    [intros Hf; apply early; [exact Hf|simpl; intuition discriminate..]
    |intros _ Hf; apply early; [exact Hf|simpl; intuition discriminate..]
    |intros _ _].
  apply post_bind. unfold fetchPopularBookIds.
  apply post_bind, post_now, post_bind, post_query;
    [intros Hf; apply early; [exact Hf|simpl; intuition discriminate..]|].
  intros _. apply post_ret.
  apply post_bind. unfold fetchCandidateBooks.
  apply post_query;
    [intros Hf; apply early; [exact Hf|simpl; intuition discriminate..]|].
  intros _.
  fold (limit_of input). fold (exclusion_set w input user).
  fold (primary_map w input user). fold (popular_set w (clock w 0%nat)).
  apply post_bind.
  eapply post_weaken;
    [apply post_conj;
       [apply post_conj;
          [apply (broadenCandidates_excludes w _ (exclusion_set w input user))
          |apply broadenCandidates_effects]
       |apply broadenCandidates_value]| |].
  - intros c Hc. apply set_all_values in Hc. destruct Hc as [[]|Hc].
    apply book_findMany_In in Hc. destruct Hc as [_ Hc].
    eapply book_where_notIn; [|exact Hc].
    apply (candidate_where_notIn
             {| f_categories := _; f_department := _;
                f_excludeIds := exclusion_set w input user; f_limit := _ |}).
  - intros [cm fu] s' [[Hcm [Hreads Heff]] Hval]. simpl in Hcm, Hreads, Heff.
    assert (JS.map_values cm = candidates_of w input user) as Hpin.
    { apply (f_equal (fun out => JS.map_values (fst out))) in Hval. exact Hval. }
    apply post_bind. unfold enrichCandidates.
    apply post_bind, post_now, post_ret. rewrite Hreads.
    fold (context_of w user fu).
    match goal with
    | |- context [JS.slice0 ?l (JS.sort ?c (map ?f ?cs))] =>
        change (JS.slice0 l (JS.sort c (map f cs)))
          with (scored_items (limit_of input) (context_of w user fu)
                  (popular_set w (clock w 0%nat)) (clock w 1%nat)
                  (JS.map_values cm))
    end.
    set (items := scored_items _ _ _ _ _).
    assert (Htier : exists tier,
               trace s' = opening_events ++ tier
               /\ (((JS.map_size (primary_map w input user) <? limit_of input) = false
                    /\ fu = false /\ tier = []
                    /\ JS.map_values cm = JS.map_values (primary_map w input user))
                   \/ ((JS.map_size (primary_map w input user) <? limit_of input) = true
                       /\ fu = true /\ fallback_events tier))).
    { destruct Heff as [[Hlt [E Ht]]|[Hlt [E [evs [Ht Hev]]]]].
      - inversion E; subst. exists []. rewrite app_nil_r. split; [exact Ht|].
        left. auto.
      - exists evs. split; [exact Ht|]. right. auto. }
    destruct Htier as [tier [Ht Htier]].
    apply post_bind.
    destruct (JS.len items =? 0) eqn:Hlen.
    + apply post_bind. unfold post at 1.
      rewrite buildDatasetFallback_eval.
      apply len_zero in Hlen.
      destruct (dataset w) as [snapshot|] eqn:Hd.
      * fold (bridge_sorted w input user snapshot).
        destruct (bridge_sorted w input user snapshot) as [sorted|e] eqn:Hsorted.
        -- assert (bridge_items w input user snapshot = map to_recommendation sorted)
             as Hbi by (unfold bridge_items; now rewrite Hsorted).
           rewrite <- Hbi.
           destruct (negb (JS.len (bridge_items w input user snapshot) =? 0)) eqn:Hb;
             apply post_ret, post_ret; right;
             exists user, (JS.map_values cm), fu, tier, [GetAllBooks];
             (split; [reflexivity|]); (split; [exact Hcm|]);
             (split; [simpl; rewrite Ht, <- app_assoc; reflexivity|]);
             (split; [destruct Htier as [[? [? [? ?]]]|?]; [left|right]; auto|]);
             (split; [exact Hpin|]);
             right; left; (split; [exact Hlen|]);
             exists snapshot, sorted; (split; [reflexivity|]);
             (split; [exact Hsorted|]); (split; [reflexivity|]).
           ++ right. split; [|reflexivity].
              intros E. apply len_zero in E. rewrite E in Hb. discriminate.
           ++ left. apply negb_false_iff, len_zero in Hb. rewrite Hlen. now split.
        -- apply post_ret, post_ret. right.
           exists user, (JS.map_values cm), fu, tier,
             [GetAllBooks; ConsoleError dataset_error_message].
           split; [reflexivity|]. split; [exact Hcm|].
           split; [simpl; rewrite Ht, <- !app_assoc; reflexivity|].
           split; [destruct Htier as [[? [? [? ?]]]|?]; [left|right]; auto|].
           split; [exact Hpin|].
           right; right. split; [exact Hlen|].
           split; [right; exists snapshot, e; split; [exact Hd|exact Hsorted]|].
           rewrite Hlen. auto.
      * apply post_ret, post_ret. right.
        exists user, (JS.map_values cm), fu, tier,
          [GetAllBooks; ConsoleError dataset_error_message].
        split; [reflexivity|]. split; [exact Hcm|].
        split; [simpl; rewrite Ht, <- !app_assoc; reflexivity|].
        split; [destruct Htier as [[? [? [? ?]]]|?]; [left|right]; auto|].
        split; [exact Hpin|].
        right; right. split; [exact Hlen|].
        split; [left; exact Hd|]. rewrite Hlen. auto.
    + apply post_ret, post_ret. right.
      exists user, (JS.map_values cm), fu, tier, [].
      split; [reflexivity|]. split; [exact Hcm|].
      split; [simpl; rewrite Ht, app_nil_r; reflexivity|].
      split; [destruct Htier as [[? [? [? ?]]]|?]; [left|right]; auto|].
      split; [exact Hpin|].
      left. split; [|auto].
      intros E. unfold items in Hlen. rewrite E in Hlen. discriminate.
  - intros e s' [[Hfault [_ [Hlt [evs [Ht Hev]]]]] _]. simpl in Ht.
    split; [exact Hfault|]. rewrite Ht.
    split.
    + destruct Hev as [-> | ->]; simpl; intuition discriminate.
    + intros u Hu' _. inversion Hu'; subst. exact Hlt.
Qed.

(** ** Scoring *)

(** The score and the reasons of a candidate, from its signals. *)
Lemma enrichCandidate_signals context popularIds derivedCategorySet nowDate candidate :
  let g := signals_of context popularIds derivedCategorySet nowDate candidate in
  let r := enrichCandidate context popularIds derivedCategorySet nowDate candidate in
  rec_score r = (if signal_sum g =? 0 then 1 else signal_sum g)
  /\ rec_reasons r =
       (if signal_sum g =? 0 then [reason_baseline]
        else signal_reasons g (cand_category candidate)).
Proof.
  unfold enrichCandidate, signals_of, signal_sum, signal_reasons, signal.
  simpl.
  destruct (array_includes _ _), (JS.set_has derivedCategorySet _),
    (department_matches _ _), (is_new_arrival _ _), (JS.set_has popularIds _);
    split; reflexivity.
Qed.

Lemma signal_reasons_NoDup g category : NoDup (signal_reasons g category).
Proof.
  destruct g as [[] [] [] [] []]; unfold signal_reasons; simpl;
    repeat (constructor; [simpl; intuition discriminate|]); constructor.
Qed.

Lemma signal_reasons_length g category :
  JS.len (signal_reasons g category) =
  delta (sig_interest g) 1 + delta (sig_derived g) 1 + delta (sig_department g) 1
  + delta (sig_new g) 1 + delta (sig_popular g) 1.
Proof. destruct g as [[] [] [] [] []]; reflexivity. Qed.

Lemma signal_sum_nonneg g : 0 <= signal_sum g.
Proof. destruct g as [[] [] [] [] []]; unfold signal_sum; simpl; lia. Qed.

Lemma signal_reasons_nonempty g category :
  signal_sum g <> 0 -> signal_reasons g category <> [].
Proof.
  destruct g as [[] [] [] [] []]; unfold signal_sum, signal_reasons; simpl;
    intros H; try discriminate. now contradiction H.
Qed.

Lemma enrichCandidate_well_formed context popularIds derivedCategorySet nowDate c :
  well_formed (enrichCandidate context popularIds derivedCategorySet nowDate c).
Proof.
  destruct (enrichCandidate_signals context popularIds derivedCategorySet nowDate c)
    as [Hs Hr].
  unfold well_formed. rewrite Hs, Hr.
  set (g := signals_of _ _ _ _ _).
  pose proof (signal_sum_nonneg g) as Hn.
  destruct (signal_sum g =? 0) eqn:E.
  - split; [lia|]. split; [discriminate|]. repeat constructor. simpl. tauto.
  - apply Z.eqb_neq in E. split; [lia|].
    split; [now apply signal_reasons_nonempty | apply signal_reasons_NoDup].
Qed.

Lemma signal_invariant fires d reason acc :
  0 < d -> 1 <= fst acc -> NoDup (snd acc) ->
  1 <= fst (signal fires d reason acc) /\ NoDup (snd (signal fires d reason acc)).
Proof.
  intros Hd Hs Hn. unfold signal. destruct fires; simpl; [|auto].
  split; [lia | now apply set_add_NoDup].
Qed.

Lemma match_tokens_invariant searchable explicitInterests tokens index acc :
  1 <= fst (fst acc) -> NoDup (snd (fst acc)) ->
  let out := match_tokens searchable explicitInterests tokens index acc in
  1 <= fst (fst out) /\ NoDup (snd (fst out)).
Proof.
  revert index acc. induction tokens as [|token rest IH]; intros index acc Hs Hn.
  - simpl. auto.
  - simpl. destruct acc as [[score reasons] matched]. simpl in Hs, Hn.
    destruct (JS.includes searchable token).
    + apply IH; simpl; [lia | now apply set_add_NoDup].
    + apply IH; simpl; auto.
Qed.

Lemma match_tokens_none searchable explicitInterests tokens index acc :
  (forall token, In token tokens -> JS.includes searchable token = false) ->
  match_tokens searchable explicitInterests tokens index acc = acc.
Proof.
  revert index acc. induction tokens as [|token rest IH]; intros index acc H.
  - reflexivity.
  - simpl. destruct acc as [[score reasons] matched].
    rewrite (H token) by (now left). apply IH. intros t Ht. apply H. now right.
Qed.

Lemma scored_entry_invariant explicitInterests department book :
  1 <= sb_score (scored_entry explicitInterests department book)
  /\ NoDup (sb_reasons (scored_entry explicitInterests department book)).
Proof.
  unfold scored_entry.
  set (searchable := JS.toLowerCase _).
  pose proof (match_tokens_invariant searchable explicitInterests
                (interest_tokens explicitInterests) 0%nat (1, [], None)) as H.
  simpl in H. specialize (H ltac:(lia) (NoDup_nil _)).
  destruct (match_tokens _ _ _ _ _) as [[score reasons] matched].
  simpl in H. destruct H as [Hs Hn].
  destruct (signal_invariant
              (same_department department book)
              2 reason_department (score, reasons) ltac:(lia) Hs Hn) as [Hs1 Hn1].
  destruct (signal _ 2 _ _) as [score1 reasons1].
  destruct (signal_invariant (5 <=? lb_copies book) 1 reason_catalog_popular
              (score1, reasons1) ltac:(lia) Hs1 Hn1) as [Hs2 Hn2].
  destruct (signal _ 1 _ _) as [score2 reasons2]. simpl in *. auto.
Qed.

Lemma to_recommendation_well_formed explicitInterests department book :
  well_formed (to_recommendation (scored_entry explicitInterests department book)).
Proof.
  destruct (scored_entry_invariant explicitInterests department book) as [Hs Hn].
  unfold well_formed, to_recommendation. simpl.
  split; [exact Hs|].
  destruct (JS.len _ =? 0) eqn:E; simpl.
  - split; [discriminate|]. repeat constructor. simpl. tauto.
  - split; [|exact Hn]. intros E'. rewrite E' in E. discriminate.
Qed.

(** Every entry of the bridge is the scoring of a snapshot book that is not
    excluded. *)
Lemma sorted_entries_In w explicitInterests department limit excludeIds books s :
  In s (sorted_entries w explicitInterests department limit excludeIds books) ->
  exists book,
    In book books /\ ~ In (lb_id book) excludeIds
    /\ s = scored_entry explicitInterests department book.
Proof.
  unfold sorted_entries, JS.sort. intros H.
  apply slice0_In, stable_sort_In, in_map_iff in H.
  destruct H as [book [<- H]]. apply filter_In in H. destruct H as [Hin Hex].
  apply negb_true_iff, set_has_false in Hex. eauto.
Qed.

(** When scoring returns, the callback threw on no entry outside the
    exclusion set. *)
Lemma dataset_sorted_returned w explicitInterests department limit excludeIds books
    sorted :
  dataset_sorted w explicitInterests department limit excludeIds books
  = Returned sorted ->
  sorted = sorted_entries w explicitInterests department limit excludeIds books
  /\ forall book,
       In book books -> ~ In (lb_id book) excludeIds ->
       throws_on department book = false.
Proof.
  rewrite dataset_sorted_cases.
  destruct (existsb _ _) eqn:E; [discriminate|]. intros [= <-].
  split; [reflexivity|]. intros book Hin Hex.
  destruct (throws_on department book) eqn:T; [|reflexivity].
  assert (existsb (throws_on department)
            (filter (fun book => negb (JS.set_has excludeIds (lb_id book))) books)
          = true) as Hx; [|congruence].
  apply existsb_exists. exists book. split; [|exact T].
  apply filter_In. split; [exact Hin|].
  apply negb_true_iff, set_has_false, Hex.
Qed.

(** Scoring throws only a [TypeError], and then on an entry outside the
    exclusion set whose department is not a string, for a user who has a
    department. *)
Lemma dataset_sorted_thrown w explicitInterests department limit excludeIds books e :
  dataset_sorted w explicitInterests department limit excludeIds books = Thrown e ->
  e = TypeError
  /\ exists book,
       In book books /\ ~ In (lb_id book) excludeIds
       /\ throws_on department book = true.
Proof.
  rewrite dataset_sorted_cases.
  destruct (existsb _ _) eqn:E; [|discriminate]. intros [= <-].
  split; [reflexivity|]. apply existsb_exists in E. destruct E as (book & Hin & T).
  apply filter_In in Hin. destruct Hin as [Hin Hex].
  apply negb_true_iff, set_has_false in Hex. eauto.
Qed.

Lemma scored_items_In limit context popularIdSet nowDate candidates r :
  In r (scored_items limit context popularIdSet nowDate candidates) ->
  exists c,
    In c candidates
    /\ r = enrichCandidate context popularIdSet
             (JS.set_from (ctx_derivedCategories context)) nowDate c.
Proof.
  unfold scored_items, JS.sort. intros H.
  apply slice0_In, stable_sort_In, in_map_iff in H.
  destruct H as [c [<- H]]. eauto.
Qed.

Lemma bridge_items_In w input user snapshot r :
  In r (bridge_items w input user snapshot) ->
  exists book,
    In book snapshot /\ ~ In (lb_id book) (exclusion_set w input user)
    /\ r = to_recommendation
             (scored_entry (user_explicitInterests user) (user_affiliation user) book).
Proof.
  destruct (bridge_items_cases w input user snapshot) as [(e & _ & ->)|[_ ->]];
    [intros []|].
  intros H. apply in_map_iff in H.
  destruct H as [s [<- H]]. apply sorted_entries_In in H.
  destruct H as [book [? [? ->]]]. eauto.
Qed.

Lemma sorted_entries_length w explicitInterests department limit excludeIds books :
  0 <= limit ->
  JS.len (sorted_entries w explicitInterests department limit excludeIds books)
  <= limit.
Proof. intros H. unfold sorted_entries. now apply slice0_length. Qed.

Lemma bridge_items_within w input user snapshot :
  0 <= limit_of input ->
  JS.len (bridge_items w input user snapshot) <= limit_of input.
Proof.
  intros H.
  destruct (bridge_items_cases w input user snapshot) as [(e & _ & ->)|[_ ->]];
    [exact H|].
  unfold JS.len. rewrite length_map. now apply sorted_entries_length.
Qed.

(** The bridge always returns, and each of its items is made of a snapshot
    entry outside the exclusion set, on which scoring returned. *)
Lemma buildDatasetFallback_items w explicitInterests department limit excludeIds s :
  post (buildDatasetFallback w explicitInterests department limit excludeIds) s
    (fun items _ =>
       forall r, In r items ->
         exists snapshot book,
           dataset w = Some snapshot /\ In book snapshot
           /\ ~ In (lb_id book) excludeIds
           /\ score_book explicitInterests department book
              = Returned (scored_entry explicitInterests department book)
           /\ r = to_recommendation (scored_entry explicitInterests department book))
    (fun _ _ => False).
Proof.
  unfold post. rewrite buildDatasetFallback_eval.
  destruct (dataset w) as [snapshot|]; [|intros r []].
  destruct (dataset_sorted _ _ _ _ _ snapshot) as [sorted|e] eqn:E; [|intros r []].
  apply dataset_sorted_returned in E. destruct E as [-> Hreturns].
  intros r Hr. apply in_map_iff in Hr. destruct Hr as [sb [<- Hsb]].
  apply sorted_entries_In in Hsb. destruct Hsb as [book [Hin [Hex ->]]].
  exists snapshot, book. split; [reflexivity|]. split; [exact Hin|].
  split; [exact Hex|]. split; [|reflexivity].
  rewrite score_book_cases, (Hreturns book Hin Hex). reflexivity.
Qed.

(** * The claims *)

(** C1.  A call returns at most [limit] items, where [limit] is the supplied
    limit, or 6 when none is supplied, and is not negative (the interface
    asks for a limit of at least 1).  This holds for the list of the scored
    path and for the list of the dataset bridge; a call that does not return
    failed at a query site of the store. *)
Theorem items_within_limit (w : World) (input : RecommendationInput) :
  0 <= default (in_limit input) 6 ->
  post (getPersonalizedRecommendations w input) initial
    (fun r _ => JS.len (res_items r) <= default (in_limit input) 6)
    (fun e _ => storage_fault w e)
  /\ forall explicitInterests department excludeIds s,
       post (buildDatasetFallback w explicitInterests department
               (default (in_limit input) 6) excludeIds) s
         (fun items _ => JS.len items <= default (in_limit input) 6)
         (fun _ _ => False).
Proof.
  intros Hlimit. fold (limit_of input) in *. split.
  - eapply post_weaken;
      [apply getPersonalizedRecommendations_shape| |intros e s1 [H _]; exact H].
    intros r s1 [[_ [-> _]]|[user [cs [fu [tier [bridge [_ [_ [_ [_ [_ H]]]]]]]]]]].
    + exact Hlimit.
    + cbv zeta in H.
      destruct H
        as [[_ [_ ->]]
           |[[_ [snapshot [sorted [_ [_ [_ [[_ ->]|[_ ->]]]]]]]]|[_ [_ [_ ->]]]]];
        cbn [res_items]; try exact Hlimit.
      * now apply slice0_length.
      * now apply bridge_items_within.
  - intros explicitInterests department excludeIds s. unfold post.
    rewrite buildDatasetFallback_eval. destruct (dataset w) as [snapshot|].
    + destruct (dataset_sorted _ _ _ _ _ snapshot) as [sorted|e] eqn:E;
        [|exact Hlimit].
      apply dataset_sorted_returned in E. destruct E as [-> _].
      unfold JS.len. rewrite length_map. now apply sorted_entries_length.
    + exact Hlimit.
Qed.

Lemma items_within_limit_witness :
  0 <= default (in_limit Campus.request) 6
  /\ post (getPersonalizedRecommendations Campus.world Campus.request) initial
       (fun r _ => JS.len (res_items r) <= default (in_limit Campus.request) 6)
       (fun e _ => storage_fault Campus.world e).
Proof.
  assert (H : 0 <= default (in_limit Campus.request) 6) by (simpl; lia).
  split; [exact H|].
  exact (proj1 (items_within_limit Campus.world Campus.request H)).
Defined.

(** C6.  When the lookup of the user answers that there is none, the call
    returns, and returns exactly the empty result with an empty context
    whose [fallbackUsed] is [true]; the lookup is the only collaborator call
    of the whole invocation, so neither a retrieval tier nor the dataset
    bridge runs, whatever the rest of the store and the snapshot hold. *)
Theorem unknown_user_empty_result (w : World) (input : RecommendationInput) :
  storage_fails w UserLookup = false ->
  Prisma.user_findUnique (users w) (in_userId input) = None ->
  getPersonalizedRecommendations w input initial =
  (Returned
     {| res_items := [];
        res_context :=
          {| ctx_explicitInterests := [];
             ctx_derivedCategories := [];
             ctx_department := None;
             ctx_fallbackUsed := true |} |},
   {| trace := [Query UserLookup]; reads := 0 |}).
Proof.
  intros Hup Hnone.
  unfold getPersonalizedRecommendations, bind, query.
  rewrite Hup, Hnone. reflexivity.
Qed.

Lemma unknown_user_empty_result_witness :
  storage_fails Campus.world UserLookup = false
  /\ Prisma.user_findUnique (users Campus.world) (in_userId Campus.stranger_request)
     = None
  /\ getPersonalizedRecommendations Campus.world Campus.stranger_request initial =
     (Returned
        {| res_items := [];
           res_context :=
             {| ctx_explicitInterests := [];
                ctx_derivedCategories := [];
                ctx_department := None;
                ctx_fallbackUsed := true |} |},
      {| trace := [Query UserLookup]; reads := 0 |}).
Proof.
  split; [reflexivity|]. split; [reflexivity|].
  apply (unknown_user_empty_result Campus.world Campus.stranger_request);
    reflexivity.
Defined.

(** C10.  Every recommendation of the dataset bridge comes from a snapshot
    entry; it is never a new arrival, it is popular exactly when the entry
    has at least 5 copies, its available copies are [max(copies, 1)], and
    its id is the entry's id behind the prefix [dataset-].  The bridge
    always returns. *)
Theorem bridge_item_fields (w : World) (explicitInterests : list string)
    (department : option string) (limit : Z) (excludeIds : list string) (s : St) :
  post (buildDatasetFallback w explicitInterests department limit excludeIds) s
    (fun items _ =>
       forall r, In r items ->
         exists snapshot book,
           dataset w = Some snapshot /\ In book snapshot
           /\ rec_isNewArrival r = false
           /\ (rec_isPopular r = true <-> 5 <= lb_copies book)
           /\ rec_availableCopies r = Z.max (lb_copies book) 1
           /\ rec_id r = String.append "dataset-" (lb_id book))
    (fun _ _ => False).
Proof.
  eapply post_weaken; [apply buildDatasetFallback_items| |intros e s' []].
  intros items s' Hitems r Hr.
  destruct (Hitems r Hr) as (snapshot & book & Hd & Hin & _ & _ & ->).
  exists snapshot, book. split; [exact Hd|]. split; [exact Hin|].
  unfold scored_entry.
  destruct (match_tokens _ _ _ _ _) as [[score reasons] matched].
  destruct (signal _ 2 _ _) as [score1 reasons1].
  destruct (signal _ 1 _ _) as [score2 reasons2]. simpl.
  split; [reflexivity|]. split; [apply Z.leb_le|]. split; reflexivity.
Qed.

(** C3.  Every recommendation a call returns, from the scored path or from
    the dataset bridge, has a score of at least 1 and a non-empty list of
    reasons without duplicates.  A candidate of the scored path on which no
    signal fires gets score 1 and the single baseline reason; an entry of
    the bridge on which no signal fires has score 1 and the single reason
    that stands for an empty list. *)
Theorem recommendations_well_formed (w : World) (input : RecommendationInput) :
  post (getPersonalizedRecommendations w input) initial
    (fun r _ =>
       forall item, In item (res_items r) ->
         1 <= rec_score item /\ rec_reasons item <> [] /\ NoDup (rec_reasons item))
    (fun e _ => storage_fault w e)
  /\ (forall explicitInterests department limit excludeIds s,
        post (buildDatasetFallback w explicitInterests department limit excludeIds) s
          (fun items _ =>
             forall item, In item items ->
               1 <= rec_score item /\ rec_reasons item <> []
               /\ NoDup (rec_reasons item))
          (fun _ _ => False))
  /\ (forall context popularIds derivedCategorySet nowDate candidate,
        signals_of context popularIds derivedCategorySet nowDate candidate
        = no_signal ->
        let item :=
          enrichCandidate context popularIds derivedCategorySet nowDate candidate in
        rec_score item = 1 /\ rec_reasons item = [reason_baseline])
  /\ (forall explicitInterests department book,
        (forall token, In token (interest_tokens explicitInterests) ->
           JS.includes
             (JS.toLowerCase
                (String.append (lb_title book) (String.append " " (lb_author book))))
             token = false) ->
        dataset_department_matches department (lb_department book)
        = Returned false ->
        lb_copies book < 5 ->
        exists entry,
          score_book explicitInterests department book = Returned entry
          /\ let item := to_recommendation entry in
             rec_score item = 1 /\ rec_reasons item = [reason_featured]).
Proof.
  split; [|split; [|split]].
  - eapply post_weaken;
      [apply getPersonalizedRecommendations_shape| |intros e s1 [H _]; exact H].
    intros r s1 [[_ [-> _]]|[user [cs [fu [tier [bridge [_ [_ [_ [_ [_ H]]]]]]]]]]].
    + intros item [].
    + cbv zeta in H.
      destruct H
        as [[_ [_ ->]]
           |[[_ [snapshot [sorted [_ [_ [_ [[_ ->]|[_ ->]]]]]]]]|[_ [_ [_ ->]]]]];
        cbn [res_items]; intros item Hitem; try destruct Hitem.
      * apply scored_items_In in Hitem. destruct Hitem as [c [_ ->]].
        apply enrichCandidate_well_formed.
      * apply bridge_items_In in Hitem. destruct Hitem as [book [_ [_ ->]]].
        apply to_recommendation_well_formed.
  - intros explicitInterests department limit excludeIds s.
    eapply post_weaken; [apply buildDatasetFallback_items| |intros e s' []].
    intros items s' Hitems item Hitem.
    destruct (Hitems item Hitem) as (snapshot & book & _ & _ & _ & _ & ->).
    apply to_recommendation_well_formed.
  - intros context popularIds derivedCategorySet nowDate candidate Hsum item.
    destruct (enrichCandidate_signals context popularIds derivedCategorySet
                nowDate candidate) as [Hs Hr].
    subst item. rewrite Hs, Hr, Hsum. split; reflexivity.
  - intros explicitInterests department book Htokens Hdep Hcopies.
    unfold score_book.
    rewrite match_tokens_none by exact Htokens.
    rewrite Hdep. apply Z.leb_gt in Hcopies. rewrite Hcopies.
    eexists. split; [reflexivity|]. split; reflexivity.
Qed.

(** ** The exclusion set *)

Lemma truthy_true (x : string) : JS.truthy x = true <-> x <> "".
Proof.
  unfold JS.truthy. rewrite negb_true_iff. apply String.eqb_neq.
Qed.

Lemma buildExcludeSet_In (input : RecommendationInput) (rows : list string) (x : string) :
  In x (buildExcludeSet input rows) <->
  In x (default (in_excludeBookIds input) []) \/ (x <> "" /\ In x rows).
Proof.
  unfold buildExcludeSet.
  rewrite <- (set_from_In (default (in_excludeBookIds input) [])).
  generalize (JS.set_from (default (in_excludeBookIds input) [])) as base.
  induction rows as [|r rows IH]; intros base; simpl.
  - tauto.
  - rewrite IH. destruct (JS.truthy r) eqn:T.
    + apply truthy_true in T. rewrite set_add_In. split.
      * intros [[H| ->]|[Hx H]]; auto.
      * intros [H|[Hx [->|H]]]; auto.
    + assert (r = "") as ->.
      { apply negb_false_iff in T. now apply String.eqb_eq in T. }
      split.
      * intros [H|[Hx H]]; auto.
      * intros [H|[Hx [<-|H]]]; auto. now contradiction Hx.
Qed.

Lemma active_rows_In (w : World) (user : User) (x : string) :
  In x (active_rows w user) <->
  exists b, In b (borrowings w)
            /\ bor_userId b = user_id user
            /\ In (bor_status b) active_statuses
            /\ bor_bookId b = x.
Proof.
  unfold active_rows, Prisma.borrowing_findMany. simpl.
  rewrite in_map_iff. split.
  - intros [b [<- Hb]]. apply filter_In in Hb. destruct Hb as [Hin Hw].
    unfold Prisma.borrowing_where in Hw. simpl in Hw.
    apply andb_true_iff in Hw. destruct Hw as [Hu Hs].
    apply String.eqb_eq in Hu.
    exists b. repeat split; auto.
    destruct (bor_status b); simpl in Hs; try discriminate; simpl; auto.
  - intros [b [Hin [Hu [Hs <-]]]]. exists b. split; [reflexivity|].
    apply filter_In. split; [exact Hin|].
    unfold Prisma.borrowing_where. simpl.
    rewrite Hu, String.eqb_refl. simpl.
    destruct (bor_status b); simpl in Hs; try reflexivity.
    intuition discriminate.
Qed.

Lemma user_findUnique_id (table : list User) (id : string) (user : User) :
  Prisma.user_findUnique table id = Some user -> user_id user = id.
Proof.
  unfold Prisma.user_findUnique. intros H. apply find_some in H.
  destruct H as [_ H]. now apply String.eqb_eq in H.
Qed.

Lemma exclusion_set_excluded (w : World) (input : RecommendationInput)
    (user : User) (x : string) :
  Prisma.user_findUnique (users w) (in_userId input) = Some user ->
  In x (exclusion_set w input user) <-> excluded w input x.
Proof.
  intros Hu. apply user_findUnique_id in Hu.
  unfold exclusion_set, excluded.
  rewrite buildExcludeSet_In, active_rows_In, Hu. reflexivity.
Qed.

Lemma opening_tier_no_bridge (tier : list Event) :
  tier = [] \/ fallback_events tier ->
  ~ In GetAllBooks (opening_events ++ tier ++ []).
Proof.
  intros [->|[->| ->]]; simpl; intuition discriminate.
Qed.

(** C2, as the code has it.  No item that the scored path returns (primary
    tier, broad fallback, popularity top-up) has an id that the caller
    excluded or that is the non-empty book id of a BORROWED, OVERDUE or
    RENEWED borrowing of the user.  An item that the dataset bridge returns
    has the id [dataset-] followed by the id of a snapshot entry, and it is
    that raw id which is outside the exclusion set. *)
Theorem exclusion_respected (w : World) (input : RecommendationInput) :
  post (getPersonalizedRecommendations w input) initial
    (fun r s1 =>
       (~ In GetAllBooks (trace s1) ->
        forall item, In item (res_items r) -> ~ excluded w input (rec_id item))
       /\ (In GetAllBooks (trace s1) ->
           forall item, In item (res_items r) ->
             exists snapshot book,
               dataset w = Some snapshot /\ In book snapshot
               /\ rec_id item = String.append "dataset-" (lb_id book)
               /\ ~ excluded w input (lb_id book)))
    (fun e _ => storage_fault w e).
Proof.
  eapply post_weaken;
    [apply getPersonalizedRecommendations_shape| |intros e s1 [H _]; exact H].
  intros r s1
    [[_ [-> _]]|[user [cs [fu [tier [bridge [Hu [Hcs [Ht [Htier [_ H]]]]]]]]]]].
  - split; intros _ item [].
  - cbv zeta in H.
    assert (Hnb : ~ In GetAllBooks (opening_events ++ tier ++ [])).
    { apply opening_tier_no_bridge. destruct Htier as [[_ [_ [-> _]]]|[_ [_ ?]]]; auto. }
    destruct H
      as [[_ [-> ->]]
         |[[_ [snapshot [sorted [Hd [_ [-> [[_ ->]|[_ ->]]]]]]]]|[_ [_ [-> ->]]]]];
      cbn [res_items]; rewrite Ht.
    + split; [intros _ item Hitem|intros Hb; contradiction].
      apply scored_items_In in Hitem. destruct Hitem as [c [Hc ->]]. simpl.
      rewrite <- (exclusion_set_excluded w input user) by exact Hu. now apply Hcs.
    + split; intros _ item [].
    + split.
      * intros Hb. contradiction Hb.
        rewrite !in_app_iff. right. right. now left.
      * intros _ item Hitem. apply bridge_items_In in Hitem.
        destruct Hitem as [book [Hin [Hex ->]]].
        exists snapshot, book. split; [exact Hd|]. split; [exact Hin|].
        split.
        -- unfold scored_entry.
           destruct (match_tokens _ _ _ _ _) as [[score reasons] matched].
           destruct (signal _ 2 _ _) as [score1 reasons1].
           destruct (signal _ 1 _ _) as [score2 reasons2]. reflexivity.
        -- now rewrite <- (exclusion_set_excluded w input user) by exact Hu.
    + split; intros _ item [].
Qed.

(** C2, as the specification states it, fails: with an empty store the
    bridge recommends the snapshot entry [book-1] under the id
    [dataset-book-1], which the caller had excluded. *)
Lemma exclusion_counterexample :
  ~ post (getPersonalizedRecommendations Campus.bare_world Campus.repeat_request)
      initial
      (fun r _ =>
         forall item, In item (res_items r) ->
           ~ excluded Campus.bare_world Campus.repeat_request (rec_id item))
      (fun _ _ => True).
Proof.
  unfold post.
  destruct (getPersonalizedRecommendations Campus.bare_world Campus.repeat_request
              initial) as [[r|e] s1] eqn:E;
    vm_compute in E; inversion E; subst; clear E.
  intros H. eapply H; [left; reflexivity|].
  left. simpl. now left.
Qed.

(** ** Ranking *)

Lemma by_score_then_copies_le (a b : PersonalizedRecommendation) :
  by_score_then_copies a b <= 0 <-> ranks_before a b.
Proof.
  unfold by_score_then_copies, ranks_before.
  destruct (rec_score b =? rec_score a) eqn:E; simpl.
  - apply Z.eqb_eq in E. lia.
  - apply Z.eqb_neq in E. lia.
Qed.

Lemma StronglySorted_ext {A} (R R' : A -> A -> Prop) (l : list A) :
  (forall a b, R a b -> R' a b) -> StronglySorted R l -> StronglySorted R' l.
Proof.
  intros HR. induction 1 as [|x l Hs IH Hall]; constructor; [exact IH|].
  rewrite Forall_forall in *. auto.
Qed.

Lemma StronglySorted_firstn {A} (R : A -> A -> Prop) (n : nat) (l : list A) :
  StronglySorted R l -> StronglySorted R (firstn n l).
Proof.
  intros H. revert n. induction H as [|x l Hs IH Hall]; intros [|n]; simpl;
    try constructor.
  - apply IH.
  - rewrite Forall_forall in *. intros y Hy. apply Hall.
    rewrite <- (firstn_skipn n l). apply in_or_app. now left.
Qed.

Lemma StronglySorted_slice0 {A} (R : A -> A -> Prop) (n : Z) (l : list A) :
  StronglySorted R l -> StronglySorted R (JS.slice0 n l).
Proof. unfold JS.slice0. destruct (0 <=? n); apply StronglySorted_firstn. Qed.

(** The sort of the scored path orders by [ranks_before], permutes its
    input, and leaves exact ties in their incoming order. *)
Lemma sort_by_score_then_copies (enriched : list PersonalizedRecommendation) :
  let sorted := JS.sort by_score_then_copies enriched in
  Permutation enriched sorted
  /\ StronglySorted ranks_before sorted
  /\ forall score copies,
       filter (tied score copies) sorted = filter (tied score copies) enriched.
Proof.
  unfold JS.sort. split; [|split].
  - symmetry. apply stable_sort_perm.
  - eapply StronglySorted_ext; [intros a b; apply by_score_then_copies_le|].
    apply stable_sort_sorted.
    + intros x y z. rewrite !by_score_then_copies_le. unfold ranks_before. lia.
    + intros x y H. rewrite by_score_then_copies_le.
      assert (~ by_score_then_copies x y <= 0) as N by lia.
      rewrite by_score_then_copies_le in N. unfold ranks_before in *. lia.
  - intros score copies. apply stable_sort_stable.
    intros x y Hx Hy. unfold tied in *.
    apply andb_true_iff in Hx, Hy. rewrite !Z.eqb_eq in Hx, Hy.
    apply by_score_then_copies_le. unfold ranks_before. lia.
Qed.

(** C5.  When the items of a result are those of the scored path, they are
    the first [limit] elements (6 when no limit is supplied) of the
    enriched candidates sorted by score descending and, among equal scores,
    by available copies descending; candidates that tie on both keep the
    order in which they were retrieved into the candidate map.  The
    candidates are those of [candidates_of]: the rows of the primary query
    and, when these are fewer than [limit], the rows of the broad query and
    then the popular books that the map lacks, each in the order of its
    query; the context used is that of the call, with [fallbackUsed] set
    exactly when the primary rows were fewer than [limit]. *)
Theorem scored_path_order (w : World) (input : RecommendationInput) :
  post (getPersonalizedRecommendations w input) initial
    (fun r s1 =>
       ~ In GetAllBooks (trace s1) ->
       forall user,
         Prisma.user_findUnique (users w) (in_userId input) = Some user ->
         let fallbackUsed :=
           JS.map_size (primary_map w input user) <? default (in_limit input) 6 in
         let candidates := candidates_of w input user in
         (fallbackUsed = false ->
          candidates = JS.map_values (primary_map w input user))
         /\ res_context r = context_of w user fallbackUsed
         /\
         let enriched :=
           map (enrichCandidate (context_of w user fallbackUsed)
                  (popular_set w (clock w 0%nat))
                  (JS.set_from (collectTopCategoriesFromHistory (history_rows w user)))
                  (clock w 1%nat))
               candidates in
         let sorted := JS.sort by_score_then_copies enriched in
         res_items r = JS.slice0 (default (in_limit input) 6) sorted
         /\ (0 <= default (in_limit input) 6 ->
             res_items r = firstn (Z.to_nat (default (in_limit input) 6)) sorted)
         /\ Permutation enriched sorted
         /\ StronglySorted ranks_before sorted
         /\ StronglySorted ranks_before (res_items r)
         /\ forall score copies,
              filter (tied score copies) sorted
              = filter (tied score copies) enriched)
    (fun e _ => storage_fault w e).
Proof.
  eapply post_weaken;
    [apply getPersonalizedRecommendations_shape| |intros e s1 [H _]; exact H].
  intros r s1
    [[Hn _]|[user [cs [fu [tier [bridge [Hu [_ [Ht [Htier [Hpin H]]]]]]]]]]].
  - intros _ user Hu. congruence.
  - intros Hnb u Hu'. rewrite Hu in Hu'. inversion Hu'; subst u. clear Hu'.
    cbv zeta in H |- *. fold (limit_of input).
    assert (fu = (JS.map_size (primary_map w input user) <? limit_of input)) as Hfu.
    { destruct Htier as [[-> [-> _]]|[-> [-> _]]]; reflexivity. }
    rewrite <- Hfu, <- Hpin.
    assert (Hr : r = {| res_items :=
                          scored_items (limit_of input) (context_of w user fu)
                            (popular_set w (clock w 0%nat)) (clock w 1%nat) cs;
                        res_context := context_of w user fu |}).
    { destruct H
        as [[_ [_ ->]]|[[_ [snapshot [sorted [_ [_ [-> _]]]]]]|[_ [_ [-> _]]]]].
      - reflexivity.
      - contradiction Hnb. rewrite Ht, !in_app_iff. right. right. now left.
      - contradiction Hnb. rewrite Ht, !in_app_iff. right. right. now left. }
    split.
    { intros Hge. destruct Htier as [[_ [_ [_ ?]]]|[Hlt [-> _]]];
        [assumption|discriminate]. }
    split; [rewrite Hr; reflexivity|].
    set (enriched := map _ cs).
    destruct (sort_by_score_then_copies enriched) as [Hp [Hs Hst]].
    assert (Hitems : res_items r =
                     JS.slice0 (limit_of input)
                       (JS.sort by_score_then_copies enriched)).
    { rewrite Hr. reflexivity. }
    split; [exact Hitems|]. split; [|split; [exact Hp|split; [exact Hs|split]]].
    + intros Hl. rewrite Hitems. now apply slice0_nonneg.
    + rewrite Hitems. now apply StronglySorted_slice0.
    + exact Hst.
Qed.

(** ** The broad fallback tier *)

Lemma StronglySorted_skipn {A} (R : A -> A -> Prop) (n : nat) (l : list A) :
  StronglySorted R l -> StronglySorted R (skipn n l).
Proof.
  intros H. revert n. induction H as [|x l Hs IH Hall]; intros [|n]; simpl;
    try constructor; auto.
Qed.

Lemma StronglySorted_take {A} (R : A -> A -> Prop) (n : Z) (l : list A) :
  StronglySorted R l -> StronglySorted R (Prisma.take n l).
Proof.
  unfold Prisma.take. destruct (0 <=? n);
    [apply StronglySorted_firstn | apply StronglySorted_skipn].
Qed.

(** The rows of the broad fallback query: every available book outside the
    exclusion set, newest first, cut to [3 * limit] rows. *)
Lemma fallback_rows_spec (w : World) (excludeIds : list string) (limit : Z) :
  fallback_rows w excludeIds limit =
    Prisma.take (limit * 3)
      (stable_sort Prisma.addedAt_desc
         (filter
            (fun b =>
               (0 <? cand_availableCopies b)
               && negb (Prisma.str_in (cand_id b) excludeIds))
            (books w)))
  /\ (forall c, In c (fallback_rows w excludeIds limit) ->
        In c (books w) /\ 0 < cand_availableCopies c /\ ~ In (cand_id c) excludeIds)
  /\ StronglySorted (fun a b => cand_addedAt b <= cand_addedAt a)
       (fallback_rows w excludeIds limit)
  /\ (0 <= limit -> JS.len (fallback_rows w excludeIds limit) <= 3 * limit).
Proof.
  unfold fallback_rows, Prisma.book_findMany, Prisma.take_opt, Prisma.order_books.
  split; [|split; [|split]].
  - f_equal. f_equal. apply filter_ext. intros b.
    unfold Prisma.book_where. simpl. now rewrite andb_true_r.
  - intros c Hc. apply take_In, stable_sort_In, filter_In in Hc.
    destruct Hc as [Hin Hw]. split; [exact Hin|].
    split.
    + eapply book_where_available; [|exact Hw]. simpl; auto.
    + eapply book_where_notIn; [|exact Hw]. simpl; auto.
  - apply StronglySorted_take.
    eapply StronglySorted_ext;
      [|apply (stable_sort_sorted Prisma.addedAt_desc)].
    + unfold Prisma.addedAt_desc. intros a b. simpl. lia.
    + unfold Prisma.addedAt_desc. intros; lia.
    + unfold Prisma.addedAt_desc. intros; lia.
  - intros Hl. apply Z.le_trans with (limit * 3); [|lia].
    apply take_length. lia.
Qed.

Lemma set_missing_cons (r : RecommendationCandidate)
    (rows : list RecommendationCandidate) (m : candidate_map) :
  set_missing m (r :: rows) =
  set_missing
    (if negb (JS.map_has m (cand_id r)) then JS.map_set m (cand_id r) r else m)
    rows.
Proof. reflexivity. Qed.

Lemma set_missing_has (rows : list RecommendationCandidate) (m : candidate_map) c :
  In c rows -> JS.map_has (set_missing m rows) (cand_id c) = true.
Proof.
  revert m. induction rows as [|r rows IH]; intros m Hin; [destruct Hin|].
  rewrite set_missing_cons. destruct Hin as [<-|Hin]; [|now apply IH].
  set (m' := if negb _ then _ else _).
  assert (Hm' : JS.map_has m' (cand_id r) = true).
  { subst m'. destruct (JS.map_has m (cand_id r)) eqn:H; simpl; [exact H|].
    rewrite map_set_absent by exact H. rewrite map_has_app.
    apply orb_true_iff. right. unfold JS.map_has. simpl.
    now rewrite String.eqb_refl. }
  destruct (set_missing_appends rows m') as [extra [E _]].
  rewrite E, map_has_app, Hm'. reflexivity.
Qed.

(** When the block runs, it only adds bindings for ids that were absent,
    after the bindings it received, and every row of the broad query ends
    up with its id in the map. *)
Lemma broadenCandidates_merge w limit excludeIds popularIdSet cm s :
  post (broadenCandidates w limit excludeIds popularIdSet cm) s
    (fun out _ =>
       (JS.map_size cm <? limit) = true ->
       (exists extra,
           fst out = cm ++ extra
           /\ forall k c, In (k, c) extra ->
                JS.map_has cm k = false /\ k = cand_id c)
       /\ forall c, In c (fallback_rows w excludeIds limit) ->
            JS.map_has (fst out) (cand_id c) = true)
    (fun _ _ => True).
Proof.
  unfold broadenCandidates.
  destruct (JS.map_size cm <? limit); [|apply post_ret; discriminate].
  apply post_bind, post_query; [auto|]. intros _.
  destruct (set_missing_appends (fallback_rows w excludeIds limit) cm)
    as [e1 [E1 H1]].
  destruct (_ && _).
  - apply post_bind. unfold post.
    destruct (fetchBooksByIds w _ _) as [[rows|e] s']; [|exact I].
    apply post_ret. intros _. simpl.
    destruct (set_missing_appends rows
                (set_missing cm (fallback_rows w excludeIds limit)))
      as [e2 [E2 H2]].
    split.
    + exists (e1 ++ e2). split; [rewrite E2, E1; now rewrite app_assoc|].
      intros k c Hin. apply in_app_or in Hin. destruct Hin as [Hin|Hin].
      * destruct (H1 k c Hin) as [? [_ ?]]. auto.
      * destruct (H2 k c Hin) as [Hn [_ ?]]. split; [|assumption].
        rewrite E1, map_has_app in Hn. now apply orb_false_iff in Hn.
    + intros c Hc. rewrite E2, map_has_app.
      apply orb_true_iff. left. now apply set_missing_has.
  - apply post_ret. intros _. simpl. split.
    + exists e1. split; [exact E1|].
      intros k c Hin. destruct (H1 k c Hin) as [? [_ ?]]. auto.
    + intros c Hc. now apply set_missing_has.
Qed.

Lemma bridge_events_no_query (bridge : list Event) (site : Site) :
  bridge = [] \/ bridge = [GetAllBooks]
  \/ bridge = [GetAllBooks; ConsoleError dataset_error_message] ->
  ~ In (Query site) bridge.
Proof. intros [->|[->| ->]]; simpl; intuition discriminate. Qed.

(** C7.  For a known user, the broad fallback query is issued exactly when
    the candidate map of the primary tier has fewer than [limit] entries
    (one per distinct id), and a result returned after it has
    [fallbackUsed = true].  The query has no category or department filter:
    its rows are the available books outside the exclusion set, newest
    first, at most [3 * limit] of them.  The block that runs it appends the
    rows whose id is absent to the candidate map and leaves every binding
    already present as it is. *)
Theorem broad_fallback_tier (w : World) (input : RecommendationInput) (user : User) :
  Prisma.user_findUnique (users w) (in_userId input) = Some user ->
  let limit := default (in_limit input) 6 in
  let excludeIds := exclusion_set w input user in
  post (getPersonalizedRecommendations w input) initial
    (fun r s1 =>
       (In (Query BroadFallback) (trace s1)
        <-> JS.map_size (primary_map w input user) < limit)
       /\ (In (Query BroadFallback) (trace s1) ->
           ctx_fallbackUsed (res_context r) = true))
    (fun _ s1 =>
       In (Query BroadFallback) (trace s1) ->
       JS.map_size (primary_map w input user) < limit)
  /\ fallback_rows w excludeIds limit =
       Prisma.take (limit * 3)
         (stable_sort Prisma.addedAt_desc
            (filter
               (fun b =>
                  (0 <? cand_availableCopies b)
                  && negb (Prisma.str_in (cand_id b) excludeIds))
               (books w)))
  /\ (forall c, In c (fallback_rows w excludeIds limit) ->
        In c (books w) /\ 0 < cand_availableCopies c /\ ~ In (cand_id c) excludeIds)
  /\ StronglySorted (fun a b => cand_addedAt b <= cand_addedAt a)
       (fallback_rows w excludeIds limit)
  /\ (0 <= limit -> JS.len (fallback_rows w excludeIds limit) <= 3 * limit)
  /\ forall popularIdSet cm s,
       post (broadenCandidates w limit excludeIds popularIdSet cm) s
         (fun out s' =>
            (~ JS.map_size cm < limit -> out = (cm, false) /\ trace s' = trace s)
            /\ (JS.map_size cm < limit ->
                snd out = true
                /\ In (Query BroadFallback) (trace s')
                /\ (exists extra,
                       fst out = cm ++ extra
                       /\ forall k c, In (k, c) extra ->
                            JS.map_has cm k = false /\ k = cand_id c)
                /\ (forall k, JS.map_has cm k = true ->
                      JS.map_get (fst out) k = JS.map_get cm k)
                /\ forall c, In c (fallback_rows w excludeIds limit) ->
                     JS.map_has (fst out) (cand_id c) = true))
         (fun _ _ => True).
Proof.
  intros Hu limit excludeIds. subst limit excludeIds. fold (limit_of input).
  split; [|split; [|split; [|split; [|split]]]];
    try apply (fallback_rows_spec w (exclusion_set w input user) (limit_of input)).
  - eapply post_weaken; [apply getPersonalizedRecommendations_shape| |].
    + intros r s1
        [[Hn _]|[u [cs [fu [tier [bridge [Hu' [_ [Ht [Htier [_ H]]]]]]]]]]];
        [congruence|].
      rewrite Hu in Hu'. inversion Hu'; subst u. clear Hu'.
      cbv zeta in H. rewrite Ht.
      assert (Hb : ~ In (Query BroadFallback) bridge).
      { apply bridge_events_no_query.
        destruct H
          as [[_ [-> _]]|[[_ [snapshot [sorted [_ [_ [-> _]]]]]]|[_ [_ [-> _]]]]];
          auto. }
      destruct Htier as [[Hlt [-> [-> _]]]|[Hlt [-> Hev]]].
      * apply Z.ltb_ge in Hlt. split.
        -- split; [|lia]. simpl. intuition discriminate.
        -- simpl. intuition discriminate.
      * apply Z.ltb_lt in Hlt.
        assert (Hin : In (Query BroadFallback) (opening_events ++ tier ++ bridge)).
        { rewrite !in_app_iff. right. left.
          destruct Hev as [-> | ->]; simpl; auto. }
        split; [tauto|]. intros _.
        destruct H
          as [[_ [_ ->]]
             |[[_ [snapshot [sorted [_ [_ [_ [[_ ->]|[_ ->]]]]]]]]|[_ [_ [_ ->]]]]];
          reflexivity.
    + intros e s1 [_ [_ H]] Hin. apply Z.ltb_lt. now apply (H user).
  - intros popularIdSet cm s.
    eapply post_weaken;
      [apply post_conj;
         [apply broadenCandidates_effects|apply broadenCandidates_merge]| |auto].
    intros out s' [[_ Heff] Hmerge]. simpl in Heff.
    split.
    + intros Hge.
      destruct Heff as [[_ [-> Ht]]|[Hlt _]]; [auto|].
      apply Z.ltb_lt in Hlt. contradiction.
    + intros Hlt. apply Z.ltb_lt in Hlt.
      destruct Heff as [[Hge _]|[_ [Hfu [evs [Ht Hev]]]]]; [congruence|].
      destruct (Hmerge Hlt) as [[extra [E Hextra]] Hrows].
      split; [exact Hfu|]. split.
      { rewrite Ht, in_app_iff. right. destruct Hev as [-> | ->]; simpl; auto. }
      split; [exists extra; auto|]. split; [|exact Hrows].
      intros k Hk. rewrite E. now apply map_get_app_l.
Qed.

Lemma broad_fallback_tier_witness :
  Prisma.user_findUnique (users Campus.world) (in_userId Campus.request)
  = Some Campus.asha
  /\ post (getPersonalizedRecommendations Campus.world Campus.request) initial
       (fun r s1 =>
          (In (Query BroadFallback) (trace s1)
           <-> JS.map_size (primary_map Campus.world Campus.request Campus.asha)
               < default (in_limit Campus.request) 6)
          /\ (In (Query BroadFallback) (trace s1) ->
              ctx_fallbackUsed (res_context r) = true))
       (fun _ s1 =>
          In (Query BroadFallback) (trace s1) ->
          JS.map_size (primary_map Campus.world Campus.request Campus.asha)
          < default (in_limit Campus.request) 6).
Proof.
  assert (H : Prisma.user_findUnique (users Campus.world) (in_userId Campus.request)
              = Some Campus.asha) by reflexivity.
  split; [exact H|].
  exact (proj1 (broad_fallback_tier Campus.world Campus.request Campus.asha H)).
Defined.

(** ** The order of the dataset bridge *)

Lemma by_score_copies_title_le (w : World) (a b : ScoredBook) :
  by_score_copies_title w a b <= 0 <-> bridge_before w a b.
Proof.
  unfold by_score_copies_title, bridge_before.
  destruct (sb_score b =? sb_score a) eqn:Es; simpl.
  - apply Z.eqb_eq in Es.
    destruct (lb_copies (sb_book b) =? lb_copies (sb_book a)) eqn:Ec; simpl.
    + apply Z.eqb_eq in Ec. intuition lia.
    + apply Z.eqb_neq in Ec. intuition lia.
  - apply Z.eqb_neq in Es. intuition lia.
Qed.

Lemma bridge_before_trans (w : World) :
  collation_consistent w ->
  forall x y z, bridge_before w x y -> bridge_before w y z -> bridge_before w x z.
Proof.
  intros [Htrans _] x y z. unfold bridge_before.
  intros [H1|[E1 [H1|[C1 L1]]]] [H2|[E2 [H2|[C2 L2]]]]; try (left; lia);
    try (right; split; [lia|left; lia]).
  right. split; [lia|]. right. split; [lia|]. eapply Htrans; eauto.
Qed.

Lemma bridge_before_total (w : World) :
  collation_consistent w ->
  forall x y, ~ bridge_before w x y -> bridge_before w y x.
Proof.
  intros [_ Htotal] x y. unfold bridge_before. intros N.
  destruct (Z.lt_trichotomy (sb_score x) (sb_score y)) as [H|[H|H]];
    [left; lia| |exfalso; apply N; left; lia].
  destruct (Z.lt_trichotomy (lb_copies (sb_book x)) (lb_copies (sb_book y)))
    as [C|[C|C]];
    [right; split; [lia|left; lia]|
    |exfalso; apply N; right; split; [lia|left; lia]].
  right. split; [lia|]. right. split; [lia|].
  apply Htotal.
  destruct (Z_lt_le_dec 0
              (localeCompare w (lb_title (sb_book x)) (lb_title (sb_book y))))
    as [G|G]; [exact G|].
  exfalso. apply N. right. split; [lia|]. right. split; [lia|exact G].
Qed.

Lemma sort_by_score_copies_title (w : World) (entries : list ScoredBook) :
  collation_consistent w ->
  StronglySorted (bridge_before w) (JS.sort (by_score_copies_title w) entries).
Proof.
  intros Hc. unfold JS.sort.
  eapply StronglySorted_ext; [intros a b; apply by_score_copies_title_le|].
  apply stable_sort_sorted.
  - intros x y z. rewrite !by_score_copies_title_le.
    now apply bridge_before_trans.
  - intros x y H. rewrite by_score_copies_title_le.
    apply bridge_before_total; [exact Hc|].
    rewrite <- by_score_copies_title_le. lia.
Qed.

Lemma code_unit_order_le (a b : string) :
  Campus.code_unit_order a b <= 0 <-> a = b \/ String_as_OT.lt a b.
Proof.
  unfold Campus.code_unit_order.
  pose proof (String_as_OT.cmp_eq a b) as He.
  pose proof (String_as_OT.cmp_lt a b) as Hl.
  unfold String_as_OT.cmp in *.
  destruct (String.compare a b) eqn:E.
  - split; [intros _; left; now apply He | lia].
  - split; [intros _; right; now apply Hl | lia].
  - split; [lia|]. intros [H|H].
    + apply He in H. discriminate.
    + apply Hl in H. discriminate.
Qed.

Lemma code_unit_order_consistent (w : World) :
  localeCompare w = Campus.code_unit_order -> collation_consistent w.
Proof.
  intros H. unfold collation_consistent. rewrite H. split.
  - intros x y z. rewrite !code_unit_order_le.
    intros [->|H1] [->|H2]; auto. right. eapply String_as_OT.lt_trans; eauto.
  - intros x y. unfold Campus.code_unit_order.
    pose proof (String_as_OT.cmp_antisym y x) as Ha.
    unfold String_as_OT.cmp in Ha. rewrite Ha.
    destruct (String.compare x y); simpl; lia.
Qed.

(** C8.  With a collation that is a total preorder, the entries the dataset
    bridge keeps, when its scoring returns, are sorted by score descending,
    then by copies descending, then by title ascending; its output lists
    them in that order, cut to [limit].  The output is a function of the
    snapshot, the collation, the interests, the department, the exclusion
    set and the limit alone: two invocations that agree on these return the
    same list, whatever else the store holds and whatever ran before. *)
Theorem bridge_order (w : World) (explicitInterests : list string)
    (department : option string) (limit : Z) (excludeIds : list string) :
  collation_consistent w ->
  (forall snapshot,
      match
        map_outcome (score_book explicitInterests department)
          (filter (fun book => negb (JS.set_has excludeIds (lb_id book))) snapshot)
      with
      | Returned entries =>
          let sorted := JS.sort (by_score_copies_title w) entries in
          dataset_sorted w explicitInterests department limit excludeIds snapshot
          = Returned (JS.slice0 limit sorted)
          /\ Permutation entries sorted
          /\ StronglySorted (bridge_before w) sorted
          /\ StronglySorted (bridge_before w) (JS.slice0 limit sorted)
      | Thrown e =>
          dataset_sorted w explicitInterests department limit excludeIds snapshot
          = Thrown e
      end)
  /\ (forall s,
        fst (buildDatasetFallback w explicitInterests department limit excludeIds s)
        = Returned
            match
              dataset_sorted w explicitInterests department limit excludeIds
                (default (dataset w) [])
            with
            | Returned kept => map to_recommendation kept
            | Thrown _ => []
            end)
  /\ (forall w' s s',
        dataset w' = dataset w -> localeCompare w' = localeCompare w ->
        fst (buildDatasetFallback w' explicitInterests department limit excludeIds s')
        = fst (buildDatasetFallback w explicitInterests department limit excludeIds s)).
Proof.
  intros Hc.
  assert (Heval : forall w0 s,
             fst (buildDatasetFallback w0 explicitInterests department limit
                    excludeIds s)
             = Returned
                 match
                   dataset_sorted w0 explicitInterests department limit excludeIds
                     (default (dataset w0) [])
                 with
                 | Returned kept => map to_recommendation kept
                 | Thrown _ => []
                 end).
  { intros w0 s. rewrite buildDatasetFallback_eval.
    destruct (dataset w0) as [snapshot|]; cbn [default].
    - destruct (dataset_sorted _ _ _ _ _ snapshot); reflexivity.
    - now rewrite dataset_sorted_nil. }
  split; [|split].
  - intros snapshot. unfold dataset_sorted.
    destruct (map_outcome _ _) as [entries|e]; [|reflexivity].
    pose proof (sort_by_score_copies_title w entries Hc) as Hs.
    split; [reflexivity|]. split; [|split].
    + symmetry. apply stable_sort_perm.
    + exact Hs.
    + now apply StronglySorted_slice0.
  - intros s. apply Heval.
  - intros w' s s' Hd Hl. rewrite !Heval, Hd.
    unfold dataset_sorted, by_score_copies_title. now rewrite Hl.
Qed.

Lemma bridge_order_witness :
  collation_consistent Campus.world
  /\ StronglySorted (bridge_before Campus.world)
       (sorted_entries Campus.world ["Computer Science"]
          (Some "Computer Engineering") 6 [] Campus.catalog).
Proof.
  assert (H : collation_consistent Campus.world)
    by (apply code_unit_order_consistent; reflexivity).
  split; [exact H|].
  exact (proj2 (proj2 (proj2
           (proj1 (bridge_order Campus.world ["Computer Science"]
                     (Some "Computer Engineering") 6 [] H) Campus.catalog)))).
Defined.

(** C9.  Whatever throws inside the dataset bridge, the loading of the
    snapshot or the scoring of one of its entries, [buildDatasetFallback]
    returns the empty list after logging one error line; it returns in every
    case, so no error of the bridge reaches the caller.  A call that went
    into a bridge that failed returns with no item and with the context it
    had built (the user's interests, derived categories and department, and
    [fallbackUsed] as the tiers left it).  A call can only throw at a
    failing query site of the store, before the bridge. *)
Theorem snapshot_failure_absorbed (w : World) (input : RecommendationInput) :
  (forall explicitInterests department limit excludeIds s,
      (dataset w = None
       \/ exists snapshot e,
            dataset w = Some snapshot
            /\ dataset_sorted w explicitInterests department limit excludeIds
                 snapshot = Thrown e) ->
      buildDatasetFallback w explicitInterests department limit excludeIds s
      = (Returned [],
         emit (ConsoleError dataset_error_message) (emit GetAllBooks s)))
  /\ (forall explicitInterests department limit excludeIds s,
        exists items s',
          buildDatasetFallback w explicitInterests department limit excludeIds s
          = (Returned items, s'))
  /\ post (getPersonalizedRecommendations w input) initial
       (fun r s1 =>
          forall user,
            Prisma.user_findUnique (users w) (in_userId input) = Some user ->
            bridge_fails w input user ->
            In GetAllBooks (trace s1) ->
            res_items r = []
            /\ In (ConsoleError dataset_error_message) (trace s1)
            /\ res_context r =
               context_of w user
                 (JS.map_size (primary_map w input user) <? default (in_limit input) 6))
       (fun e s1 => storage_fault w e /\ ~ In GetAllBooks (trace s1)).
Proof.
  split; [|split].
  - intros explicitInterests department limit excludeIds s Hfails.
    rewrite buildDatasetFallback_eval.
    destruct Hfails as [Hd|(snapshot & e & Hd & Hs)]; rewrite Hd; [reflexivity|].
    rewrite Hs. reflexivity.
  - intros explicitInterests department limit excludeIds s.
    rewrite buildDatasetFallback_eval.
    destruct (dataset w) as [snapshot|]; [|eauto].
    destruct (dataset_sorted _ _ _ _ _ snapshot); eauto.
  - eapply post_weaken;
      [apply getPersonalizedRecommendations_shape|
      |intros e s1 [H [Hnb _]]; split; [exact H|exact Hnb]].
    intros r s1
      [[Hn _]|[user [cs [fu [tier [bridge [Hu [_ [Ht [Htier [_ H]]]]]]]]]]];
      intros u Hu' Hfails Hin; [congruence|].
    rewrite Hu in Hu'. inversion Hu'; subst u. clear Hu'.
    cbv zeta in H.
    destruct H
      as [[_ [-> _]]
         |[[_ [snapshot [sorted [Hd [Hs _]]]]]|[_ [_ [-> ->]]]]].
    + exfalso. revert Hin. rewrite Ht. apply opening_tier_no_bridge.
      destruct Htier as [[_ [_ [-> _]]]|[_ [_ ?]]]; auto.
    + exfalso. destruct Hfails as [Hn|(snapshot' & e & Hd' & Hs')]; [congruence|].
      rewrite Hd in Hd'. inversion Hd'; subst snapshot'. congruence.
    + split; [reflexivity|]. split.
      * rewrite Ht, !in_app_iff. right. right. simpl. auto.
      * cbn [res_context]. fold (limit_of input).
        destruct Htier as [[-> [-> _]]|[-> [-> _]]]; reflexivity.
Qed.

(** The failure of scoring on the bare library: the dataset file has a row
    whose department column reads [Constructor], and the user has a
    department.  The call enters the bridge and returns no item. *)
Lemma snapshot_failure_absorbed_witness :
  bridge_fails Campus.odd_world Campus.request Campus.asha
  /\ In GetAllBooks
       (trace (snd (getPersonalizedRecommendations Campus.odd_world Campus.request
                      initial)))
  /\ post (getPersonalizedRecommendations Campus.odd_world Campus.request) initial
       (fun r s1 =>
          forall user,
            Prisma.user_findUnique (users Campus.odd_world)
              (in_userId Campus.request) = Some user ->
            bridge_fails Campus.odd_world Campus.request user ->
            In GetAllBooks (trace s1) ->
            res_items r = []
            /\ In (ConsoleError dataset_error_message) (trace s1)
            /\ res_context r =
               context_of Campus.odd_world user
                 (JS.map_size (primary_map Campus.odd_world Campus.request user)
                  <? default (in_limit Campus.request) 6))
       (fun e s1 => storage_fault Campus.odd_world e /\ ~ In GetAllBooks (trace s1)).
Proof.
  split; [right; exists Campus.odd_catalog, TypeError; split; reflexivity|].
  split; [vm_compute; tauto|].
  exact (proj2 (proj2 (snapshot_failure_absorbed Campus.odd_world Campus.request))).
Defined.

(** ** Derived categories *)

Lemma map_set_keys {V} (m : list (string * V)) (k : string) (v : V) :
  map fst (JS.map_set m k v) =
  if JS.map_has m k then map fst m else map fst m ++ [k].
Proof.
  unfold JS.map_has. induction m as [|[k' v'] r IH]; simpl.
  - reflexivity.
  - destruct (String.eqb k k'); simpl; [reflexivity|].
    rewrite IH. now destruct (existsb _ r).
Qed.

Lemma map_set_NoDup {V} (m : list (string * V)) (k : string) (v : V) :
  NoDup (map fst m) -> NoDup (map fst (JS.map_set m k v)).
Proof.
  intros H. rewrite map_set_keys. destruct (JS.map_has m k) eqn:E; [exact H|].
  apply NoDup_app; [exact H | repeat constructor; simpl; tauto |].
  intros x Hx [<-|[]].
  apply map_has_In in Hx. congruence.
Qed.

Lemma map_get_In {V} (m : list (string * V)) (k : string) (v : V) :
  NoDup (map fst m) -> (In (k, v) m <-> JS.map_get m k = Some v).
Proof.
  induction m as [|[k' v'] r IH]; simpl; intros Hnd.
  - split; [intros []|discriminate].
  - inversion Hnd as [|? ? Hnotin Hnd']; subst.
    destruct (String.eqb k k') eqn:E.
    + apply String.eqb_eq in E. subst k'. split.
      * intros [H|H]; [now inversion H|].
        exfalso. apply Hnotin. apply in_map_iff. now exists (k, v).
      * intros [= ->]. now left.
    + apply String.eqb_neq in E. rewrite <- IH by exact Hnd'. split.
      * intros [H|H]; [inversion H; congruence|exact H].
      * auto.
Qed.

Lemma occurrences_cons (c : string) (entry : HistoryEntry) (history : list HistoryEntry) :
  occurrences c (entry :: history) =
  (match history_category entry with
   | Some category => if JS.truthy category && String.eqb category c then 1 else 0
   | None => 0
   end) + occurrences c history.
Proof.
  unfold occurrences, JS.len. cbn [filter].
  destruct (history_category entry) as [category|]; [|reflexivity].
  destruct (JS.truthy category && String.eqb category c); [|reflexivity].
  cbn [List.length]. rewrite Nat2Z.inj_succ. lia.
Qed.

Lemma occurrences_nonneg (c : string) (history : list HistoryEntry) :
  0 <= occurrences c history.
Proof. unfold occurrences, JS.len. lia. Qed.

(** After the counting loop, the counter of a category is the number of its
    occurrences added to what it was before. *)
Lemma count_category_get (history : list HistoryEntry) (m : list (string * Z))
    (k : string) :
  JS.map_get (fold_left count_category history m) k =
  if occurrences k history =? 0 then JS.map_get m k
  else Some (default (JS.map_get m k) 0 + occurrences k history).
Proof.
  revert m. induction history as [|entry history IH]; intros m.
  - reflexivity.
  - simpl fold_left. rewrite IH, occurrences_cons.
    pose proof (occurrences_nonneg k history) as Hn.
    unfold count_category.
    destruct (history_category entry) as [category|]; [|reflexivity].
    destruct (JS.truthy category) eqn:T; cbn [andb]; [|reflexivity].
    unfold count_key. rewrite map_get_map_set.
    rewrite (String.eqb_sym category k).
    destruct (String.eqb k category) eqn:E; [|reflexivity].
    apply String.eqb_eq in E. subst category.
    cbn [default].
    destruct (occurrences k history =? 0) eqn:Z0.
    + apply Z.eqb_eq in Z0. rewrite Z0. reflexivity.
    + apply Z.eqb_neq in Z0.
      destruct (1 + occurrences k history =? 0) eqn:Z1;
        [apply Z.eqb_eq in Z1; lia|].
      f_equal. lia.
Qed.

Lemma count_category_NoDup (history : list HistoryEntry) (m : list (string * Z)) :
  NoDup (map fst m) -> NoDup (map fst (fold_left count_category history m)).
Proof.
  revert m. induction history as [|entry history IH]; intros m H; [exact H|].
  simpl. apply IH. unfold count_category.
  destruct (history_category entry) as [category|]; [|exact H].
  destruct (JS.truthy category); [|exact H].
  now apply map_set_NoDup.
Qed.

(** A category is derived exactly when it occurs at least twice in the
    history. *)
Lemma collectTopCategoriesFromHistory_In (history : list HistoryEntry) (c : string) :
  In c (collectTopCategoriesFromHistory history) <-> 2 <= occurrences c history.
Proof.
  unfold collectTopCategoriesFromHistory, JS.sort.
  set (counts := fold_left count_category history []).
  assert (Hnd : NoDup (map fst counts))
    by (apply count_category_NoDup; constructor).
  assert (Hget : forall n, In (c, n) counts <->
                           (occurrences c history <> 0 /\ n = occurrences c history)).
  { intros n. rewrite (map_get_In counts c n Hnd).
    unfold counts. rewrite count_category_get. simpl.
    destruct (occurrences c history =? 0) eqn:Z0.
    - apply Z.eqb_eq in Z0. split; [discriminate|]. intros [H _]. contradiction.
    - apply Z.eqb_neq in Z0. split.
      + intros [= <-]. split; [exact Z0|reflexivity].
      + intros [_ ->]. reflexivity. }
  rewrite in_map_iff. split.
  - intros [[k n] [Hk Hin]]. simpl in Hk. subst k.
    apply stable_sort_In, filter_In in Hin. destruct Hin as [Hin Hn].
    simpl in Hn. apply Z.leb_le in Hn. apply Hget in Hin. lia.
  - intros H. exists (c, occurrences c history). split; [reflexivity|].
    apply stable_sort_In, filter_In. split.
    + apply Hget. split; [lia|reflexivity].
    + simpl. now apply Z.leb_le.
Qed.

Lemma fold_set_add_length (l s : list string) :
  (List.length (fold_left JS.set_add l s) <= List.length s + List.length l)%nat.
Proof.
  revert s. induction l as [|x r IH]; intros s; simpl; [lia|].
  specialize (IH (JS.set_add s x)).
  assert (List.length (JS.set_add s x) <= S (List.length s))%nat.
  { unfold JS.set_add. destruct (JS.set_has s x); [lia|].
    rewrite length_app. simpl. lia. }
  lia.
Qed.

Lemma popular_set_length (w : World) (t : Z) : JS.len (popular_set w t) <= 20.
Proof.
  unfold popular_set, JS.set_from.
  pose proof (fold_set_add_length
                (JS.slice0 20 (popular_ranking (popular_rows w t))) []) as H.
  pose proof (slice0_length 20 (popular_ranking (popular_rows w t)) ltac:(lia)) as H'.
  unfold JS.len in *. simpl in H. lia.
Qed.

Lemma history_rows_length (w : World) (user : User) :
  JS.len (history_rows w user) <= 40.
Proof.
  unfold history_rows, JS.len. rewrite length_map.
  apply (take_length 40). lia.
Qed.

(** ** The five signals *)

Lemma department_matches_true (department : option string) (d : string) :
  department_matches department d = true <->
  exists dep, department = Some dep /\ dep <> "" /\ d = dep.
Proof.
  unfold department_matches. destruct department as [dep|].
  - rewrite andb_true_iff, truthy_true, String.eqb_eq. split.
    + intros [H1 H2]. exists dep. auto.
    + intros [dep' [[= <-] [H1 H2]]]. auto.
  - split; [discriminate|]. intros [dep [H _]]. discriminate.
Qed.

Lemma is_new_arrival_true (addedAt nowDate : Z) :
  is_new_arrival addedAt nowDate = true <->
  Z.abs (nowDate - addedAt) <= 60 * MS_PER_DAY.
Proof.
  unfold is_new_arrival, differenceInDays, NEW_ARRIVAL_DAYS.
  rewrite Qle_bool_iff.
  change MS_PER_DAY with 86400000.
  unfold Qdiv, Qmult, Qinv, Qabs, Qle, inject_Z. simpl Qnum. simpl Qden.
  rewrite Z.mul_1_r. rewrite Z.mul_1_r.
  change (Z.pos (1 * 86400000)) with 86400000. reflexivity.
Qed.

(** The scenario of the specification: in the example library the book
    [b1] matches the interest, a derived category and the department of the
    user, arrived 10 days ago and is popular. *)
Example all_five_signals_scenario :
  exists r s1 item rest,
    getPersonalizedRecommendations Campus.world Campus.request initial
    = (Returned r, s1)
    /\ res_items r = item :: rest
    /\ rec_id item = "b1"
    /\ rec_score item = 9
    /\ JS.len (rec_reasons item) = 5.
Proof.
  destruct (getPersonalizedRecommendations Campus.world Campus.request initial)
    as [[r|e] s1] eqn:E; vm_compute in E; inversion E; subst; clear E.
  do 4 eexists. repeat split; reflexivity.
Qed.

(** C4, as the code has it.  The score of a candidate of the scored path is
    the sum of the deltas of the signals that fire, when at least one
    fires: +3 when its category is among the explicit interests, +2 when
    its category is among the derived categories (the trimmed, non-empty
    categories that occur at least twice in the at most 40 most recent
    borrowings), +2 when its department is the user's non-empty
    affiliation, +1 when its arrival is within 60 days of the evaluation
    time, before or after, +1 when its id is in the popular set of at most
    20 ids.  Each signal that fires adds one reason, all distinct; all five
    give score 9 and 5 reasons.  When none fires the score is 1, with the
    baseline reason alone.  Every item of the scored path is scored this
    way. *)
Theorem score_from_signals :
  (forall context popularIds derivedCategorySet nowDate candidate,
      let g := signals_of context popularIds derivedCategorySet nowDate candidate in
      let r := enrichCandidate context popularIds derivedCategorySet nowDate candidate in
      (sig_interest g = true <->
       In (cand_category candidate) (ctx_explicitInterests context))
      /\ (sig_derived g = true <-> In (cand_category candidate) derivedCategorySet)
      /\ (sig_department g = true <->
          exists dep, ctx_department context = Some dep /\ dep <> ""
                      /\ cand_department candidate = dep)
      /\ (sig_new g = true <->
          Z.abs (nowDate - cand_addedAt candidate) <= 60 * MS_PER_DAY)
      /\ (sig_popular g = true <-> In (cand_id candidate) popularIds)
      /\ rec_score r = (if signal_sum g =? 0 then 1 else signal_sum g)
      /\ rec_reasons r =
           (if signal_sum g =? 0 then [reason_baseline]
            else signal_reasons g (cand_category candidate))
      /\ NoDup (signal_reasons g (cand_category candidate))
      /\ JS.len (signal_reasons g (cand_category candidate)) =
           delta (sig_interest g) 1 + delta (sig_derived g) 1
           + delta (sig_department g) 1 + delta (sig_new g) 1
           + delta (sig_popular g) 1
      /\ (g = every_signal ->
          rec_score r = 9 /\ JS.len (rec_reasons r) = 5 /\ NoDup (rec_reasons r)))
  /\ (forall history c,
        In c (collectTopCategoriesFromHistory history) <->
        2 <= occurrences c history)
  /\ (forall w user, JS.len (history_rows w user) <= 40)
  /\ (forall w t, JS.len (popular_set w t) <= 20)
  /\ (forall w input,
        post (getPersonalizedRecommendations w input) initial
          (fun r s1 =>
             ~ In GetAllBooks (trace s1) ->
             forall user,
               Prisma.user_findUnique (users w) (in_userId input) = Some user ->
               forall item, In item (res_items r) ->
                 exists candidate fallbackUsed,
                   item =
                   enrichCandidate (context_of w user fallbackUsed)
                     (popular_set w (clock w 0%nat))
                     (JS.set_from
                        (collectTopCategoriesFromHistory (history_rows w user)))
                     (clock w 1%nat) candidate)
          (fun e _ => storage_fault w e))
  /\ (exists r s1 item rest,
        getPersonalizedRecommendations Campus.world Campus.request initial
        = (Returned r, s1)
        /\ res_items r = item :: rest
        /\ rec_id item = "b1"
        /\ rec_score item = 9
        /\ JS.len (rec_reasons item) = 5).
Proof.
  split; [|split; [|split; [|split; [|split]]]].
  - intros context popularIds derivedCategorySet nowDate candidate g r.
    destruct (enrichCandidate_signals context popularIds derivedCategorySet
                nowDate candidate) as [Hs Hr].
    fold g in Hs, Hr. fold r in Hs, Hr.
    split; [apply set_has_In|]. split; [apply set_has_In|].
    split.
    { unfold g, signals_of. cbn [sig_department].
      rewrite department_matches_true. split.
      - intros [dep [? [? ?]]]. exists dep. auto.
      - intros [dep [? [? ?]]]. exists dep. auto. }
    split; [apply is_new_arrival_true|]. split; [apply set_has_In|].
    split; [exact Hs|]. split; [exact Hr|].
    split; [apply signal_reasons_NoDup|]. split; [apply signal_reasons_length|].
    intros Hg. rewrite Hs, Hr, Hg. repeat split.
    apply (signal_reasons_NoDup every_signal).
  - apply collectTopCategoriesFromHistory_In.
  - apply history_rows_length.
  - apply popular_set_length.
  - intros w input.
    eapply post_weaken;
      [apply getPersonalizedRecommendations_shape| |intros e s1 [H _]; exact H].
    intros r s1
      [[Hn _]|[user [cs [fu [tier [bridge [Hu [_ [Ht [_ [_ H]]]]]]]]]]].
    + intros _ user Hu. congruence.
    + intros Hnb u Hu' item Hitem.
      rewrite Hu in Hu'. inversion Hu'; subst u. clear Hu'.
      cbv zeta in H.
      destruct H
        as [[_ [_ ->]]|[[_ [snapshot [sorted [_ [_ [-> _]]]]]]|[_ [_ [-> _]]]]].
      * cbn [res_items] in Hitem. apply scored_items_In in Hitem.
        destruct Hitem as [c [_ ->]]. exists c, fu. reflexivity.
      * contradiction Hnb. rewrite Ht, !in_app_iff. right. right. now left.
      * contradiction Hnb. rewrite Ht, !in_app_iff. right. right. now left.
  - exact all_five_signals_scenario.
Qed.

(** C4, as the specification states it, fails on a candidate that no signal
    matches: the sum of the deltas is 0 and the code returns score 1. *)
Lemma score_counterexample :
  rec_score
    (enrichCandidate Campus.asha_context ["b1"] ["Computer Science"]
       (1000 * Campus.day) Campus.physics_book)
  <> claimed_score ["Computer Science"] ["Computer Science"]
       (Some "Computer Engineering") ["b1"] (1000 * Campus.day)
       Campus.physics_book.
Proof. vm_compute. discriminate. Qed.

(** * Further properties of the service *)

(** ** Counting loops *)

Lemma key_count_cons {A} (key : A -> option string) (k : string) (x : A) (l : list A) :
  key_count key k (x :: l) =
  (match key x with
   | Some k' => if String.eqb k' k then 1 else 0
   | None => 0
   end) + key_count key k l.
Proof.
  unfold key_count, JS.len. cbn [filter].
  destruct (key x) as [k'|]; [|reflexivity].
  destruct (String.eqb k' k); [|reflexivity].
  cbn [List.length]. rewrite Nat2Z.inj_succ. lia.
Qed.

Lemma key_count_nonneg {A} (key : A -> option string) (k : string) (l : list A) :
  0 <= key_count key k l.
Proof. unfold key_count, JS.len. lia. Qed.

(** After a counting loop the counter of a key is the number of elements
    with that key, added to what it was before. *)
Lemma tally_get {A} (key : A -> option string) (l : list A)
    (m : list (string * Z)) (k : string) :
  JS.map_get (fold_left (tally key) l m) k =
  if key_count key k l =? 0 then JS.map_get m k
  else Some (default (JS.map_get m k) 0 + key_count key k l).
Proof.
  revert m. induction l as [|x l IH]; intros m.
  - reflexivity.
  - simpl fold_left. rewrite IH, key_count_cons.
    pose proof (key_count_nonneg key k l) as Hn.
    unfold tally. destruct (key x) as [k'|]; [|reflexivity].
    unfold count_key. rewrite map_get_map_set.
    rewrite (String.eqb_sym k' k).
    destruct (String.eqb k k') eqn:E; [|reflexivity].
    apply String.eqb_eq in E. subst k'. cbn [default].
    destruct (key_count key k l =? 0) eqn:Z0.
    + apply Z.eqb_eq in Z0. rewrite Z0. reflexivity.
    + apply Z.eqb_neq in Z0.
      destruct (1 + key_count key k l =? 0) eqn:Z1;
        [apply Z.eqb_eq in Z1; lia|].
      f_equal. lia.
Qed.

Lemma tally_NoDup {A} (key : A -> option string) (l : list A) (m : list (string * Z)) :
  NoDup (map fst m) -> NoDup (map fst (fold_left (tally key) l m)).
Proof.
  revert m. induction l as [|x l IH]; intros m H; [exact H|].
  simpl. apply IH. unfold tally. destruct (key x); [|exact H].
  now apply map_set_NoDup.
Qed.

(** The entries of a finished counting loop: each key once, with its count. *)
Lemma tally_entries {A} (key : A -> option string) (l : list A) (k : string) (n : Z) :
  In (k, n) (fold_left (tally key) l []) <->
  key_count key k l <> 0 /\ n = key_count key k l.
Proof.
  rewrite (map_get_In _ k n (tally_NoDup key l [] (NoDup_nil _))).
  rewrite tally_get. simpl.
  destruct (key_count key k l =? 0) eqn:Z0.
  - apply Z.eqb_eq in Z0. split; [discriminate|]. intros [H _]. contradiction.
  - apply Z.eqb_neq in Z0. split.
    + intros [= <-]. split; [exact Z0|reflexivity].
    + intros [_ ->]. reflexivity.
Qed.

Lemma StronglySorted_map {A B} (f : A -> B) (R : B -> B -> Prop) (l : list A) :
  StronglySorted (fun a b => R (f a) (f b)) l -> StronglySorted R (map f l).
Proof.
  induction 1 as [|x l Hs IH Hall]; simpl; constructor; [exact IH|].
  rewrite Forall_forall in *. intros y Hy. apply in_map_iff in Hy.
  destruct Hy as [a [<- Ha]]. now apply Hall.
Qed.

Lemma NoDup_map_perm {A B} (f : A -> B) (l l' : list A) :
  Permutation l l' -> NoDup (map f l) -> NoDup (map f l').
Proof.
  intros Hp. apply Permutation_NoDup. now apply Permutation_map.
Qed.

(** The ranking a counting loop ends with: the keys whose count passes
    [keep], each once, in non-increasing order of their count. *)
Lemma tally_ranking {A} (key : A -> option string) (l : list A) (threshold : Z) :
  let ranking :=
    map fst
      (JS.sort by_count_desc
         (filter (fun e => threshold <=? snd e) (fold_left (tally key) l []))) in
  NoDup ranking
  /\ (forall k, In k ranking <->
                key_count key k l <> 0 /\ threshold <= key_count key k l)
  /\ StronglySorted (fun a b => key_count key b l <= key_count key a l) ranking.
Proof.
  set (counts := fold_left (tally key) l []).
  set (kept := filter (fun e => threshold <=? snd e) counts).
  assert (Hkept : forall k n, In (k, n) (JS.sort by_count_desc kept) <->
                   (key_count key k l <> 0 /\ n = key_count key k l)
                   /\ threshold <= n).
  { intros k n. unfold JS.sort. rewrite stable_sort_In.
    unfold kept. rewrite filter_In. unfold counts. rewrite tally_entries.
    simpl. rewrite Z.leb_le. reflexivity. }
  cbv zeta. split; [|split].
  - eapply NoDup_map_perm;
      [symmetry; apply (stable_sort_perm by_count_desc kept)|].
    unfold kept. clear Hkept.
    assert (Hnd : NoDup (map fst counts))
      by (apply tally_NoDup; constructor).
    induction counts as [|[k n] r IH]; simpl; [constructor|].
    inversion Hnd as [|? ? Hnotin Hnd']; subst.
    destruct (threshold <=? n); simpl; [|now apply IH].
    constructor; [|now apply IH].
    intros Hin. apply Hnotin. apply in_map_iff in Hin.
    destruct Hin as [e [He Hin]]. apply filter_In in Hin.
    apply in_map_iff. exists e. tauto.
  - intros k. rewrite in_map_iff. split.
    + intros [[k' n] [Hk Hin]]. simpl in Hk. subst k'.
      apply Hkept in Hin. destruct Hin as [[H0 ->] Ht]. auto.
    + intros [H0 Ht]. exists (k, key_count key k l). split; [reflexivity|].
      apply Hkept. auto.
  - apply StronglySorted_map.
    assert (Hs : StronglySorted (fun a b => by_count_desc a b <= 0)
                   (JS.sort by_count_desc kept)).
    { apply stable_sort_sorted; unfold by_count_desc; intros; lia. }
    assert (Hall : forall e, In e (JS.sort by_count_desc kept) ->
                             snd e = key_count key (fst e) l).
    { intros [k n] Hin. apply Hkept in Hin. simpl. tauto. }
    revert Hs Hall. generalize (JS.sort by_count_desc kept) as sorted.
    induction 1 as [|x r Hs IH Hx]; intros Hall; constructor.
    + apply IH. intros e He. apply Hall. now right.
    + rewrite Forall_forall in *. intros y Hy.
      specialize (Hx y Hy). unfold by_count_desc in Hx.
      rewrite <- (Hall x (or_introl eq_refl)), <- (Hall y (or_intror Hy)). lia.
Qed.

Lemma fold_left_ext {A B} (f g : A -> B -> A) (l : list B) (a : A) :
  (forall a b, f a b = g a b) -> fold_left f l a = fold_left g l a.
Proof.
  intros H. revert a. induction l as [|x l IH]; intros a; simpl; [reflexivity|].
  now rewrite H, IH.
Qed.

Lemma filter_all {A} (f : A -> bool) (l : list A) :
  (forall x, In x l -> f x = true) -> filter f l = l.
Proof.
  induction l as [|x l IH]; intros H; simpl; [reflexivity|].
  rewrite (H x (or_introl eq_refl)). f_equal. apply IH. intros y Hy. apply H. now right.
Qed.

Lemma StronglySorted_ext_in {A} (R R' : A -> A -> Prop) (l : list A) :
  (forall a b, In a l -> In b l -> R a b -> R' a b) ->
  StronglySorted R l -> StronglySorted R' l.
Proof.
  intros HR Hs. induction Hs as [|x l Hs IH Hall]; constructor.
  - apply IH. intros a b Ha Hb. apply HR; now right.
  - rewrite Forall_forall in *. intros y Hy. apply HR; [now left|now right|auto].
Qed.

Lemma occurrences_key_count (c : string) (history : list HistoryEntry) :
  occurrences c history = key_count category_key c history.
Proof.
  unfold occurrences, key_count. f_equal. apply filter_ext.
  intros entry. unfold category_key.
  destruct (history_category entry) as [category|]; [|reflexivity].
  destruct (JS.truthy category); reflexivity.
Qed.

Lemma borrow_count_key_count (id : string) (rows : list Borrowing) :
  id <> "" -> borrow_count id rows = key_count popular_key id rows.
Proof.
  intros Hid. unfold borrow_count, key_count. f_equal. apply filter_ext.
  intros b. unfold popular_key. destruct (JS.truthy (bor_bookId b)) eqn:T;
    [reflexivity|].
  apply negb_false_iff, String.eqb_eq in T. rewrite T.
  apply String.eqb_neq. congruence.
Qed.

(** ** Signal collection *)

(** X1.  The derived categories are listed without repetition, the most
    frequent first: a category never precedes one that occurs more often in
    the history. *)
Theorem derived_categories_ranked (history : list HistoryEntry) :
  NoDup (collectTopCategoriesFromHistory history)
  /\ StronglySorted
       (fun a b => occurrences b history <= occurrences a history)
       (collectTopCategoriesFromHistory history).
Proof.
  unfold collectTopCategoriesFromHistory.
  rewrite (fold_left_ext count_category (tally category_key)).
  - destruct (tally_ranking category_key history 2) as [Hnd [_ Hs]].
    split; [exact Hnd|].
    eapply StronglySorted_ext; [|exact Hs].
    intros a b. now rewrite !occurrences_key_count.
  - intros counts entry. unfold count_category, tally, category_key.
    destruct (history_category entry) as [category|]; [|reflexivity].
    destruct (JS.truthy category); reflexivity.
Qed.

Lemma popular_ranking_tally (rows : list Borrowing) :
  popular_ranking rows =
  map fst
    (JS.sort by_count_desc
       (filter (fun e => 1 <=? snd e) (fold_left (tally popular_key) rows []))).
Proof.
  unfold popular_ranking.
  rewrite (fold_left_ext _ (tally popular_key)).
  - rewrite filter_all; [reflexivity|].
    intros [k n] Hin. apply tally_entries in Hin. destruct Hin as [H0 ->].
    simpl. apply Z.leb_le.
    pose proof (key_count_nonneg popular_key k rows). lia.
  - intros counts b. unfold tally, popular_key.
    destruct (JS.truthy (bor_bookId b)); reflexivity.
Qed.

Lemma key_count_positive {A} (key : A -> option string) (k : string) (l : list A) :
  key_count key k l <> 0 <-> exists x, In x l /\ key x = Some k.
Proof.
  unfold key_count, JS.len. split.
  - intros H.
    destruct (filter _ l) as [|x r] eqn:E; [simpl in H; lia|].
    assert (Hx : In x (filter (fun x => match key x with
                                         | Some k' => String.eqb k' k
                                         | None => false
                                         end) l))
      by (rewrite E; now left).
    apply filter_In in Hx. destruct Hx as [Hin Hk].
    exists x. split; [exact Hin|].
    destruct (key x) as [k'|]; [|discriminate].
    apply String.eqb_eq in Hk. now subst.
  - intros [x [Hin Hk]].
    assert (Hx : In x (filter (fun x => match key x with
                                         | Some k' => String.eqb k' k
                                         | None => false
                                         end) l)).
    { apply filter_In. split; [exact Hin|]. rewrite Hk. apply String.eqb_refl. }
    destruct (filter _ l); [destruct Hx|]. simpl. lia.
Qed.

(** X2.  [fetchPopularBookIds] samples at most 300 borrowings, none older
    than 90 days at the clock reading it takes, and returns the non-empty
    book ids of the sample, each once, a more borrowed book never after a
    less borrowed one.  It can only fail at its own query. *)
Theorem popular_ids_ranked (w : World) (s : St) :
  post (fetchPopularBookIds w) s
    (fun ids _ =>
       let sample := popular_rows w (clock w (reads s)) in
       NoDup ids
       /\ (forall id, In id ids <->
             id <> "" /\ exists b, In b sample /\ bor_bookId b = id)
       /\ StronglySorted
            (fun a b => borrow_count b sample <= borrow_count a sample) ids
       /\ JS.len sample <= 300
       /\ forall b, In b sample ->
            In b (borrowings w)
            /\ clock w (reads s) - 90 * MS_PER_DAY <= bor_borrowDate b)
    (fun e _ => e = StorageError PopularSample
                /\ storage_fails w PopularSample = true).
Proof.
  unfold fetchPopularBookIds.
  apply post_bind, post_now, post_bind, post_query; [auto|]. intros _.
  apply post_ret. cbv zeta.
  set (sample := popular_rows w (clock w (reads s))).
  rewrite popular_ranking_tally.
  destruct (tally_ranking popular_key sample 1) as [Hnd [Hin Hs]].
  assert (Hmem : forall id,
             In id (map fst (JS.sort by_count_desc
                               (filter (fun e => 1 <=? snd e)
                                  (fold_left (tally popular_key) sample [])))) <->
             id <> "" /\ exists b, In b sample /\ bor_bookId b = id).
  { intros id. rewrite Hin, key_count_positive. split.
    - intros [[b [Hb Hk]] _]. unfold popular_key in Hk.
      destruct (JS.truthy (bor_bookId b)) eqn:T; [|discriminate].
      inversion Hk; subst. apply truthy_true in T. eauto.
    - intros [Hid [b [Hb <-]]].
      assert (Hk : popular_key b = Some (bor_bookId b)).
      { unfold popular_key. apply truthy_true in Hid. now rewrite Hid. }
      split; [eauto|].
      assert (H0 : key_count popular_key (bor_bookId b) sample <> 0)
        by (apply key_count_positive; eauto).
      pose proof (key_count_nonneg popular_key (bor_bookId b) sample). lia. }
  split; [exact Hnd|]. split; [exact Hmem|]. split; [|split].
  - eapply StronglySorted_ext_in; [|exact Hs].
    intros a b Ha Hb. apply Hmem in Ha, Hb.
    rewrite !borrow_count_key_count by tauto. auto.
  - unfold sample, popular_rows, Prisma.borrowing_findMany, Prisma.take_opt.
    apply (take_length POPULAR_SAMPLE_SIZE). unfold POPULAR_SAMPLE_SIZE. lia.
  - intros b Hb. unfold sample, popular_rows, Prisma.borrowing_findMany in Hb.
    apply take_opt_In in Hb. cbn [Prisma.order_borrowings] in Hb.
    apply stable_sort_In, filter_In in Hb. destruct Hb as [Hin' Hw].
    split; [exact Hin'|].
    unfold Prisma.borrowing_where in Hw. cbn [forallb Prisma.borrowing_matches] in Hw.
    apply andb_true_iff in Hw. destruct Hw as [Hw _]. apply Z.leb_le in Hw.
    unfold POPULAR_LOOKBACK_DAYS in Hw. unfold MS_PER_DAY. lia.
Qed.

Lemma set_from_distinct (l : list string) : NoDup (JS.set_from l).
Proof.
  unfold JS.set_from. generalize (NoDup_nil string).
  generalize (@nil string) as s.
  induction l as [|x r IH]; intros s Hs; simpl; [exact Hs|].
  apply IH. now apply set_add_NoDup.
Qed.

(** X3.  The exclusion set holds each id once.  It consists of the ids the
    caller supplied and of the non-empty book ids of the active borrowings;
    an empty book id is never excluded on account of a borrowing. *)
Theorem exclude_set_members (input : RecommendationInput) (activeBorrowings : list string) :
  NoDup (buildExcludeSet input activeBorrowings)
  /\ forall x,
       In x (buildExcludeSet input activeBorrowings) <->
       In x (default (in_excludeBookIds input) [])
       \/ (x <> "" /\ In x activeBorrowings).
Proof.
  split; [|intros x; apply buildExcludeSet_In].
  unfold buildExcludeSet.
  generalize (set_from_distinct (default (in_excludeBookIds input) [])).
  generalize (JS.set_from (default (in_excludeBookIds input) [])) as base.
  induction activeBorrowings as [|r rows IH]; intros base Hb; simpl; [exact Hb|].
  apply IH. destruct (JS.truthy r); [now apply set_add_NoDup|exact Hb].
Qed.

(** X4.  The explicit interests of the context are the user's interests
    without the empty string and without repetition; a user whose
    interests are null has none. *)
Theorem explicit_interests_clean (user : User) :
  NoDup (user_explicitInterests user)
  /\ (forall x, In x (user_explicitInterests user) <->
                x <> "" /\ In x (default (user_interests user) []))
  /\ (user_interests user = None -> user_explicitInterests user = []).
Proof.
  unfold user_explicitInterests. split; [|split].
  - apply NoDup_filter, set_from_distinct.
  - intros x. rewrite filter_In, set_from_In, truthy_true. tauto.
  - intros ->. reflexivity.
Qed.

(** ** Candidate retrieval *)

Lemma map_get_none {V} (m : list (string * V)) (k : string) :
  JS.map_get m k = None <-> JS.map_has m k = false.
Proof.
  unfold JS.map_has. induction m as [|[k' v] r IH]; simpl.
  - tauto.
  - destruct (String.eqb k k'); simpl; [split; discriminate|exact IH].
Qed.

Lemma map_has_map_set {V} (m : list (string * V)) (k k' : string) (v : V) :
  JS.map_has (JS.map_set m k v) k' = JS.map_has m k' || String.eqb k' k.
Proof.
  pose proof (map_get_map_set m k k' v) as H.
  destruct (String.eqb k' k) eqn:E.
  - rewrite orb_true_r.
    destruct (JS.map_has (JS.map_set m k v) k') eqn:Hh; [reflexivity|].
    apply map_get_none in Hh. congruence.
  - rewrite orb_false_r.
    destruct (JS.map_has m k') eqn:Hm.
    + destruct (JS.map_has (JS.map_set m k v) k') eqn:Hh; [reflexivity|].
      apply map_get_none in Hh. rewrite Hh in H. symmetry in H.
      apply map_get_none in H. congruence.
    + apply map_get_none in Hm. rewrite Hm in H. now apply map_get_none.
Qed.

Lemma book_map_has (rows : list RecommendationCandidate) (m : candidate_map)
    (k : string) :
  JS.map_has (fold_left (fun m book => JS.map_set m (cand_id book) book) rows m) k
  = JS.map_has m k || has_book rows k.
Proof.
  revert m. induction rows as [|r rows IH]; intros m; simpl.
  - now rewrite orb_false_r.
  - rewrite IH, map_has_map_set, <- orb_assoc.
    f_equal. f_equal. apply String.eqb_sym.
Qed.

Lemma has_book_filter (table : list RecommendationCandidate)
    (f : RecommendationCandidate -> bool) (k : string) :
  (forall b, cand_id b = k -> f b = true) ->
  has_book (filter f table) k = has_book table k.
Proof.
  intros Hf. unfold has_book. induction table as [|b table IH]; simpl; [reflexivity|].
  destruct (String.eqb (cand_id b) k) eqn:E.
  - apply String.eqb_eq in E. rewrite (Hf b E). simpl.
    apply String.eqb_eq in E. now rewrite E.
  - destruct (f b); simpl; [rewrite E|]; exact IH.
Qed.

(** The rows of [fetchBooksByIds], in the order of the ids asked for. *)
Lemma fetchBooksByIds_rows (w : World) (bookIds : list string) (s : St) :
  post (fetchBooksByIds w bookIds) s
    (fun rows _ =>
       map cand_id rows = filter (has_book (books w)) bookIds
       /\ forall c, In c rows -> In c (books w))
    (fun e _ =>
       e = StorageError PopularTopUp
       /\ storage_fails w PopularTopUp = true /\ bookIds <> []).
Proof.
  unfold fetchBooksByIds. destruct (JS.len bookIds =? 0) eqn:Hlen.
  - apply len_zero in Hlen. subst. apply post_ret. split; [reflexivity|intros c []].
  - assert (Hne : bookIds <> []) by (intros ->; discriminate).
    apply post_bind, post_query; [auto|]. intros _. apply post_ret.
    set (rows := Prisma.book_findMany (books w) [Prisma.IdIn bookIds] false None).
    set (bookMap := fold_left _ rows []).
    assert (Hget : forall k c, JS.map_get bookMap k = Some c ->
                               cand_id c = k /\ In c rows).
    { intros k c. apply book_map_get. intros k0 c0. discriminate. }
    assert (Hhas : forall k, In k bookIds ->
                             JS.map_has bookMap k = has_book (books w) k).
    { intros k Hk. unfold bookMap. rewrite book_map_has. simpl.
      unfold rows, Prisma.book_findMany. simpl.
      apply has_book_filter. intros b <-.
      unfold Prisma.book_where. simpl. rewrite andb_true_r.
      now apply str_in_In. }
    split.
    + assert (G : forall ids, incl ids bookIds ->
                    map cand_id
                      (flat_map (fun id => match JS.map_get bookMap id with
                                           | Some c => [c]
                                           | None => []
                                           end) ids)
                    = filter (has_book (books w)) ids).
      { induction ids as [|id ids IH]; intros Hincl; simpl; [reflexivity|].
        assert (Hid : In id bookIds) by (apply Hincl; now left).
        rewrite map_app, IH by (intros x Hx; apply Hincl; now right).
        rewrite <- (Hhas id Hid).
        destruct (JS.map_get bookMap id) as [c|] eqn:G.
        - destruct (Hget id c G) as [Hc _].
          destruct (JS.map_has bookMap id) eqn:Hh;
            [simpl; now rewrite Hc|].
          apply map_get_none in Hh. congruence.
        - apply map_get_none in G. rewrite G. reflexivity. }
      apply G, incl_refl.
    + intros c Hc. apply in_flat_map in Hc. destruct Hc as [k [_ Hc]].
      destruct (JS.map_get bookMap k) as [c'|] eqn:G; [|destruct Hc].
      destruct Hc as [<-|[]]. destruct (Hget k c' G) as [_ Hin].
      unfold rows in Hin. now apply book_findMany_In in Hin.
Qed.

(** X5.  [fetchBooksByIds] issues no query for an empty list of ids.
    Otherwise its rows follow the order of the ids asked for: the ids of
    the rows are the ids asked for that the store has a book for, in the
    order asked, and each row is a book of the store under that id. *)
Theorem fetchBooksByIds_order (w : World) (bookIds : list string) (s : St) :
  (bookIds = [] -> fetchBooksByIds w bookIds s = (Returned [], s))
  /\ post (fetchBooksByIds w bookIds) s
       (fun rows _ =>
          map cand_id rows = filter (has_book (books w)) bookIds
          /\ forall c, In c rows -> In c (books w))
       (fun e _ =>
          e = StorageError PopularTopUp
          /\ storage_fails w PopularTopUp = true /\ bookIds <> []).
Proof.
  split; [intros ->; reflexivity|apply fetchBooksByIds_rows].
Qed.

Lemma candidate_where_cases (filters : CandidateFilters) (b : RecommendationCandidate) :
  Prisma.book_where (candidate_where filters) b = true <->
  0 < cand_availableCopies b
  /\ ~ In (cand_id b) (f_excludeIds filters)
  /\ ((f_categories filters = []
       /\ (f_department filters = None \/ f_department filters = Some ""))
      \/ In (cand_category b) (f_categories filters)
      \/ exists d, f_department filters = Some d /\ d <> ""
                   /\ cand_department b = d).
Proof.
  unfold candidate_where, Prisma.book_where.
  cbn [app forallb Prisma.book_matches].
  rewrite !andb_true_iff, Z.ltb_lt, negb_true_iff.
  assert (Hex : Prisma.str_in (cand_id b) (f_excludeIds filters) = false
                <-> ~ In (cand_id b) (f_excludeIds filters)) by apply set_has_false.
  rewrite Hex.
  assert (Hcat : Prisma.str_in (cand_category b) (f_categories filters) = true
                 <-> In (cand_category b) (f_categories filters)) by apply str_in_In.
  destruct (JS.len (f_categories filters) =? 0) eqn:Hc.
  - apply len_zero in Hc. rewrite Hc. cbn [negb app].
    destruct (f_department filters) as [d|].
    + destruct (JS.truthy d) eqn:T.
      * apply truthy_true in T. simpl. rewrite orb_false_r, andb_true_r, String.eqb_eq.
        split.
        -- intros [H1 [H2 H3]]. repeat split; auto. right. right. exists d. auto.
        -- intros [H1 [H2 [[_ [H|H]]|[[]|[d' [H [_ H']]]]]]]; try discriminate.
           ++ inversion H; subst. now contradiction T.
           ++ inversion H; subst. auto.
      * apply negb_false_iff, String.eqb_eq in T. subst d. simpl.
        split.
        -- intros [H1 [H2 _]]. repeat split; auto.
        -- intros [H1 [H2 _]]. auto.
    + simpl. split.
      * intros [H1 [H2 _]]. repeat split; auto.
      * intros [H1 [H2 _]]. auto.
  - assert (Hne : f_categories filters <> []).
    { intros E. rewrite E in Hc. discriminate. }
    cbn [negb app].
    destruct (f_department filters) as [d|].
    + destruct (JS.truthy d) eqn:T.
      * apply truthy_true in T. simpl.
        rewrite orb_false_r, andb_true_r, orb_true_iff, Hcat, String.eqb_eq.
        split.
        -- intros [H1 [H2 [H|H]]]; repeat split; auto.
           right. right. exists d. auto.
        -- intros [H1 [H2 [[H _]|[H|[d' [H [_ H']]]]]]]; try contradiction; auto.
           inversion H; subst. auto.
      * apply negb_false_iff, String.eqb_eq in T. subst d. simpl.
        rewrite orb_false_r, andb_true_r, Hcat.
        split.
        -- intros [H1 [H2 H]]. auto.
        -- intros [H1 [H2 [[H _]|[H|[d' [H [H' _]]]]]]]; try contradiction; auto.
           inversion H; subst. now contradiction H'.
    + simpl. rewrite orb_false_r, andb_true_r, Hcat.
      split.
      * intros [H1 [H2 H]]. auto.
      * intros [H1 [H2 [[H _]|[H|[d' [H _]]]]]]; try contradiction; auto.
        discriminate.
Qed.

(** X6.  Every row of the primary tier is a book of the store with a
    positive number of available copies and an id outside the exclusion
    set; it belongs to one of the categories asked for or to the
    department asked for, unless neither a category nor a non-empty
    department was given, in which case nothing more is required.  The rows
    come newest first and are at most [limit] (the filter's limit, when it
    is not negative). *)
Theorem primary_rows_filtered (w : World) (filters : CandidateFilters) (s : St) :
  post (fetchCandidateBooks w filters) s
    (fun rows _ =>
       (forall c, In c rows ->
          In c (books w)
          /\ 0 < cand_availableCopies c
          /\ ~ In (cand_id c) (f_excludeIds filters)
          /\ ((f_categories filters = []
               /\ (f_department filters = None \/ f_department filters = Some ""))
              \/ In (cand_category c) (f_categories filters)
              \/ exists d, f_department filters = Some d /\ d <> ""
                           /\ cand_department c = d))
       /\ StronglySorted (fun a b => cand_addedAt b <= cand_addedAt a) rows
       /\ (0 <= f_limit filters -> JS.len rows <= f_limit filters))
    (fun e _ => e = StorageError PrimaryTier /\ storage_fails w PrimaryTier = true).
Proof.
  unfold fetchCandidateBooks. apply post_query; [auto|]. intros _.
  unfold Prisma.book_findMany, Prisma.take_opt, Prisma.order_books.
  split; [|split].
  - intros c Hc. apply take_In, stable_sort_In, filter_In in Hc.
    destruct Hc as [Hin Hw]. split; [exact Hin|].
    now apply candidate_where_cases.
  - apply StronglySorted_take.
    eapply StronglySorted_ext;
      [|apply (stable_sort_sorted Prisma.addedAt_desc)];
      unfold Prisma.addedAt_desc; intros; lia.
  - intros Hl. now apply take_length.
Qed.

Lemma set_missing_noop (rows : list RecommendationCandidate) (m : candidate_map) :
  (forall c, In c rows -> JS.map_has m (cand_id c) = true) ->
  set_missing m rows = m.
Proof.
  induction rows as [|r rows IH]; intros H; [reflexivity|].
  rewrite set_missing_cons, (H r (or_introl eq_refl)). simpl.
  apply IH. intros c Hc. apply H. now right.
Qed.

Lemma has_book_In (rows : list RecommendationCandidate) (c : RecommendationCandidate) :
  In c rows -> has_book rows (cand_id c) = true.
Proof.
  intros H. unfold has_book. apply existsb_exists. exists c.
  split; [exact H|apply String.eqb_refl].
Qed.

(** X7.  For a user with no category to look for and no non-empty
    department, the primary query carries no category or department
    condition: its rows are those of the broad fallback query, and merging
    the fallback rows into the primary candidates adds nothing. *)
Theorem unfiltered_primary_is_fallback (w : World) (excludeIds : list string)
    (limit : Z) (department : option string) :
  department = None \/ department = Some "" ->
  let rows :=
    Prisma.book_findMany (books w)
      (candidate_where
         {| f_categories := []; f_department := department;
            f_excludeIds := excludeIds; f_limit := limit * 3 |})
      true (Some (limit * 3)) in
  rows = fallback_rows w excludeIds limit
  /\ set_missing (set_all [] rows) (fallback_rows w excludeIds limit)
     = set_all [] rows.
Proof.
  intros Hd rows.
  assert (E : rows = fallback_rows w excludeIds limit).
  { unfold rows, fallback_rows. destruct Hd as [-> | ->]; reflexivity. }
  split; [exact E|]. rewrite <- E.
  apply set_missing_noop. intros c Hc.
  unfold set_all. rewrite book_map_has. simpl. now apply has_book_In.
Qed.

Lemma unfiltered_primary_is_fallback_witness :
  (@None string = None \/ @None string = Some "")
  /\ Prisma.book_findMany (books Campus.world)
       (candidate_where
          {| f_categories := []; f_department := None;
             f_excludeIds := ["b3"]; f_limit := 6 * 3 |})
       true (Some (6 * 3))
     = fallback_rows Campus.world ["b3"] 6.
Proof.
  assert (H : @None string = None \/ @None string = Some "") by (left; reflexivity).
  split; [exact H|].
  exact (proj1 (unfiltered_primary_is_fallback Campus.world ["b3"] 6 None H)).
Defined.

(** ** The candidate map *)

Lemma map_set_In {V} (m : list (string * V)) (k0 k : string) (v0 v : V) :
  In (k, v) (JS.map_set m k0 v0) -> (k = k0 /\ v = v0) \/ In (k, v) m.
Proof.
  induction m as [|[k' v'] r IH]; simpl.
  - intros [H|[]]. inversion H. auto.
  - destruct (String.eqb k0 k') eqn:E; simpl.
    + apply String.eqb_eq in E. subst k'.
      intros [H|H]; [inversion H; auto|auto].
    + intros [H|H]; [auto|]. destruct (IH H); auto.
Qed.

Lemma keys_ok_set (m : candidate_map) (c : RecommendationCandidate) :
  keys_ok m -> keys_ok (JS.map_set m (cand_id c) c).
Proof.
  intros [Hnd Hk]. split; [now apply map_set_NoDup|].
  intros k c' Hin. apply map_set_In in Hin.
  destruct Hin as [[-> ->]|Hin]; [reflexivity|now apply Hk].
Qed.

Lemma keys_ok_set_all (rows : list RecommendationCandidate) (m : candidate_map) :
  keys_ok m -> keys_ok (set_all m rows).
Proof.
  unfold set_all. revert m. induction rows as [|r rows IH]; intros m H; [exact H|].
  simpl. now apply IH, keys_ok_set.
Qed.

Lemma keys_ok_set_missing (rows : list RecommendationCandidate) (m : candidate_map) :
  keys_ok m -> keys_ok (set_missing m rows).
Proof.
  revert m. induction rows as [|r rows IH]; intros m H; [exact H|].
  rewrite set_missing_cons. apply IH.
  destruct (negb (JS.map_has m (cand_id r))); [now apply keys_ok_set|exact H].
Qed.

Lemma map_set_size {V} (m : list (string * V)) (k : string) (v : V) :
  JS.map_size (JS.map_set m k v) <= JS.map_size m + 1.
Proof.
  unfold JS.map_size. induction m as [|[k' v'] r IH]; simpl List.length.
  - lia.
  - destruct (String.eqb k k'); simpl List.length; lia.
Qed.

Lemma set_all_size (rows : list RecommendationCandidate) (m : candidate_map) :
  JS.map_size (set_all m rows) <= JS.map_size m + JS.len rows.
Proof.
  unfold set_all, JS.len. revert m.
  induction rows as [|r rows IH]; intros m; simpl fold_left.
  - simpl. lia.
  - specialize (IH (JS.map_set m (cand_id r) r)).
    pose proof (map_set_size m (cand_id r) r). simpl List.length. lia.
Qed.

Lemma set_missing_size (rows : list RecommendationCandidate) (m : candidate_map) :
  JS.map_size (set_missing m rows) <= JS.map_size m + JS.len rows.
Proof.
  unfold JS.len. revert m.
  induction rows as [|r rows IH]; intros m.
  - simpl. lia.
  - rewrite set_missing_cons.
    specialize (IH (if negb (JS.map_has m (cand_id r))
                    then JS.map_set m (cand_id r) r else m)).
    pose proof (map_set_size m (cand_id r) r).
    destruct (negb (JS.map_has m (cand_id r))); simpl List.length; lia.
Qed.

Lemma map_size_nonneg {V} (m : list (string * V)) : 0 <= JS.map_size m.
Proof. unfold JS.map_size. lia. Qed.

(** What [fetchBooksByIds] returns and does, together. *)
Lemma fetchBooksByIds_full (w : World) (bookIds : list string) (s : St) :
  post (fetchBooksByIds w bookIds) s
    (fun rows s' =>
       JS.len rows <= JS.len bookIds
       /\ (forall c, In c rows -> In c (books w))
       /\ ((rows = [] /\ s' = s) \/ s' = emit (Query PopularTopUp) s))
    (fun _ s' => s' = emit (Query PopularTopUp) s).
Proof.
  pose proof (fetchBooksByIds_rows w bookIds s) as H.
  unfold post in *. unfold fetchBooksByIds in *.
  destruct (JS.len bookIds =? 0) eqn:Hlen.
  - simpl. apply len_zero in Hlen. subst.
    split; [unfold JS.len; simpl; lia|]. split; [intros c []|auto].
  - unfold bind, query in *. destruct (storage_fails w PopularTopUp); [reflexivity|].
    simpl in *. destruct H as [Hmap Hin]. split; [|split; [exact Hin|now right]].
    unfold JS.len.
    rewrite <- (length_map cand_id), Hmap.
    pose proof (filter_length_le (has_book (books w)) bookIds). lia.
Qed.

(** The fallback block keeps the candidate map well keyed and made of
    books of the store, lets it grow to fewer than [4 * limit] entries, and
    brings in a book without available copies only through the top-up
    query. *)
Lemma broadenCandidates_invariants (w : World) (limit : Z)
    (excludeIds popularIdSet : list string) (cm : candidate_map) (s : St) :
  keys_ok cm ->
  (forall c, In c (JS.map_values cm) -> In c (books w) /\ 0 < cand_availableCopies c) ->
  post (broadenCandidates w limit excludeIds popularIdSet cm) s
    (fun out s' =>
       keys_ok (fst out)
       /\ (forall c, In c (JS.map_values (fst out)) -> In c (books w))
       /\ JS.map_size (fst out) <= Z.max (JS.map_size cm) (4 * limit)
       /\ (In (Query PopularTopUp) (trace s')
           \/ forall c, In c (JS.map_values (fst out)) -> 0 < cand_availableCopies c)
       /\ reads s' = reads s
       /\ exists evs, trace s' = trace s ++ evs)
    (fun _ _ => True).
Proof.
  intros Hk Hv. unfold broadenCandidates.
  destruct (JS.map_size cm <? limit) eqn:Hlt.
  2:{ apply post_ret. cbn [fst snd trace emit reads]. split; [exact Hk|]. split; [intros c Hc; now apply Hv|].
      split; [lia|]. split; [right; intros c Hc; now apply Hv|].
      split; [reflexivity|]. exists []. now rewrite app_nil_r. }
  apply Z.ltb_lt in Hlt.
  pose proof (map_size_nonneg cm) as H0.
  apply post_bind, post_query; [auto|]. intros _.
  set (fb := fallback_rows w excludeIds limit).
  set (cm1 := set_missing cm fb).
  destruct (fallback_rows_spec w excludeIds limit) as [_ [Hfb [_ Hlen]]].
  fold fb in Hfb, Hlen. specialize (Hlen ltac:(lia)).
  assert (Hk1 : keys_ok cm1) by now apply keys_ok_set_missing.
  assert (Hv1 : forall c, In c (JS.map_values cm1) ->
                          In c (books w) /\ 0 < cand_availableCopies c).
  { intros c Hc. apply set_missing_values in Hc. destruct Hc as [Hc|Hc]; [auto|].
    destruct (Hfb c Hc) as [? [? _]]. auto. }
  assert (Hs1 : JS.map_size cm1 <= JS.map_size cm + 3 * limit).
  { pose proof (set_missing_size fb cm). fold cm1 in H. lia. }
  destruct ((JS.map_size cm1 <? limit) && negb (JS.len popularIdSet =? 0)) eqn:Htop.
  - apply andb_true_iff in Htop. destruct Htop as [Hlt1 _]. apply Z.ltb_lt in Hlt1.
    apply post_bind.
    eapply post_weaken; [apply fetchBooksByIds_full| |auto].
    intros rows s' [Hrl [Hrin Hst]]. apply post_ret. cbn [fst snd trace emit reads].
    split; [now apply keys_ok_set_missing|].
    split.
    { intros c Hc. apply set_missing_values in Hc.
      destruct Hc as [Hc|Hc]; [now apply Hv1|now apply Hrin]. }
    split.
    { pose proof (set_missing_size rows cm1).
      pose proof (slice0_length (limit * 2)
                    (filter (fun bookId =>
                               negb (JS.map_has cm1 bookId)
                               && negb (JS.set_has excludeIds bookId))
                            popularIdSet) ltac:(lia)).
      lia. }
    destruct Hst as [[-> ->]| ->]; cbn [trace emit reads].
    + split; [right; intros c Hc; now apply Hv1|].
      split; [reflexivity|]. exists [Query BroadFallback]. reflexivity.
    + split; [left; rewrite !in_app_iff; simpl; auto|].
      split; [reflexivity|].
      exists [Query BroadFallback; Query PopularTopUp].
      now rewrite <- app_assoc.
  - apply post_ret. cbn [fst snd trace emit reads].
    split; [exact Hk1|]. split; [intros c Hc; now apply Hv1|].
    split; [lia|]. split; [right; intros c Hc; now apply Hv1|].
    split; [reflexivity|]. exists [Query BroadFallback]. reflexivity.
Qed.

(** The candidates behind a result: a well-keyed map of books of the
    store, of at most [4 * limit] entries, whose books all have available
    copies unless the top-up query ran. *)
Lemma getPersonalizedRecommendations_candidates (w : World) (input : RecommendationInput) :
  post (getPersonalizedRecommendations w input) initial
    (fun r s1 =>
       (Prisma.user_findUnique (users w) (in_userId input) = None ->
        res_items r = [])
       /\ forall user,
            Prisma.user_findUnique (users w) (in_userId input) = Some user ->
            exists cm fallbackUsed,
              keys_ok cm
              /\ (forall c, In c (JS.map_values cm) -> In c (books w))
              /\ (0 <= limit_of input -> JS.map_size cm <= 4 * limit_of input)
              /\ (In (Query PopularTopUp) (trace s1)
                  \/ forall c, In c (JS.map_values cm) -> 0 < cand_availableCopies c)
              /\ (res_items r =
                  scored_items (limit_of input) (context_of w user fallbackUsed)
                    (popular_set w (clock w 0%nat)) (clock w 1%nat)
                    (JS.map_values cm)
                  \/ exists snapshot,
                       dataset w = Some snapshot
                       /\ res_items r = bridge_items w input user snapshot))
    (fun _ _ => True).
Proof.
  unfold getPersonalizedRecommendations.
  apply post_bind, post_query; [auto|]. intros _.
  destruct (Prisma.user_findUnique (users w) (in_userId input)) as [user|] eqn:Hu.
  2:{ apply post_ret. split; [reflexivity|]. intros u Hu'. discriminate. }
  apply post_bind, post_all_queries; [auto|auto|intros _ _].
  apply post_bind. unfold fetchPopularBookIds.
  apply post_bind, post_now, post_bind, post_query; [auto|]. intros _.
  apply post_ret. apply post_bind. unfold fetchCandidateBooks.
  apply post_query; [auto|]. intros _.
  fold (limit_of input). fold (exclusion_set w input user).
  fold (primary_map w input user). fold (popular_set w (clock w 0%nat)).
  assert (Hk0 : keys_ok (primary_map w input user)).
  { apply keys_ok_set_all. split; [constructor|intros k c []]. }
  assert (Hv0 : forall c, In c (JS.map_values (primary_map w input user)) ->
                          In c (books w) /\ 0 < cand_availableCopies c).
  { intros c Hc. apply set_all_values in Hc. destruct Hc as [[]|Hc].
    apply book_findMany_In in Hc. destruct Hc as [Hin Hw]. split; [exact Hin|].
    eapply book_where_available; [|exact Hw]. unfold candidate_where. simpl. auto. }
  assert (Hs0 : 0 <= limit_of input ->
                JS.map_size (primary_map w input user) <= 3 * limit_of input).
  { intros Hl. unfold primary_map.
    match goal with
    | |- JS.map_size (set_all [] ?rows) <= _ =>
        pose proof (set_all_size rows []) as H1;
        assert (H2 : JS.len rows <= limit_of input * 3)
    end.
    { unfold Prisma.book_findMany, Prisma.take_opt. apply take_length. lia. }
    unfold JS.map_size in H1 at 2. simpl List.length in H1. lia. }
  apply post_bind.
  eapply post_weaken; [apply (broadenCandidates_invariants _ _ _ _ _ _ Hk0 Hv0)| |auto].
  intros [cm fu] s' [Hk [Hv [Hs [Hav [Hreads [evs Ht]]]]]].
  cbn [fst snd trace reads emit] in *.
  apply post_bind. unfold enrichCandidates.
  apply post_bind, post_now, post_ret. rewrite Hreads.
  fold (context_of w user fu).
  match goal with
  | |- context [JS.slice0 ?l (JS.sort ?c (map ?f ?cs))] =>
      change (JS.slice0 l (JS.sort c (map f cs)))
        with (scored_items (limit_of input) (context_of w user fu)
                (popular_set w (clock w 0%nat)) (clock w 1%nat)
                (JS.map_values cm))
  end.
  set (items := scored_items _ _ _ _ _).
  assert (Hfacts : forall more,
             keys_ok cm
             /\ (forall c, In c (JS.map_values cm) -> In c (books w))
             /\ (0 <= limit_of input -> JS.map_size cm <= 4 * limit_of input)
             /\ (In (Query PopularTopUp) (trace s' ++ more)
                 \/ forall c, In c (JS.map_values cm) -> 0 < cand_availableCopies c)).
  { intros more. split; [exact Hk|]. split; [exact Hv|]. split.
    - intros Hl. specialize (Hs0 Hl). lia.
    - destruct Hav as [Hav|Hav]; [left; apply in_or_app; now left|now right]. }
  apply post_bind.
  destruct (JS.len items =? 0) eqn:Hlen.
  - apply post_bind. unfold post at 1. rewrite buildDatasetFallback_eval.
    apply len_zero in Hlen.
    destruct (dataset w) as [snapshot|] eqn:Hd.
    + fold (bridge_sorted w input user snapshot).
      destruct (bridge_sorted w input user snapshot) as [sorted|e] eqn:Hsorted.
      * assert (bridge_items w input user snapshot = map to_recommendation sorted)
          as Hbi by (unfold bridge_items; now rewrite Hsorted).
        rewrite <- Hbi.
        destruct (negb (JS.len (bridge_items w input user snapshot) =? 0)) eqn:Hb;
          apply post_ret, post_ret; (split; [intros; discriminate|]);
          intros u Hu'; inversion Hu'; subst u; exists cm, fu;
          destruct (Hfacts [GetAllBooks]) as [F1 [F2 [F3 F4]]];
          cbn [trace emit res_items];
          (split; [exact F1|]); (split; [exact F2|]); (split; [exact F3|]);
          (split; [exact F4|]).
        -- right. exists snapshot. split; reflexivity.
        -- left. fold items. now rewrite Hlen.
      * apply post_ret, post_ret. split; [intros; discriminate|].
        intros u Hu'. inversion Hu'; subst u. exists cm, fu.
        destruct (Hfacts [GetAllBooks; ConsoleError dataset_error_message])
          as [F1 [F2 [F3 F4]]].
        cbn [trace emit res_items]. rewrite <- app_assoc.
        split; [exact F1|]. split; [exact F2|]. split; [exact F3|].
        split; [exact F4|]. left. fold items. now rewrite Hlen.
    + apply post_ret, post_ret. split; [intros; discriminate|].
      intros u Hu'. inversion Hu'; subst u. exists cm, fu.
      destruct (Hfacts [GetAllBooks; ConsoleError dataset_error_message])
        as [F1 [F2 [F3 F4]]].
      cbn [trace emit res_items]. rewrite <- app_assoc.
      split; [exact F1|]. split; [exact F2|]. split; [exact F3|].
      split; [exact F4|]. left. fold items. now rewrite Hlen.
  - apply post_ret, post_ret. split; [intros; discriminate|].
    intros u Hu'. inversion Hu'; subst u. exists cm, fu.
    destruct (Hfacts []) as [F1 [F2 [F3 F4]]]. rewrite app_nil_r in F4.
    cbn [trace emit res_items].
    split; [exact F1|]. split; [exact F2|]. split; [exact F3|].
    split; [exact F4|]. left. reflexivity.
Qed.

Lemma NoDup_map_slice0 {A B} (f : A -> B) (n : Z) (l : list A) :
  NoDup (map f l) -> NoDup (map f (JS.slice0 n l)).
Proof.
  intros H. destruct (slice0_prefix n l) as [rest E].
  rewrite E, map_app in H. now apply NoDup_app_remove_r in H.
Qed.

Lemma NoDup_map_sort {A B} (f : A -> B) (cmp : A -> A -> Z) (l : list A) :
  NoDup (map f l) -> NoDup (map f (JS.sort cmp l)).
Proof.
  apply NoDup_map_perm. symmetry. apply stable_sort_perm.
Qed.

Lemma filter_keeps_distinct {K E} (key : E -> K) (keep : E -> bool) (xs : list E) :
  NoDup (map key xs) -> NoDup (map key (filter keep xs)).
Proof.
  intros Hnd. induction xs as [|x xs IH]; [constructor|].
  cbn [map filter] in *. inversion Hnd as [|? ? Hfresh Hrest]; subst.
  destruct (keep x); cbn [map]; [|now apply IH].
  constructor; [|now apply IH].
  intros Hin. apply Hfresh. apply in_map_iff in Hin.
  destruct Hin as [y [Hy Hin]]. apply filter_In in Hin.
  apply in_map_iff. exists y. tauto.
Qed.

Lemma NoDup_map_injective {A B} (f : A -> B) (l : list A) :
  (forall x y, f x = f y -> x = y) -> NoDup l -> NoDup (map f l).
Proof.
  intros Hf. induction 1 as [|x l Hnotin Hnd IH]; simpl; constructor; [|exact IH].
  intros Hin. apply in_map_iff in Hin. destruct Hin as [y [Hy Hin]].
  apply Hf in Hy. now subst.
Qed.

Lemma keys_ok_ids (cm : candidate_map) :
  keys_ok cm -> NoDup (map cand_id (JS.map_values cm)).
Proof.
  intros [Hnd Hk]. unfold JS.map_values. rewrite map_map.
  erewrite map_ext_in; [exact Hnd|].
  intros [k c] Hin. simpl. symmetry. now apply Hk.
Qed.

Lemma enrichCandidate_id context popularIds derivedCategorySet nowDate c :
  rec_id (enrichCandidate context popularIds derivedCategorySet nowDate c) = cand_id c
  /\ rec_availableCopies
       (enrichCandidate context popularIds derivedCategorySet nowDate c)
     = cand_availableCopies c.
Proof. split; reflexivity. Qed.

Lemma scored_items_ids limit context popularIdSet nowDate candidates :
  NoDup (map cand_id candidates) ->
  NoDup (map rec_id (scored_items limit context popularIdSet nowDate candidates)).
Proof.
  intros H. unfold scored_items.
  apply NoDup_map_slice0, NoDup_map_sort. now rewrite map_map.
Qed.

Lemma scored_entry_book explicitInterests department book :
  sb_book (scored_entry explicitInterests department book) = book.
Proof.
  unfold scored_entry.
  destruct (match_tokens _ _ _ _ _) as [[score reasons] matched].
  destruct (signal _ 2 _ _) as [score1 reasons1].
  destruct (signal _ 1 _ _) as [score2 reasons2]. reflexivity.
Qed.

Lemma bridge_items_ids w input user snapshot :
  NoDup (map lb_id snapshot) ->
  NoDup (map rec_id (bridge_items w input user snapshot)).
Proof.
  intros H.
  destruct (bridge_items_cases w input user snapshot) as [(e & _ & ->)|[_ ->]];
    [constructor|].
  unfold sorted_entries. rewrite map_map.
  apply NoDup_map_slice0, NoDup_map_sort. rewrite map_map.
  erewrite map_ext.
  2:{ intros book. cbn [to_recommendation rec_id].
      rewrite scored_entry_book. reflexivity. }
  rewrite <- (map_map lb_id (String.append "dataset-")).
  apply NoDup_map_injective.
  - intros x y E. simpl in E. now inversion E.
  - now apply filter_keeps_distinct.
Qed.

(** X8.  No id is recommended twice.  The scored path keeps one candidate
    per id; the dataset bridge keeps one item per snapshot entry, so its
    ids are distinct when those of the snapshot are. *)
Theorem recommended_ids_distinct (w : World) (input : RecommendationInput) :
  (forall snapshot, dataset w = Some snapshot -> NoDup (map lb_id snapshot)) ->
  post (getPersonalizedRecommendations w input) initial
    (fun r _ => NoDup (map rec_id (res_items r)))
    (fun e _ => True).
Proof.
  intros Hsnap.
  eapply post_weaken; [apply getPersonalizedRecommendations_candidates| |auto].
  intros r s1 [Hnone Hsome].
  destruct (Prisma.user_findUnique (users w) (in_userId input)) as [user|].
  - destruct (Hsome user eq_refl) as [cm [fu [Hk [_ [_ [_ [-> |[snapshot [Hd ->]]]]]]]]].
    + apply scored_items_ids. now apply keys_ok_ids.
    + apply bridge_items_ids. now apply Hsnap.
  - rewrite Hnone by reflexivity. constructor.
Qed.

Lemma recommended_ids_distinct_witness :
  (forall snapshot, dataset Campus.world = Some snapshot -> NoDup (map lb_id snapshot))
  /\ post (getPersonalizedRecommendations Campus.world Campus.request) initial
       (fun r _ => NoDup (map rec_id (res_items r)))
       (fun e _ => True).
Proof.
  assert (H : forall snapshot,
             dataset Campus.world = Some snapshot -> NoDup (map lb_id snapshot)).
  { intros snapshot E. inversion E; subst.
    repeat constructor; simpl; intuition discriminate. }
  split; [exact H|].
  exact (recommended_ids_distinct Campus.world Campus.request H).
Defined.

(** X9.  Every recommendation shows at least one available copy, unless
    the popularity top-up query ran: the primary and the broad query ask
    for available books and the bridge floors the count at 1, but the
    top-up fetches popular books by id whatever their availability. *)
Theorem available_unless_top_up (w : World) (input : RecommendationInput) :
  post (getPersonalizedRecommendations w input) initial
    (fun r s1 =>
       In (Query PopularTopUp) (trace s1)
       \/ forall item, In item (res_items r) -> 1 <= rec_availableCopies item)
    (fun e _ => True).
Proof.
  eapply post_weaken; [apply getPersonalizedRecommendations_candidates| |auto].
  intros r s1 [Hnone Hsome].
  destruct (Prisma.user_findUnique (users w) (in_userId input)) as [user|].
  - destruct (Hsome user eq_refl)
      as [cm [fu [_ [_ [_ [[Htop|Hav] [-> |[snapshot [Hd ->]]]]]]]]];
      try (left; exact Htop); right; intros item Hitem.
    + apply scored_items_In in Hitem. destruct Hitem as [c [Hc ->]].
      cbn [enrichCandidate rec_availableCopies]. specialize (Hav c Hc). lia.
    + apply bridge_items_In in Hitem. destruct Hitem as [book [_ [_ ->]]].
      cbn [to_recommendation rec_availableCopies]. lia.
  - right. rewrite Hnone by reflexivity. intros item [].
Qed.

(** ** Flags and reasons *)

(** X10.  In the scored path the flags agree with the reasons shown: a
    recommendation is flagged as a new arrival exactly when it carries the
    new-arrival reason, flagged as popular exactly when it carries the
    popularity reason, and the baseline reason is never mixed with
    another. *)
Theorem flags_match_reasons (context : RecommendationContext)
    (popularIds derivedCategorySet : list string) (nowDate : Z)
    (candidate : RecommendationCandidate) :
  let r := enrichCandidate context popularIds derivedCategorySet nowDate candidate in
  (rec_isNewArrival r = true <-> In reason_new (rec_reasons r))
  /\ (rec_isPopular r = true <-> In reason_popular (rec_reasons r))
  /\ (In reason_baseline (rec_reasons r) <-> rec_reasons r = [reason_baseline])
  /\ (In reason_baseline (rec_reasons r) ->
      rec_isNewArrival r = false /\ rec_isPopular r = false /\ rec_score r = 1).
Proof.
  destruct (enrichCandidate_signals context popularIds derivedCategorySet
              nowDate candidate) as [Hs Hr].
  cbv zeta in *. rewrite Hs, Hr.
  change (rec_isNewArrival
            (enrichCandidate context popularIds derivedCategorySet nowDate candidate))
    with (sig_new (signals_of context popularIds derivedCategorySet nowDate candidate)).
  change (rec_isPopular
            (enrichCandidate context popularIds derivedCategorySet nowDate candidate))
    with (sig_popular
            (signals_of context popularIds derivedCategorySet nowDate candidate)).
  generalize (signals_of context popularIds derivedCategorySet nowDate candidate).
  intros [[] [] [] [] []]; unfold signal_sum, signal_reasons; simpl;
    repeat split; intros; try reflexivity; try discriminate;
    intuition discriminate.
Qed.

(** ** Scoring in the dataset bridge *)

Lemma match_tokens_score searchable explicitInterests tokens index score reasons matched :
  fst (fst (match_tokens searchable explicitInterests tokens index
              (score, reasons, matched)))
  = score + 3 * JS.len (filter (JS.includes searchable) tokens).
Proof.
  revert index score reasons matched.
  induction tokens as [|token rest IH]; intros index score reasons matched.
  - unfold JS.len. simpl. lia.
  - cbn [match_tokens filter]. destruct (JS.includes searchable token).
    + rewrite IH. unfold JS.len. cbn [List.length]. rewrite Nat2Z.inj_succ. lia.
    + apply IH.
Qed.

Lemma scored_entry_score (explicitInterests : list string)
    (department : option string) (book : LibraryBook) :
  let tokens :=
    filter (fun t => negb (String.eqb t ""))
      (map interest_token explicitInterests) in
  let hits := JS.len (filter (JS.includes (searchable_text book)) tokens) in
  sb_score (scored_entry explicitInterests department book)
  = 1 + 3 * hits
    + delta (same_department department book) 2
    + delta (5 <=? lb_copies book) 1
  /\ 0 <= hits <= JS.len explicitInterests.
Proof.
  cbv zeta. split.
  - unfold scored_entry. fold (searchable_text book).
    pose proof (match_tokens_score (searchable_text book) explicitInterests
                  (interest_tokens explicitInterests) 0%nat 1 [] None) as Hm.
    destruct (match_tokens _ _ _ _ _) as [[score reasons] matched].
    cbn [fst] in Hm. subst score.
    unfold signal, delta.
    destruct (same_department _ _), (5 <=? lb_copies book);
      cbn [fst snd sb_score]; unfold interest_tokens, JS.truthy, interest_token; lia.
  - unfold JS.len. split; [lia|].
    apply Nat2Z.inj_le.
    etransitivity; [apply filter_length_le|].
    etransitivity; [apply filter_length_le|].
    now rewrite length_map.
Qed.

(** X11.  When the scoring of a bridge entry returns, its score is 1, plus 3
    for every interest token (a non-blank interest, trimmed, in lower case)
    that occurs in the lower-cased title and author, plus 2 when the
    departments agree up to case, plus 1 when it has at least 5 copies; the
    recommendation carries that score.  The scoring throws, a [TypeError],
    exactly when the user has a department and that of the entry is not a
    string. *)
Theorem bridge_score_formula (explicitInterests : list string)
    (department : option string) (book : LibraryBook) :
  let tokens :=
    filter (fun t => negb (String.eqb t ""))
      (map interest_token explicitInterests) in
  let hits := JS.len (filter (JS.includes (searchable_text book)) tokens) in
  match score_book explicitInterests department book with
  | Returned entry =>
      throws_on department book = false
      /\ dataset_department_matches department (lb_department book)
         = Returned (same_department department book)
      /\ sb_score entry
         = 1 + 3 * hits
           + delta (same_department department book) 2
           + delta (5 <=? lb_copies book) 1
      /\ rec_score (to_recommendation entry) = sb_score entry
  | Thrown e =>
      e = TypeError /\ throws_on department book = true
      /\ dataset_department_matches department (lb_department book) = Thrown TypeError
  end
  /\ 0 <= hits <= JS.len explicitInterests.
Proof.
  cbv zeta.
  destruct (scored_entry_score explicitInterests department book) as [Hscore Hhits].
  cbv zeta in Hscore, Hhits. split; [|exact Hhits].
  rewrite score_book_cases, dataset_department_matches_cases.
  destruct (throws_on department book).
  - repeat split.
  - split; [reflexivity|]. split; [reflexivity|]. split; [exact Hscore|reflexivity].
Qed.

Lemma toLowerCase_empty (s : string) : JS.toLowerCase s = "" <-> s = "".
Proof. destruct s; simpl; split; intros H; try reflexivity; discriminate. Qed.

Lemma match_tokens_aligned (searchable : string) (rest pre : list string)
    (score : Z) (reasons : list string) (matched : option string) :
  let hit := fun i => JS.includes searchable (interest_token i) in
  match_tokens searchable (pre ++ rest) (map interest_token rest)
    (List.length pre) (score, reasons, matched)
  = (score + 3 * JS.len (filter hit rest),
     fold_left JS.set_add (map reason_interest (filter hit rest)) reasons,
     fold_left remember_first (map Some (filter hit rest)) matched).
Proof.
  cbv zeta. revert pre score reasons matched.
  induction rest as [|i rest IH]; intros pre score reasons matched.
  - unfold JS.len. simpl. f_equal. f_equal. lia.
  - cbn [map match_tokens filter].
    assert (Hnth : nth_error (pre ++ i :: rest) (List.length pre) = Some i).
    { rewrite nth_error_app2 by lia. now rewrite Nat.sub_diag. }
    rewrite Hnth.
    replace (pre ++ i :: rest) with ((pre ++ [i]) ++ rest)
      by (rewrite <- app_assoc; reflexivity).
    replace (S (List.length pre)) with (List.length (pre ++ [i]))
      by (rewrite length_app; simpl; lia).
    destruct (JS.includes searchable (interest_token i)).
    + rewrite IH. cbn [map fold_left show_interest default].
      unfold JS.len. cbn [List.length]. rewrite Nat2Z.inj_succ.
      f_equal. f_equal. lia.
    + apply IH.
Qed.

Lemma remember_first_kept (l : list string) (x : string) :
  JS.truthy x = true ->
  fold_left remember_first (map Some l) (Some x) = Some x.
Proof.
  intros T. induction l as [|y l IH]; simpl; [reflexivity|].
  now rewrite T.
Qed.

Lemma remember_first_head (l : list string) :
  (forall x, In x l -> x <> "") ->
  fold_left remember_first (map Some l) None = hd_error l.
Proof.
  destruct l as [|x l]; intros H; [reflexivity|].
  simpl. apply remember_first_kept. apply truthy_true. apply H. now left.
Qed.

Lemma append_injective (p a b : string) :
  String.append p a = String.append p b -> a = b.
Proof.
  induction p as [|c p IH]; simpl; intros H; [exact H|].
  inversion H. now apply IH.
Qed.

Lemma interest_tokens_all (explicitInterests : list string) :
  (forall i, In i explicitInterests -> JS.trim i <> "") ->
  interest_tokens explicitInterests = map interest_token explicitInterests.
Proof.
  intros H. unfold interest_tokens. apply filter_all.
  intros t Ht. apply in_map_iff in Ht. destruct Ht as [i [<- Hi]].
  apply truthy_true. intros E. unfold interest_token in E.
  apply -> toLowerCase_empty in E. exact (H i Hi E).
Qed.

Lemma trim_nonempty (i : string) : JS.trim i <> "" -> i <> "".
Proof. intros H E. apply H. subst. reflexivity. Qed.

Lemma signal_reasons_In (fires : bool) (d : Z) (reason x : string)
    (acc : Z * list string) :
  In x (snd (signal fires d reason acc)) <->
  In x (snd acc) \/ (fires = true /\ x = reason).
Proof.
  unfold signal. destruct fires; cbn [snd].
  - rewrite set_add_In. intuition.
  - intuition discriminate.
Qed.

Lemma shown_reasons_In (reasons : list string) (x : string) :
  In x (if negb (JS.len reasons =? 0) then reasons else [reason_featured]) <->
  In x reasons \/ (reasons = [] /\ x = reason_featured).
Proof.
  destruct (JS.len reasons =? 0) eqn:E; cbn [negb].
  - apply len_zero in E. subst. simpl. intuition.
  - split; [auto|]. intros [H|[H _]]; [exact H|]. subst. discriminate.
Qed.

Lemma scored_entry_category (explicitInterests : list string)
    (department : option string) (book : LibraryBook) :
  (forall i, In i explicitInterests -> JS.trim i <> "") ->
  let r := to_recommendation (scored_entry explicitInterests department book) in
  rec_category r
  = match matching_interests explicitInterests book with
    | interest :: _ => Departments.Department interest
    | [] => lb_department book
    end
  /\ forall i,
       In (reason_interest i) (rec_reasons r) <->
       In i (matching_interests explicitInterests book).
Proof.
  intros Hblank r. subst r. unfold scored_entry. fold (searchable_text book).
  rewrite (interest_tokens_all _ Hblank).
  pose proof (match_tokens_aligned (searchable_text book) explicitInterests []
                1 [] None) as Hm.
  cbv zeta in Hm. cbn [app List.length] in Hm. rewrite Hm. clear Hm.
  fold (matching_interests explicitInterests book).
  assert (Hne : forall x, In x (matching_interests explicitInterests book) -> x <> "").
  { intros x Hx. apply filter_In in Hx. apply trim_nonempty, Hblank. tauto. }
  rewrite (remember_first_head _ Hne).
  assert (Hin : forall i,
             In (reason_interest i)
                (fold_left JS.set_add
                   (map reason_interest (matching_interests explicitInterests book))
                   []) <->
             In i (matching_interests explicitInterests book)).
  { intros i. rewrite fold_set_add_In, in_map_iff.
    split.
    - intros [[]|[j [E Hj]]]. apply append_injective in E. now subst.
    - intros H. right. exists i. auto. }
  pose proof (signal_reasons_In
                (same_department department book)
                2 reason_department) as Hd.
  pose proof (signal_reasons_In (5 <=? lb_copies book) 1 reason_catalog_popular)
    as Hp.
  destruct (signal (same_department department book)
              2 reason_department _) as [score1 reasons1] eqn:E1.
  destruct (signal (5 <=? lb_copies book) 1 reason_catalog_popular _)
    as [score2 reasons2] eqn:E2.
  cbn [fst snd to_recommendation rec_category rec_reasons sb_book sb_reasons
       sb_matchedInterest].
  split; [destruct (matching_interests explicitInterests book); reflexivity|].
  intros i. rewrite shown_reasons_In.
  specialize (Hp (reason_interest i) (score1, reasons1)).
  rewrite E2 in Hp. cbn [snd] in Hp.
  specialize (Hd (reason_interest i)
                (1 + 3 * JS.len (matching_interests explicitInterests book),
                 fold_left JS.set_add
                   (map reason_interest (matching_interests explicitInterests book))
                   [])).
  rewrite E1 in Hd. cbn [snd] in Hd.
  rewrite Hp, Hd, Hin.
  split.
  - intros [[[H|[_ H]]|[_ H]]|[_ H]]; [exact H|discriminate..].
  - auto.
Qed.

(** X12.  When no interest is blank and the scoring of an entry returns,
    the bridge presents the entry under the first interest, in the order
    supplied, whose trimmed lower-case form occurs in the entry's
    lower-cased title and author, and under the entry's department when no
    interest occurs; the interests it cites as reasons are exactly those
    that occur. *)
Theorem bridge_category_first_match (explicitInterests : list string)
    (department : option string) (book : LibraryBook) :
  (forall i, In i explicitInterests -> JS.trim i <> "") ->
  match score_book explicitInterests department book with
  | Returned entry =>
      let r := to_recommendation entry in
      rec_category r
      = match matching_interests explicitInterests book with
        | interest :: _ => Departments.Department interest
        | [] => lb_department book
        end
      /\ forall i,
           In (reason_interest i) (rec_reasons r) <->
           In i (matching_interests explicitInterests book)
  | Thrown _ => throws_on department book = true
  end.
Proof.
  intros Hblank. rewrite score_book_cases.
  destruct (throws_on department book); [reflexivity|].
  now apply scored_entry_category.
Qed.

Lemma bridge_category_first_match_witness :
  (forall i, In i ["Computer Science"] -> JS.trim i <> "")
  /\ rec_category
       (to_recommendation
          (scored_entry ["Computer Science"] (Some "Computer Engineering")
             (hd (Build_LibraryBook "" (Departments.Department "") "" "" "" 0)
                Campus.catalog)))
     = Departments.Department "Computer Science".
Proof.
  assert (H : forall i, In i ["Computer Science"] -> JS.trim i <> "").
  { intros i [<-|[]]. discriminate. }
  split; [exact H|].
  exact (proj1 (bridge_category_first_match ["Computer Science"]
                  (Some "Computer Engineering")
                  (hd (Build_LibraryBook "" (Departments.Department "") "" "" "" 0)
                     Campus.catalog) H)).
Defined.

Lemma slice0_len {A} (n : Z) (l : list A) :
  0 <= n -> JS.len (JS.slice0 n l) = Z.min n (JS.len l).
Proof.
  intros Hn. rewrite slice0_nonneg by exact Hn.
  unfold JS.len. rewrite length_firstn. lia.
Qed.

Lemma bridge_items_len w input user snapshot :
  0 <= limit_of input ->
  existsb (throws_on (user_affiliation user))
    (bridge_pool (exclusion_set w input user) snapshot) = false ->
  JS.len (bridge_items w input user snapshot)
  = Z.min (limit_of input)
      (JS.len (bridge_pool (exclusion_set w input user) snapshot)).
Proof.
  intros Hl Hreturns. unfold bridge_items, bridge_sorted.
  rewrite dataset_sorted_cases.
  fold (bridge_pool (exclusion_set w input user) snapshot). rewrite Hreturns.
  unfold sorted_entries.
  fold (bridge_pool (exclusion_set w input user) snapshot).
  unfold JS.len at 1. rewrite length_map. fold (JS.len
    (JS.slice0 (limit_of input)
       (JS.sort (by_score_copies_title w)
          (map (scored_entry (user_explicitInterests user) (user_affiliation user))
             (bridge_pool (exclusion_set w input user) snapshot))))).
  rewrite slice0_len by exact Hl. f_equal.
  unfold JS.len, JS.sort. now rewrite (Permutation_length (stable_sort_perm _ _)), length_map.
Qed.

Lemma bridge_sorted_thrown w input user snapshot :
  existsb (throws_on (user_affiliation user))
    (bridge_pool (exclusion_set w input user) snapshot) = true ->
  bridge_sorted w input user snapshot = Thrown TypeError.
Proof.
  intros H. unfold bridge_sorted. rewrite dataset_sorted_cases.
  fold (bridge_pool (exclusion_set w input user) snapshot). now rewrite H.
Qed.

(** X13.  When a call goes into the dataset bridge and the snapshot loads,
    and the user has no department or every snapshot entry outside the
    exclusion set has a string as its department, the result has as many
    items as the limit allows among these entries, whatever their
    relevance: with a limit of at least 1 and one such entry the result is
    not empty, and [fallbackUsed] is then [true].  When the user has a
    department and one of these entries carries the function [Object] as
    its department, scoring throws and the result has no item, however many
    entries there are. *)
Theorem bridge_fills_empty_result (w : World) (input : RecommendationInput) :
  post (getPersonalizedRecommendations w input) initial
    (fun r s1 =>
       In GetAllBooks (trace s1) ->
       forall user snapshot,
         Prisma.user_findUnique (users w) (in_userId input) = Some user ->
         dataset w = Some snapshot ->
         0 <= default (in_limit input) 6 ->
         let pool := bridge_pool (exclusion_set w input user) snapshot in
         (existsb (throws_on (user_affiliation user)) pool = false ->
          JS.len (res_items r) = Z.min (default (in_limit input) 6) (JS.len pool)
          /\ ~ In (ConsoleError dataset_error_message) (trace s1)
          /\ (1 <= default (in_limit input) 6 -> pool <> [] ->
              res_items r <> [] /\ ctx_fallbackUsed (res_context r) = true))
         /\ (existsb (throws_on (user_affiliation user)) pool = true ->
             res_items r = []
             /\ In (ConsoleError dataset_error_message) (trace s1)))
    (fun _ _ => True).
Proof.
  eapply post_weaken; [apply getPersonalizedRecommendations_shape| |auto].
  intros r s1
    [[_ [_ Ht]]|[user [cs [fu [tier [bridge [Hu [_ [Ht [Htier [_ H]]]]]]]]]]].
  - rewrite Ht. simpl. intuition discriminate.
  - intros Hin u snapshot Hu' Hd Hl pool.
    rewrite Hu in Hu'. inversion Hu'; subst u. clear Hu'.
    fold (limit_of input) in *. cbv zeta in H.
    assert (Hnolog : tier = [] \/ fallback_events tier ->
                     ~ In (ConsoleError dataset_error_message)
                         (opening_events ++ tier ++ [GetAllBooks])).
    { intros [->|[->| ->]]; simpl; intuition discriminate. }
    assert (Htiers : tier = [] \/ fallback_events tier).
    { destruct Htier as [[_ [_ [-> _]]]|[_ [_ ?]]]; auto. }
    destruct H
      as [[_ [-> _]]
         |[[_ [snapshot' [sorted [Hd' [Hs [-> [[Hb ->]|[Hb ->]]]]]]]]
          |[_ [Hfails [-> ->]]]]].
    + exfalso. revert Hin. rewrite Ht. now apply opening_tier_no_bridge.
    + rewrite Hd in Hd'. inversion Hd'; subst snapshot'.
      split.
      * intros Hreturns.
        pose proof (bridge_items_len w input user snapshot Hl Hreturns) as Hlen.
        fold pool in Hlen.
        cbn [res_items res_context]. rewrite <- Hlen, Hb. split; [reflexivity|].
        split; [rewrite Ht; now apply Hnolog|].
        intros H1 Hp. exfalso. rewrite Hb in Hlen. unfold JS.len in Hlen at 1.
        simpl in Hlen. destruct pool; [now apply Hp|].
        unfold JS.len in Hlen. simpl List.length in Hlen. lia.
      * intros Hthrows. apply bridge_sorted_thrown in Hthrows. congruence.
    + rewrite Hd in Hd'. inversion Hd'; subst snapshot'.
      split.
      * intros Hreturns.
        pose proof (bridge_items_len w input user snapshot Hl Hreturns) as Hlen.
        cbn [res_items res_context context_of ctx_fallbackUsed].
        split; [exact Hlen|]. split; [rewrite Ht; now apply Hnolog|].
        intros _ _. split; [exact Hb|reflexivity].
      * intros Hthrows. apply bridge_sorted_thrown in Hthrows. congruence.
    + split.
      * intros Hreturns. exfalso.
        destruct Hfails as [Hn|(snapshot' & e & Hd' & Hs)]; [congruence|].
        rewrite Hd in Hd'. inversion Hd'; subst snapshot'.
        unfold bridge_sorted in Hs. rewrite dataset_sorted_cases in Hs.
        fold (bridge_pool (exclusion_set w input user) snapshot) in Hs.
        fold pool in Hs. rewrite Hreturns in Hs. discriminate.
      * intros _. split; [reflexivity|].
        rewrite Ht, !in_app_iff. right. right. simpl. auto.
Qed.

(** * The catalog dataset and the department names *)

Import BooksDataset.

(** ** Trimming and the count of copies *)

Lemma trimStart_shape (s : string) :
  JS.trimStart s = ""
  \/ exists c r, JS.trimStart s = String c r /\ JS.is_space c = false.
Proof.
  induction s as [|c r IH]; [left; reflexivity|].
  cbn [JS.trimStart]. destruct (JS.is_space c) eqn:E; [exact IH|].
  right. exists c, r. split; [reflexivity|exact E].
Qed.

Lemma trimEnd_keeps_head (c : ascii) (r : string) :
  JS.is_space c = false -> exists r', JS.trimEnd (String c r) = String c r'.
Proof.
  intros E. cbn [JS.trimEnd]. destruct (JS.trimEnd r) as [|c' r'].
  - rewrite E. eexists; reflexivity.
  - eexists; reflexivity.
Qed.

Lemma trim_shape (s : string) :
  JS.trim s = ""
  \/ exists c r, JS.trim s = String c r /\ JS.is_space c = false.
Proof.
  unfold JS.trim. destruct (trimStart_shape s) as [E|(c & r & E & Hc)]; rewrite E.
  - left; reflexivity.
  - right. destruct (trimEnd_keeps_head c r Hc) as [r' Hr].
    exists c, r'. split; [exact Hr|exact Hc].
Qed.

Lemma trimStart_trim (s : string) : JS.trimStart (JS.trim s) = JS.trim s.
Proof.
  destruct (trim_shape s) as [E|(c & r & E & Hc)]; rewrite E; [reflexivity|].
  cbn [JS.trimStart]. rewrite Hc. reflexivity.
Qed.

Lemma digit_of_range (c : ascii) (d : Z) : digit_of c = Some d -> 0 <= d <= 9.
Proof.
  unfold digit_of. cbv zeta. destruct (_ && _)%bool eqn:E; [|discriminate].
  intros [= <-]. apply andb_true_iff in E. destruct E as [E1 E2].
  apply N.leb_le in E1, E2. revert E1 E2. generalize (N_of_ascii c). intros n. lia.
Qed.

Lemma parse_digits_nonneg (s : string) :
  forall acc v,
    (forall a, acc = Some a -> 0 <= a) ->
    parse_digits s acc = Some v -> 0 <= v.
Proof.
  induction s as [|c r IH]; intros acc v Hacc; cbn [parse_digits].
  - intros E. apply Hacc, E.
  - destruct (digit_of c) as [d|] eqn:Ed.
    + apply IH. intros a Ha.
      assert (a = 10 * default acc 0 + d) as -> by congruence.
      apply digit_of_range in Ed.
      destruct acc as [a0|]; unfold default.
      * specialize (Hacc a0 eq_refl). lia.
      * lia.
    + intros E. apply Hacc, E.
Qed.

Lemma parseCopies_nonneg (value : option string) : 0 <= parseCopies value.
Proof.
  unfold parseCopies. destruct (parseInt10 _) as [p|]; [|lia].
  destruct (0 <? p) eqn:E; [apply Z.ltb_lt in E|]; lia.
Qed.

(** X14. [parseCopies] never returns a negative number of copies; an absent
    count gives 0, and a count gives something other than 0 only when its
    trimmed text begins with a digit or a plus sign. *)
Theorem copies_never_negative :
  (forall value, 0 <= parseCopies value)
  /\ parseCopies None = 0
  /\ (forall text,
        parseCopies (Some text) <> 0 ->
        exists c r, JS.trim text = String c r
                    /\ (c = "+"%char \/ digit_of c <> None)).
Proof.
  split; [exact parseCopies_nonneg|]. split; [reflexivity|].
  intros text. unfold parseCopies, parseInt10. cbn [default].
  rewrite trimStart_trim. destruct (JS.trim text) as [|c r]; [intros H; now elim H|].
  destruct (Ascii.eqb c "-") eqn:Eminus.
  - destruct (parse_digits r None) as [v|] eqn:Ev; cbn [option_map].
    + apply parse_digits_nonneg in Ev; [|intros a; discriminate].
      destruct (0 <? - v) eqn:E; [apply Z.ltb_lt in E; lia|]. intros H; now elim H.
    + intros H; now elim H.
  - destruct (Ascii.eqb c "+") eqn:Eplus.
    + apply Ascii.eqb_eq in Eplus. intros _. exists c, r. split; [reflexivity|left; exact Eplus].
    + intros H. exists c, r. split; [reflexivity|]. right. intros Ed.
      apply H. cbn [parse_digits]. rewrite Ed. reflexivity.
Qed.

Lemma digit_not_space (c : ascii) (d : Z) : digit_of c = Some d -> JS.is_space c = false.
Proof.
  unfold digit_of, JS.is_space. cbv zeta. destruct (_ && _)%bool eqn:E; [|discriminate].
  intros _. apply andb_true_iff in E. destruct E as [E1 E2].
  apply N.leb_le in E1, E2. revert E1 E2. generalize (N_of_ascii c). intros n E1 E2.
  apply orb_false_iff. split.
  - apply andb_false_iff. right. apply N.leb_gt. lia.
  - apply N.eqb_neq. lia.
Qed.

Lemma trimEnd_digits (s : string) : all_digits s = true -> JS.trimEnd s = s.
Proof.
  induction s as [|c r IH]; [reflexivity|]. cbn [all_digits JS.trimEnd].
  destruct (digit_of c) as [d|] eqn:Ed; [|discriminate]. intros H.
  rewrite (IH H). destruct r; [|reflexivity].
  rewrite (digit_not_space c d Ed). reflexivity.
Qed.

Lemma uint_digits (d : Decimal.uint) : all_digits (NilEmpty.string_of_uint d) = true.
Proof. induction d; cbn; try reflexivity; exact IHd. Qed.

Lemma parse_digits_uint (d : Decimal.uint) :
  forall acc : nat,
    parse_digits (NilEmpty.string_of_uint d) (Some (Z.of_nat acc))
    = Some (Z.of_nat (Nat.of_uint_acc d acc)).
Proof.
  induction d; intros acc; cbn [NilEmpty.string_of_uint Nat.of_uint_acc];
    [reflexivity| | | | | | | | | |];
    cbn [parse_digits];
    match goal with
    | |- context [digit_of ?c] =>
        let v := eval vm_compute in (digit_of c) in change (digit_of c) with v
    end;
    cbv iota beta; unfold default; rewrite <- IHd; do 2 f_equal;
    rewrite ?Nat2Z.inj_succ, Nat.tail_mul_spec, Nat2Z.inj_mul; lia.
Qed.

Lemma to_uint_head (n : nat) :
  exists c r, NilEmpty.string_of_uint (Nat.to_uint n) = String c r
              /\ digit_of c <> None.
Proof.
  pose proof (DecimalNat.Unsigned.to_of (Nat.to_uint n)) as Hn.
  rewrite DecimalNat.Unsigned.of_to in Hn.
  destruct (Nat.to_uint n) as [|d|d|d|d|d|d|d|d|d|d] eqn:E;
    cbn [NilEmpty.string_of_uint];
    try (eexists; eexists; split; [reflexivity|vm_compute; discriminate]).
  discriminate Hn.
Qed.

Lemma decimal_injective (a b : nat) : decimal a = decimal b -> a = b.
Proof.
  unfold decimal. intros H. apply DecimalNat.Unsigned.to_uint_inj.
  assert (Some (Nat.to_uint a) = Some (Nat.to_uint b)) as E
    by (rewrite <- !NilEmpty.usu, H; reflexivity).
  congruence.
Qed.

Lemma parseInt10_decimal (n : nat) : parseInt10 (JS.trim (decimal n)) = Some (Z.of_nat n).
Proof.
  unfold decimal, JS.trim.
  destruct (to_uint_head n) as (c & r & E & Hc).
  pose proof (uint_digits (Nat.to_uint n)) as Hd.
  pose proof (parse_digits_uint (Nat.to_uint n) 0) as Hp.
  change (Nat.of_uint_acc (Nat.to_uint n) 0) with (Nat.of_uint (Nat.to_uint n)) in Hp.
  rewrite DecimalNat.Unsigned.of_to in Hp.
  revert Hd Hp. rewrite E. intros Hd Hp.
  destruct (digit_of c) as [k|] eqn:Ek; [|now elim Hc].
  pose proof (digit_not_space c k Ek) as Hs.
  assert (JS.trimStart (String c r) = String c r) as ->
    by (cbn [JS.trimStart]; rewrite Hs; reflexivity).
  rewrite (trimEnd_digits _ Hd).
  unfold parseInt10. cbn [JS.trimStart]. rewrite Hs.
  assert (Ascii.eqb c "-" = false) as ->.
  { apply Ascii.eqb_neq. intros ->. vm_compute in Ek. discriminate. }
  assert (Ascii.eqb c "+" = false) as ->.
  { apply Ascii.eqb_neq. intros ->. vm_compute in Ek. discriminate. }
  revert Hp. cbn [parse_digits]. rewrite Ek. unfold default.
  rewrite Z.mul_0_r. intros Hp. exact Hp.
Qed.

(** X15. The decimal numeral of a number below 2^53 is read back as that
    number: [parseCopies] of the text of [n] is [n]. *)
Theorem copies_of_a_numeral (n : nat) :
  Z.of_nat n < 2 ^ 53 ->
  parseCopies (Some (decimal n)) = Z.of_nat n.
Proof.
  intros _. unfold parseCopies. cbn [default]. rewrite parseInt10_decimal.
  destruct (0 <? Z.of_nat n) eqn:E; [reflexivity|]. apply Z.ltb_ge in E. lia.
Qed.

Lemma copies_of_a_numeral_witness : parseCopies (Some (decimal 42)) = 42.
Proof. apply (copies_of_a_numeral 42). reflexivity. Defined.

Lemma trimEnd_idempotent (s : string) : JS.trimEnd (JS.trimEnd s) = JS.trimEnd s.
Proof.
  induction s as [|c r IH]; [reflexivity|]. cbn [JS.trimEnd].
  destruct (JS.trimEnd r) as [|c' r'] eqn:E.
  - destruct (JS.is_space c) eqn:Ec; [reflexivity|]. cbn [JS.trimEnd]. rewrite Ec. reflexivity.
  - change (JS.trimEnd (String c (String c' r'))) with
      (match JS.trimEnd (String c' r') with
       | EmptyString => if JS.is_space c then EmptyString else String c EmptyString
       | t => String c t
       end).
    rewrite IH. reflexivity.
Qed.

Lemma trim_idempotent (s : string) : JS.trim (JS.trim s) = JS.trim s.
Proof.
  unfold JS.trim at 1. rewrite trimStart_trim. unfold JS.trim.
  apply trimEnd_idempotent.
Qed.

(** ** The loader *)

Section Loader.

Variable rt : Runtime.

Lemma load_records_In (records : list CsvRecord) :
  forall index b,
    In b (load_records rt records index) <->
    exists k record,
      nth_error records k = Some record
      /\ normalizeString (csv_title record) <> ""
      /\ b = book_of_record rt record (index + k).
Proof.
  induction records as [|r rest IH]; intros index b; cbn [load_records].
  - split; [intros []|]. intros (k & record & Hk & _). destruct k; discriminate.
  - destruct (JS.truthy (normalizeString (csv_title r))) eqn:Et; cbn [negb].
    + apply truthy_true in Et. cbn [In]. rewrite IH. split.
      * intros [<-|(k & record & Hk & Ht & ->)].
        -- exists 0%nat, r. rewrite Nat.add_0_r. auto.
        -- exists (S k), record. rewrite Nat.add_succ_r. auto.
      * intros ([|k] & record & Hk & Ht & ->); cbn [nth_error] in Hk.
        -- injection Hk as <-. left. rewrite Nat.add_0_r. reflexivity.
        -- right. exists k, record. rewrite Nat.add_succ_r. auto.
    + rewrite IH. split.
      * intros (k & record & Hk & Ht & ->).
        exists (S k), record. rewrite Nat.add_succ_r. auto.
      * intros ([|k] & record & Hk & Ht & ->); cbn [nth_error] in Hk.
        -- injection Hk as <-. exfalso. apply truthy_true in Ht. congruence.
        -- exists k, record. rewrite Nat.add_succ_r. auto.
Qed.

Lemma book_id_injective (r r' : CsvRecord) (i j : nat) :
  lb_id (ib_book (book_of_record rt r i)) = lb_id (ib_book (book_of_record rt r' j)) ->
  i = j.
Proof.
  cbn [book_of_record ib_book lb_id]. intros H.
  apply append_injective, decimal_injective in H. lia.
Qed.

Lemma load_records_distinct (records : list CsvRecord) :
  forall index,
    NoDup (map (fun b => lb_id (ib_book b)) (load_records rt records index)).
Proof.
  induction records as [|r rest IH]; intros index; cbn [load_records].
  - constructor.
  - destruct (JS.truthy (normalizeString (csv_title r))); cbn [negb]; [|apply IH].
    cbn [map]. constructor; [|apply IH].
    intros Hin. apply in_map_iff in Hin. destruct Hin as (b & Hid & Hb).
    apply load_records_In in Hb. destruct Hb as (k & record & _ & _ & ->).
    apply book_id_injective in Hid. lia.
Qed.

Lemma book_of_record_fields (record : CsvRecord) (index : nat) :
  let b := book_of_record rt record index in
  JS.trim (lb_title (ib_book b)) = lb_title (ib_book b)
  /\ JS.trim (lb_author (ib_book b)) = lb_author (ib_book b)
  /\ JS.trim (lb_publisher (ib_book b)) = lb_publisher (ib_book b)
  /\ 0 <= lb_copies (ib_book b)
  /\ ib_searchVector b = buildSearchVector (object_function_text rt) (ib_book b).
Proof.
  cbv zeta. cbn [book_of_record ib_book lb_title lb_author lb_publisher lb_copies ib_searchVector].
  unfold normalizeString. rewrite !trim_idempotent.
  repeat split; try reflexivity. apply parseCopies_nonneg.
Qed.

End Loader.

(** X16. The books the loop of [loadBooksFromCsv] makes of the parsed
    records have pairwise distinct ids.  A book is made exactly of each
    record whose title is not blank, and its id carries the position of the
    record, counted from 1 over all records.  Each book has a title that is
    not empty, a title, an author and a publisher without surrounding white
    space, a number of copies that is not negative, and the search vector
    of its own fields. *)
Theorem loaded_books_wellformed (rt : Runtime) (records : list CsvRecord) :
  let books := load_records rt records 0 in
  NoDup (map (fun b => lb_id (ib_book b)) books)
  /\ (forall b,
        In b books <->
        exists k record,
          nth_error records k = Some record
          /\ normalizeString (csv_title record) <> ""
          /\ b = book_of_record rt record k)
  /\ (forall b,
        In b books ->
        lb_title (ib_book b) <> ""
        /\ JS.trim (lb_title (ib_book b)) = lb_title (ib_book b)
        /\ JS.trim (lb_author (ib_book b)) = lb_author (ib_book b)
        /\ JS.trim (lb_publisher (ib_book b)) = lb_publisher (ib_book b)
        /\ 0 <= lb_copies (ib_book b)
        /\ ib_searchVector b = buildSearchVector (object_function_text rt) (ib_book b)).
Proof.
  cbv zeta. split; [apply load_records_distinct|]. split.
  - intros b. apply (load_records_In rt records 0 b).
  - intros b Hb. apply load_records_In in Hb.
    destruct Hb as (k & record & _ & Ht & ->).
    split; [exact Ht|]. apply book_of_record_fields.
Qed.

(** ** The cache *)

Lemma cache_is_stale_iff (cached current : option Z) :
  cache_is_stale cached current = true <->
  cached = None \/ cached = Some 0
  \/ exists now was,
       current = Some now /\ cached = Some was /\ now <> 0 /\ was < now.
Proof.
  unfold cache_is_stale, truthy_number.
  destruct cached as [was|]; [|cbn; tauto].
  destruct (Z.eqb_spec was 0) as [->|Hwas]; cbn [negb orb].
  - split; auto.
  - destruct current as [now|]; cbn [andb default].
    + destruct (Z.eqb_spec now 0) as [->|Hnow]; cbn [negb andb].
      * split; [discriminate|]. intros [H|[H|(n & w & H1 & H2 & H3 & _)]];
          try discriminate; try congruence.
      * rewrite Z.ltb_lt. split.
        -- intros H. right; right. exists now, was. auto.
        -- intros [H|[H|(n & w & H1 & H2 & _ & H4)]]; try discriminate; try congruence.
    + split; [discriminate|].
      intros [H|[H|(n & w & H1 & _)]]; try discriminate; congruence.
Qed.

Section CacheProperties.

Variable rt : Runtime.

(** Every way [ensureCache] ends. *)
Lemma ensureCache_cases (at_call : Moment) (c : Cache) :
  let stat := snd (getFileModifiedTime at_call) in
  (exists books,
      cachedBooks c = Some books
      /\ cache_is_stale (cachedMtime c) (file_mtime at_call) = false
      /\ ensureCache rt at_call c = (Done books, c, stat))
  \/ ((cachedBooks c = None
       \/ cache_is_stale (cachedMtime c) (file_mtime at_call) = true)
      /\ ((exists content records,
              file_content at_call = Some content
              /\ parse rt content = Some records
              /\ ensureCache rt at_call c
                 = (Done (load_records rt records 0),
                    refreshed at_call (file_mtime at_call) (load_records rt records 0),
                    stat ++ [ReadFile]))
          \/ (file_content at_call = None
              /\ ensureCache rt at_call c
                 = (Failed Unreadable, c,
                    stat ++ [ReadFile; LogError read_error_message]))
          \/ (exists content,
                 file_content at_call = Some content
                 /\ parse rt content = None
                 /\ ensureCache rt at_call c = (Failed Malformed, c, stat ++ [ReadFile])))).
Proof.
  cbv zeta. unfold ensureCache, loadBooksFromCsv, getFileModifiedTime.
  destruct (file_mtime at_call) as [now|]; cbn [fst snd];
    destruct (cachedBooks c) as [books|];
    try destruct (cache_is_stale (cachedMtime c) _) eqn:Es;
    try (left; exists books; auto; fail);
    right; (split; [auto|]);
    destruct (file_content at_call) as [content|]; eauto;
    destruct (parse rt content) as [records|] eqn:Ep; eauto 7.
Qed.

Lemma stat_events (at_call : Moment) :
  ~ In ReadFile (snd (getFileModifiedTime at_call))
  /\ hd_error (snd (getFileModifiedTime at_call)) = Some StatFile.
Proof.
  unfold getFileModifiedTime. destruct (file_mtime at_call); cbn [snd hd_error In];
    (split; [|reflexivity]); intros H;
    repeat (destruct H as [H|H]; try discriminate); exact H.
Qed.

Lemma ensureCache_returns_cached (at_call : Moment) (c c' : Cache)
    (books : list InternalBookRecord) (events : list FsEvent) :
  ensureCache rt at_call c = (Done books, c', events) ->
  cachedBooks c' = Some books.
Proof.
  destruct (ensureCache_cases at_call c)
    as [(b & Hb & _ & E)|(_ & [(ct & rs & _ & _ & E)|[(_ & E)|(ct & _ & _ & E)]])];
    rewrite E; intros [= <- <- <-]; auto.
Qed.

Lemma ensureCache_valid (at_call : Moment) (c : Cache) :
  cache_valid rt c -> cache_valid rt (snd (fst (ensureCache rt at_call c))).
Proof.
  intros Hc.
  destruct (ensureCache_cases at_call c)
    as [(b & Hb & _ & E)|(_ & [(ct & rs & _ & _ & E)|[(_ & E)|(ct & _ & _ & E)]])];
    rewrite E; cbn [fst snd]; try exact Hc.
  unfold cache_valid, refreshed. cbn [cachedBooks cachedAggregations].
  split; [exists rs; reflexivity|exact I].
Qed.

End CacheProperties.

(** The callback of the search throws in one way only. *)
Lemma book_matches_search_failure (query department publisher author : string)
    (book : InternalBookRecord) (f : Failure) :
  book_matches_search query department publisher author book = Failed f ->
  f = NoSuchMethod
  /\ has_all_tokens query book = true
  /\ JS.truthy department = true
  /\ lb_department (ib_book book) = Departments.PrototypeMember.
Proof.
  unfold book_matches_search, department_differs, department_lower.
  destruct (has_all_tokens query book); cbn [negb]; [|discriminate].
  destruct (JS.truthy department).
  - destruct (lb_department (ib_book book)) as [name|].
    + destruct (negb (String.eqb (JS.toLowerCase name) (JS.toLowerCase department)));
        [discriminate|].
      destruct (field_differs publisher (lb_publisher (ib_book book))); [discriminate|].
      destruct (field_differs author (lb_author (ib_book book))); discriminate.
    + intros [= <-]. repeat split.
  - destruct (field_differs publisher (lb_publisher (ib_book book))); [discriminate|].
    destruct (field_differs author (lb_author (ib_book book))); discriminate.
Qed.

Lemma filter_result_failure {A} (test : A -> Result bool) (l : list A) (f : Failure) :
  filter_result test l = Failed f -> exists x, In x l /\ test x = Failed f.
Proof.
  induction l as [|x rest IH]; cbn [filter_result]; [discriminate|].
  destruct (test x) as [keep|e] eqn:Ex.
  - destruct (filter_result test rest) as [kept|e]; [discriminate|].
    intros [= ->]. destruct (IH eq_refl) as (y & Hy & Ey).
    exists y. split; [now right|exact Ey].
  - intros [= ->]. exists x. split; [now left|exact Ex].
Qed.

Lemma search_failure (options : BookSearchOptions) (books : list InternalBookRecord)
    (f : Failure) :
  search options books = Failed f -> f = NoSuchMethod.
Proof.
  unfold search, search_matches.
  destruct (filter_result _ books) as [matches|e] eqn:E; [discriminate|].
  intros [= <-]. apply filter_result_failure in E. destruct E as (b & _ & Eb).
  now apply book_matches_search_failure in Eb.
Qed.

Section CacheTheorems.

Variable rt : Runtime.

Lemma getAllBooks_ensure (at_call : Moment) (c : Cache) :
  getAllBooks rt at_call c
  = match ensureCache rt at_call c with
    | (Done books, c', events) => (Done (map stripSearchVector books), c', events)
    | (Failed f, c', events) => (Failed f, c', events)
    end.
Proof. reflexivity. Qed.

Lemma lookups_keep_cache (at_call : Moment) (c : Cache) (bookId : string)
    (options : BookSearchOptions) :
  snd (fst (getAllBooks rt at_call c)) = snd (fst (ensureCache rt at_call c))
  /\ snd (fst (getBookById rt at_call c bookId)) = snd (fst (ensureCache rt at_call c))
  /\ snd (fst (searchBooks rt at_call c options)) = snd (fst (ensureCache rt at_call c)).
Proof.
  unfold getAllBooks, getBookById, searchBooks.
  destruct (ensureCache rt at_call c) as [[[books|f] c'] events];
    [destruct (search options books)|]; auto.
Qed.

Lemma getBooksAggregations_valid (at_call : Moment) (c : Cache) :
  cache_valid rt c -> cache_valid rt (snd (fst (getBooksAggregations rt at_call c))).
Proof.
  intros Hc. pose proof (ensureCache_valid rt at_call c Hc) as Hv.
  unfold getBooksAggregations.
  destruct (ensureCache rt at_call c) as [[[books|f] c'] events] eqn:E;
    cbn [fst snd] in *; [|exact Hv].
  apply ensureCache_returns_cached in E.
  destruct (cachedAggregations c') as [aggs|] eqn:Ea; cbn [fst snd]; [exact Hv|].
  unfold cache_valid in *. cbn [cachedBooks cachedAggregations].
  rewrite E in *. split; [apply Hv|reflexivity].
Qed.

(** X17. Every exported call keeps the module-level variables consistent:
    if the cache holds books that came out of the loader and aggregations
    built from the books held, so it does after [ensureCache],
    [getAllBooks], [getBookById], [searchBooks] and [getBooksAggregations],
    whether the call returns or throws. *)
Theorem cache_valid_preserved (at_call : Moment) (c : Cache) (bookId : string)
    (options : BookSearchOptions) :
  cache_valid rt c ->
  cache_valid rt (snd (fst (ensureCache rt at_call c)))
  /\ cache_valid rt (snd (fst (getAllBooks rt at_call c)))
  /\ cache_valid rt (snd (fst (getBookById rt at_call c bookId)))
  /\ cache_valid rt (snd (fst (searchBooks rt at_call c options)))
  /\ cache_valid rt (snd (fst (getBooksAggregations rt at_call c))).
Proof.
  intros Hc.
  destruct (lookups_keep_cache at_call c bookId options) as (-> & -> & ->).
  pose proof (ensureCache_valid rt at_call c Hc).
  pose proof (getBooksAggregations_valid at_call c Hc). auto.
Qed.

Lemma valid_books_distinct (c : Cache) (books : list InternalBookRecord) :
  cache_valid rt c -> cachedBooks c = Some books ->
  NoDup (map (fun b => lb_id (ib_book b)) books)
  /\ forall b, In b books ->
       lb_title (ib_book b) <> "" /\ 0 <= lb_copies (ib_book b).
Proof.
  unfold cache_valid. intros Hc E. rewrite E in Hc.
  destruct Hc as [(records & ->) _]. split; [apply load_records_distinct|].
  intros b Hb. apply load_records_In in Hb.
  destruct Hb as (k & record & _ & Ht & ->).
  split; [exact Ht|]. apply book_of_record_fields.
Qed.

Lemma ensureCache_distinct (at_call : Moment) (c c' : Cache)
    (books : list InternalBookRecord) (events : list FsEvent) :
  cache_valid rt c ->
  ensureCache rt at_call c = (Done books, c', events) ->
  NoDup (map (fun b => lb_id (ib_book b)) books)
  /\ forall b, In b books ->
       lb_title (ib_book b) <> "" /\ 0 <= lb_copies (ib_book b).
Proof.
  intros Hc E. apply (valid_books_distinct c').
  - pose proof (ensureCache_valid rt at_call c Hc) as Hv. rewrite E in Hv. exact Hv.
  - eapply ensureCache_returns_cached, E.
Qed.

(** X18. What [getAllBooks] returns from a consistent cache has pairwise
    distinct ids, titles that are not empty and no negative number of
    copies.  The snapshot the recommendation bridge reads thus has distinct
    ids, as X8 asks. *)
Theorem all_books_distinct (at_call : Moment) (c c' : Cache)
    (books : list LibraryBook) (events : list FsEvent) :
  cache_valid rt c ->
  getAllBooks rt at_call c = (Done books, c', events) ->
  NoDup (map lb_id books)
  /\ forall b, In b books -> lb_title b <> "" /\ 0 <= lb_copies b.
Proof.
  intros Hc. unfold getAllBooks.
  destruct (ensureCache rt at_call c) as [[[bs|f] c1] ev] eqn:E; [|discriminate].
  intros [= <- <- <-].
  destruct (ensureCache_distinct at_call c c1 bs ev Hc E) as [Hnd Hall].
  split.
  - rewrite map_map. exact Hnd.
  - intros b Hb. apply in_map_iff in Hb. destruct Hb as (x & <- & Hx).
    apply Hall, Hx.
Qed.

(** X19. [ensureCache] first stats the file, and reads it exactly when no
    books are cached, or the cached time is null or 0, or the file's time
    is not 0 and later than the cached one.  When it does not read, it
    returns the cached books and leaves the cache alone; so a stat that
    fails on a warm cache serves the cached books. *)
Theorem file_read_iff (at_call : Moment) (c : Cache) :
  let '(result, c', events) := ensureCache rt at_call c in
  (In ReadFile events <->
     cachedBooks c = None \/ cachedMtime c = None \/ cachedMtime c = Some 0
     \/ exists now was,
          file_mtime at_call = Some now /\ cachedMtime c = Some was
          /\ now <> 0 /\ was < now)
  /\ (~ In ReadFile events ->
      exists books, cachedBooks c = Some books /\ result = Done books /\ c' = c)
  /\ hd_error events = Some StatFile.
Proof.
  destruct (stat_events at_call) as [Hno Hhd].
  assert (forall rest, hd_error (snd (getFileModifiedTime at_call) ++ rest) = Some StatFile)
    as Hhd'.
  { intros rest. destruct (snd (getFileModifiedTime at_call)); [discriminate|exact Hhd]. }
  destruct (ensureCache_cases rt at_call c)
    as [(b & Hb & Hs & E)|(Hwhy & [(ct & rs & _ & _ & E)|[(_ & E)|(ct & _ & _ & E)]])];
    rewrite E.
  - split; [|split; [eauto|exact Hhd]]. split; [intros H; now elim Hno|].
    intros H. exfalso.
    assert (cache_is_stale (cachedMtime c) (file_mtime at_call) = true) as Hs'.
    { apply cache_is_stale_iff. destruct H as [H|H]; [congruence|exact H]. }
    congruence.
  - split; [|split; [|apply Hhd']].
    + split; [intros _|intros _; apply in_or_app; right; now left].
      destruct Hwhy as [H|H]; [now left|right]. apply cache_is_stale_iff, H.
    + intros H. exfalso. apply H, in_or_app. right. now left.
  - split; [|split; [|apply Hhd']].
    + split; [intros _|intros _; apply in_or_app; right; now left].
      destruct Hwhy as [H|H]; [now left|right]. apply cache_is_stale_iff, H.
    + intros H. exfalso. apply H, in_or_app. right. now left.
  - split; [|split; [|apply Hhd']].
    + split; [intros _|intros _; apply in_or_app; right; now left].
      destruct Hwhy as [H|H]; [now left|right]. apply cache_is_stale_iff, H.
    + intros H. exfalso. apply H, in_or_app. right. now left.
Qed.

Lemma ensureCache_failure (at_call : Moment) (c c' : Cache) (f : Failure)
    (events : list FsEvent) :
  ensureCache rt at_call c = (Failed f, c', events) ->
  c' = c /\ In ReadFile events
  /\ (f = Unreadable <-> file_content at_call = None)
  /\ (In (LogError read_error_message) events <-> f = Unreadable)
  /\ f <> NoSuchMethod.
Proof.
  destruct (stat_events at_call) as [Hno _].
  assert (~ In (LogError read_error_message) (snd (getFileModifiedTime at_call))) as Hlog.
  { unfold getFileModifiedTime. destruct (file_mtime at_call); cbn [snd In];
      intros H; repeat (destruct H as [H|H]; try discriminate); exact H. }
  destruct (ensureCache_cases rt at_call c)
    as [(b & Hb & Hs & E)|(Hwhy & [(ct & rs & _ & _ & E)|[(Hc & E)|(ct & Hc & _ & E)]])];
    rewrite E; intros [= <- <- <-].
  - split; [reflexivity|]. split; [apply in_or_app; right; now left|].
    split; [tauto|]. split; [|discriminate].
    split; [reflexivity|]. intros _. apply in_or_app. right. right. now left.
  - split; [reflexivity|]. split; [apply in_or_app; right; now left|].
    split; [split; [discriminate|congruence]|]. split; [|discriminate].
    split; [|discriminate].
    intros H. apply in_app_or in H. destruct H as [H|[H|[]]]; [now elim Hlog|discriminate].
Qed.

(** X20.  A call that throws because the file cannot be read or parsed
    leaves the cache as it was: [ensureCache], and with it [getAllBooks],
    [getBookById] and [getBooksAggregations], throw only after trying to
    read the file, with the module's own error exactly when the file could
    not be read, which is exactly when the reading error is logged.
    [searchBooks] can also throw after [ensureCache] has returned, when its
    filter calls [toLowerCase] on a department that is not a string: the
    cache is then the one [ensureCache] left, reloaded or not. *)
Theorem cache_after_failed_call (at_call : Moment) (c : Cache) (bookId : string)
    (options : BookSearchOptions) :
  (forall f c' events,
      ensureCache rt at_call c = (Failed f, c', events) ->
      c' = c /\ In ReadFile events
      /\ (f = Unreadable <-> file_content at_call = None)
      /\ (In (LogError read_error_message) events <-> f = Unreadable)
      /\ f <> NoSuchMethod)
  /\ (forall f c' events,
        getAllBooks rt at_call c = (Failed f, c', events) -> c' = c)
  /\ (forall f c' events,
        getBookById rt at_call c bookId = (Failed f, c', events) -> c' = c)
  /\ (forall f c' events,
        getBooksAggregations rt at_call c = (Failed f, c', events) -> c' = c)
  /\ (forall f c' events,
        searchBooks rt at_call c options = (Failed f, c', events) ->
        (f <> NoSuchMethod ->
         c' = c /\ ensureCache rt at_call c = (Failed f, c, events))
        /\ (f = NoSuchMethod ->
            exists books,
              ensureCache rt at_call c = (Done books, c', events)
              /\ cachedBooks c' = Some books
              /\ search options books = Failed NoSuchMethod)).
Proof.
  split; [intros f c' events; apply ensureCache_failure|].
  unfold getAllBooks, getBookById, searchBooks, getBooksAggregations.
  destruct (ensureCache rt at_call c) as [[[books|f0] c1] ev] eqn:E.
  - split; [intros f c' events; discriminate|].
    split; [intros f c' events; discriminate|].
    split; [intros f c' events; destruct (cachedAggregations c1); discriminate|].
    intros f c' events.
    destruct (search options books) as [result|f1] eqn:Es; [discriminate|].
    intros [= <- <- <-].
    apply search_failure in Es as Hf1. subst f1.
    split; [intros H; now elim H|]. intros _.
    exists books. split; [reflexivity|]. split; [|exact Es].
    apply (ensureCache_returns_cached rt at_call c c1 books ev E).
  - pose proof (ensureCache_failure at_call c c1 f0 ev E) as (-> & _ & _ & _ & Hf0).
    split; [intros f c' events [= _ <- _]; reflexivity|].
    split; [intros f c' events [= _ <- _]; reflexivity|].
    split; [intros f c' events [= _ <- _]; reflexivity|].
    intros f c' events [= <- <- <-].
    split; [intros _; split; reflexivity|]. intros H. now elim Hf0.
Qed.

(** X21. Calling [ensureCache] again at the same moment returns the same
    books and leaves the cache as the first call left it; unless the time
    recorded is 0, the second call does not read the file. *)
Theorem second_call_same_books (at_call : Moment) (c c1 : Cache)
    (books : list InternalBookRecord) (events : list FsEvent) :
  ensureCache rt at_call c = (Done books, c1, events) ->
  exists again,
    ensureCache rt at_call c1 = (Done books, c1, again)
    /\ (default (file_mtime at_call) (date_now at_call) <> 0 ->
        ~ In ReadFile again).
Proof.
  destruct (stat_events at_call) as [Hno _].
  destruct (ensureCache_cases rt at_call c)
    as [(b & Hb & Hs & E)|(Hwhy & [(ct & rs & Hct & Hrs & E)|[(_ & E)|(ct & _ & _ & E)]])];
    rewrite E; intros [= <- <- <-].
  - exists (snd (getFileModifiedTime at_call)). rewrite E. auto.
  - set (fresh := load_records rt rs 0).
    set (c1 := refreshed at_call (file_mtime at_call) fresh).
    destruct (ensureCache_cases rt at_call c1)
      as [(b & Hb & Hs & E1)|(Hwhy1 & [(ct1 & rs1 & Hct1 & Hrs1 & E1)|[(Hc & E1)|(ct1 & Hc & Hp & E1)]])].
    + cbn in Hb. injection Hb as <-. eexists. split; [exact E1|auto].
    + assert (rs1 = rs) as -> by congruence.
      eexists. split; [exact E1|]. intros Hm Hin.
      destruct Hwhy1 as [H|H]; [discriminate|].
      apply cache_is_stale_iff in H. cbn [cachedMtime c1 refreshed] in H.
      destruct H as [H|[H|(now & was & H1 & H2 & H3 & H4)]]; try discriminate.
      * injection H as H. contradiction.
      * rewrite H1 in H2. cbn [default] in H2. injection H2 as <-. lia.
    + congruence.
    + congruence.
Qed.

(** X22. From a consistent cache [getBookById] returns a book exactly when
    [getAllBooks] lists a book with that id, that book; it returns null
    when there is none.  Both calls leave the same cache and events. *)
Theorem book_found_by_id (at_call : Moment) (c c' : Cache) (bookId : string)
    (found : option LibraryBook) (events : list FsEvent) :
  cache_valid rt c ->
  getBookById rt at_call c bookId = (Done found, c', events) ->
  exists all,
    getAllBooks rt at_call c = (Done all, c', events)
    /\ forall b, found = Some b <-> In b all /\ lb_id b = bookId.
Proof.
  intros Hc. unfold getBookById, getAllBooks.
  destruct (ensureCache rt at_call c) as [[[bs|f] c1] ev] eqn:E; [|discriminate].
  intros [= <- <- <-]. eexists. split; [reflexivity|].
  destruct (ensureCache_distinct at_call c c1 bs ev Hc E) as [Hnd _].
  clear E Hc. intros b.
  destruct (find _ bs) as [x|] eqn:Ef; cbn [option_map].
  - apply find_some in Ef. destruct Ef as [Hx Hid]. apply String.eqb_eq in Hid.
    split.
    + intros [= <-]. split; [apply in_map, Hx|exact Hid].
    + intros [Hb Hbid]. apply in_map_iff in Hb. destruct Hb as (y & <- & Hy).
      f_equal. unfold stripSearchVector in *.
      assert (x = y) as ->; [|reflexivity].
      clear - Hnd Hx Hy Hid Hbid. rewrite <- Hbid in Hid. clear Hbid.
      induction bs as [|z bs IH]; [destruct Hx|].
      cbn [map] in Hnd. inversion Hnd as [|? ? Hfresh Hrest]; subst.
      destruct Hx as [->|Hx], Hy as [->|Hy]; auto.
      * exfalso. apply Hfresh. rewrite Hid. apply (in_map (fun b => lb_id (ib_book b))), Hy.
      * exfalso. apply Hfresh. rewrite <- Hid. apply (in_map (fun b => lb_id (ib_book b))), Hx.
  - split; [discriminate|]. intros [Hb Hbid]. exfalso.
    apply in_map_iff in Hb. destruct Hb as (y & <- & Hy).
    apply (find_none _ _ Ef) in Hy. apply String.eqb_neq in Hy. contradiction.
Qed.

End CacheTheorems.

Lemma cache_valid_preserved_witness :
  cache_valid Shelf.runtime
    (snd (fst (getBooksAggregations Shelf.runtime Shelf.morning empty_cache))).
Proof.
  assert (cache_valid Shelf.runtime empty_cache) as Hvalid by reflexivity.
  exact (proj2 (proj2 (proj2 (proj2
           (cache_valid_preserved Shelf.runtime Shelf.morning empty_cache ""
              (query_only "") Hvalid))))).
Defined.

Lemma all_books_distinct_witness :
  NoDup (map lb_id (map stripSearchVector Shelf.books)).
Proof.
  assert (cache_valid Shelf.runtime empty_cache) as Hvalid by reflexivity.
  assert (getAllBooks Shelf.runtime Shelf.morning empty_cache
          = (Done (map stripSearchVector Shelf.books), Shelf.loaded,
             [StatFile; ReadFile])) as Hcall by reflexivity.
  exact (proj1 (all_books_distinct Shelf.runtime Shelf.morning empty_cache _ _ _
                  Hvalid Hcall)).
Defined.

Lemma second_call_same_books_witness :
  exists again,
    ensureCache Shelf.runtime Shelf.morning Shelf.loaded
    = (Done Shelf.books, Shelf.loaded, again).
Proof.
  assert (ensureCache Shelf.runtime Shelf.morning empty_cache
          = (Done Shelf.books, Shelf.loaded, [StatFile; ReadFile])) as Hcall
    by reflexivity.
  destruct (second_call_same_books Shelf.runtime Shelf.morning empty_cache _ _ _ Hcall)
    as [again [Hagain _]].
  exists again. exact Hagain.
Defined.

Lemma book_found_by_id_witness :
  exists all,
    getAllBooks Shelf.runtime Shelf.morning empty_cache
    = (Done all, Shelf.loaded, [StatFile; ReadFile])
    /\ forall b,
         Some (ib_book Shelf.thermodynamics) = Some b <->
         In b all /\ lb_id b = "book-3".
Proof.
  assert (cache_valid Shelf.runtime empty_cache) as Hvalid by reflexivity.
  assert (getBookById Shelf.runtime Shelf.morning empty_cache "book-3"
          = (Done (Some (ib_book Shelf.thermodynamics)), Shelf.loaded,
             [StatFile; ReadFile])) as Hcall by reflexivity.
  exact (book_found_by_id Shelf.runtime Shelf.morning empty_cache _ "book-3" _ _
           Hvalid Hcall).
Defined.

(** ** Searching *)







Lemma filter_result_done {A} (test : A -> Result bool) (l kept : list A) :
  filter_result test l = Done kept ->
  kept = filter (fun x => match test x with Done true => true | _ => false end) l
  /\ forall x, In x l -> exists keep, test x = Done keep.
Proof.
  revert kept. induction l as [|x rest IH]; intros kept; cbn [filter_result filter].
  - intros [= <-]. split; [reflexivity|intros x []].
  - destruct (test x) as [keep|e] eqn:Ex; [|discriminate].
    destruct (filter_result test rest) as [kept'|e]; [|discriminate].
    intros [= <-]. destruct (IH kept' eq_refl) as [-> Hall]. split.
    + now destruct keep.
    + intros y [<-|Hy]; [now exists keep|now apply Hall].
Qed.

Lemma filter_result_throws {A} (test : A -> Result bool) (l : list A) (x : A)
    (f : Failure) :
  In x l -> test x = Failed f -> exists f', filter_result test l = Failed f'.
Proof.
  intros Hin Hx. destruct (filter_result test l) as [kept|f'] eqn:E; [|now exists f'].
  apply filter_result_done in E. destruct E as [_ Hall].
  destruct (Hall x Hin) as [keep Hkeep]. congruence.
Qed.

(** [search] is [page_result] of the matches, and throws when the filter
    does. *)
Lemma search_cases (options : BookSearchOptions) (books : list InternalBookRecord) :
  (exists matches,
      search_matches options books = Done matches
      /\ search options books = Done (page_result options matches))
  \/ (search_matches options books = Failed NoSuchMethod
      /\ search options books = Failed NoSuchMethod).
Proof.
  destruct (search options books) as [r|f] eqn:Es.
  - left. unfold search in Es.
    destruct (search_matches options books) as [matches|f]; [|discriminate].
    injection Es as <-. now exists matches.
  - right. pose proof (search_failure options books f Es) as ->.
    unfold search in Es.
    destruct (search_matches options books) as [matches|f]; [discriminate|].
    injection Es as ->. now split.
Qed.










Lemma filter_length_le {A} (p : A -> bool) (l : list A) :
  (List.length (filter p l) <= List.length l)%nat.
Proof.
  induction l as [|x l IH]; [apply Nat.le_refl|].
  cbn [filter]. destruct (p x); cbn [List.length]; lia.
Qed.






(** ** Strings *)

Lemma append_associative (a b c : string) :
  String.append (String.append a b) c = String.append a (String.append b c).
Proof. induction a as [|x a IH]; cbn [String.append]; [reflexivity|now rewrite IH]. Qed.

Lemma append_empty (a : string) : String.append a "" = a.
Proof. induction a as [|x a IH]; cbn [String.append]; [reflexivity|now rewrite IH]. Qed.

Lemma prefix_of_append (n b : string) : String.prefix n (String.append n b) = true.
Proof.
  induction n as [|x n IH]; cbn [String.append]; [destruct b; reflexivity|].
  cbn [String.prefix]. destruct (ascii_dec x x) as [_|H]; [exact IH|now elim H].
Qed.

Lemma includes_middle (a n b : string) :
  JS.includes (String.append a (String.append n b)) n = true.
Proof.
  induction a as [|x a IH]; cbn [String.append].
  - destruct (String.append n b) eqn:E; cbn [JS.includes]; rewrite <- ?E;
      rewrite prefix_of_append; reflexivity.
  - cbn [JS.includes]. rewrite IH. apply orb_true_r.
Qed.

Lemma toLowerCase_append (a b : string) :
  JS.toLowerCase (String.append a b)
  = String.append (JS.toLowerCase a) (JS.toLowerCase b).
Proof.
  induction a as [|x a IH]; cbn [String.append JS.toLowerCase]; [reflexivity|].
  now rewrite IH.
Qed.

Lemma words_from_inside (s : string) :
  forall current w,
    In w (words_from s current) ->
    exists a b, String.append current s = String.append a (String.append w b).
Proof.
  induction s as [|c r IH]; intros current w; cbn [words_from].
  - destruct (JS.truthy current); [|intros []]. intros [<-|[]].
    exists "", "". rewrite !append_empty. reflexivity.
  - destruct (JS.is_space c).
    + intros Hin. apply in_app_or in Hin. destruct Hin as [Hin|Hin].
      * destruct (JS.truthy current); [|destruct Hin]. destruct Hin as [<-|[]].
        exists "", (String c r). reflexivity.
      * apply IH in Hin. destruct Hin as (a & b & E). cbn [String.append] in E.
        exists (String.append current (String c a)), b.
        rewrite append_associative. cbn [String.append]. now rewrite E.
    + intros Hin. apply IH in Hin. destruct Hin as (a & b & E).
      exists a, b. rewrite <- E, append_associative. reflexivity.
Qed.

Lemma words_included (s rest w : string) :
  In w (words s) -> JS.includes (String.append s rest) w = true.
Proof.
  intros Hin. apply words_from_inside in Hin. destruct Hin as (a & b & E).
  cbn [String.append] in E. rewrite E, !append_associative.
  apply includes_middle.
Qed.

Lemma field_differs_iff (wanted value : string) :
  field_differs wanted value = false <->
  wanted = "" \/ JS.toLowerCase value = JS.toLowerCase wanted.
Proof.
  unfold field_differs. rewrite andb_false_iff, negb_false_iff.
  rewrite String.eqb_eq. split.
  - intros [H|H]; [left|right; exact H].
    unfold JS.truthy in H. apply negb_false_iff, String.eqb_eq in H. exact H.
  - intros [->|H]; [left; reflexivity|right; exact H].
Qed.

Lemma has_all_tokens_iff (query : string) (b : InternalBookRecord) :
  has_all_tokens query b = true <->
  forall token, In token (words query) -> JS.includes (ib_searchVector b) token = true.
Proof.
  unfold has_all_tokens. destruct (JS.truthy query) eqn:E.
  - rewrite forallb_forall. reflexivity.
  - unfold JS.truthy in E. apply negb_false_iff, String.eqb_eq in E. rewrite E.
    split; [intros _ token []|reflexivity].
Qed.

(** When the callback of the search keeps a book. *)
Lemma book_matches_search_true (query department publisher author : string)
    (b : InternalBookRecord) :
  book_matches_search query department publisher author b = Done true <->
  has_all_tokens query b = true
  /\ (department = ""
      \/ exists name,
           lb_department (ib_book b) = Departments.Department name
           /\ JS.toLowerCase name = JS.toLowerCase department)
  /\ (publisher = ""
      \/ JS.toLowerCase (lb_publisher (ib_book b)) = JS.toLowerCase publisher)
  /\ (author = ""
      \/ JS.toLowerCase (lb_author (ib_book b)) = JS.toLowerCase author).
Proof.
  rewrite <- !field_differs_iff.
  unfold book_matches_search, department_differs, department_lower.
  destruct (has_all_tokens query b); cbn [negb];
    [|split; [discriminate|intros [H _]; discriminate]].
  assert (JS.truthy department = false <-> department = "") as Hblank.
  { unfold JS.truthy. rewrite negb_false_iff. apply String.eqb_eq. }
  destruct (JS.truthy department) eqn:Et.
  - assert (department <> "") as Hne by (intros H; apply Hblank in H; discriminate).
    destruct (lb_department (ib_book b)) as [name|].
    + destruct (String.eqb_spec (JS.toLowerCase name) (JS.toLowerCase department))
        as [Heq|Hneq]; cbn [negb].
      * destruct (field_differs publisher (lb_publisher (ib_book b)));
          [split; [discriminate|intros (_ & _ & H & _); discriminate]|].
        destruct (field_differs author (lb_author (ib_book b)));
          [split; [discriminate|intros (_ & _ & _ & H); discriminate]|].
        split; [|reflexivity]. intros _. split; [reflexivity|].
        split; [right; now exists name|now split].
      * split; [discriminate|].
        intros (_ & [H|(name' & [= <-] & H)] & _); [now elim Hne|now elim Hneq].
    + split; [discriminate|].
      intros (_ & [H|(name' & H & _)] & _); [now elim Hne|discriminate].
  - assert (department = "") as Hd by now apply Hblank.
    destruct (field_differs publisher (lb_publisher (ib_book b)));
      [split; [discriminate|intros (_ & _ & H & _); discriminate]|].
    destruct (field_differs author (lb_author (ib_book b)));
      [split; [discriminate|intros (_ & _ & _ & H); discriminate]|].
    split; [|reflexivity]. intros _. split; [reflexivity|].
    split; [now left|now split].
Qed.

Lemma search_matches_In (options : BookSearchOptions)
    (books matches : list InternalBookRecord) (b : InternalBookRecord) :
  search_matches options books = Done matches ->
  (In b matches <->
   In b books
   /\ book_matches_search
        (JS.toLowerCase (normalizeString (opt_query options)))
        (normalizeString (opt_department options))
        (normalizeString (opt_publisher options))
        (normalizeString (opt_author options)) b = Done true).
Proof.
  unfold search_matches. intros Hm. apply filter_result_done in Hm.
  destruct Hm as [-> _]. rewrite filter_In.
  destruct (book_matches_search _ _ _ _ b) as [[|]|f]; split; intros [H1 H2];
    split; congruence.
Qed.

(** X26. [searchBooks] throws exactly when a department is asked for and
    some book whose search vector holds every word of the lower-cased query
    has a department that is no string: the callback then calls
    [toLowerCase] on it, and books that fail the query test are never asked
    for their department.  The error is a [TypeError].  Otherwise the
    matches are the books, in their order, that hold every word of the
    query and whose fields equal, up to case, each filter that is not
    blank.  A blank query with blank filters selects every book. *)
Theorem search_selects_or_throws (options : BookSearchOptions)
    (books : list InternalBookRecord) :
  let query := JS.toLowerCase (normalizeString (opt_query options)) in
  let department := normalizeString (opt_department options) in
  let publisher := normalizeString (opt_publisher options) in
  let author := normalizeString (opt_author options) in
  let unasked := fun wanted value =>
    wanted = "" \/ JS.toLowerCase value = JS.toLowerCase wanted in
  ((exists f, search options books = Failed f) <->
   department <> ""
   /\ exists b,
        In b books
        /\ (forall token, In token (words query) ->
                          JS.includes (ib_searchVector b) token = true)
        /\ lb_department (ib_book b) = Departments.PrototypeMember)
  /\ (forall f, search options books = Failed f -> f = NoSuchMethod)
  /\ (forall matches,
        search_matches options books = Done matches ->
        matches
        = filter
            (fun b =>
               match book_matches_search query department publisher author b with
               | Done keep => keep
               | Failed _ => false
               end) books
        /\ forall b,
             In b matches <->
             In b books
             /\ (forall token, In token (words query) ->
                               JS.includes (ib_searchVector b) token = true)
             /\ (department = ""
                 \/ exists name,
                      lb_department (ib_book b) = Departments.Department name
                      /\ JS.toLowerCase name = JS.toLowerCase department)
             /\ unasked publisher (lb_publisher (ib_book b))
             /\ unasked author (lb_author (ib_book b)))
  /\ (query = "" -> department = "" -> publisher = "" -> author = "" ->
      search_matches options books = Done books).
Proof.
  cbv zeta. split; [|split; [|split]].
  - split.
    + intros [f Hf]. unfold search in Hf.
      destruct (search_matches options books) as [matches|f'] eqn:Hm; [discriminate|].
      unfold search_matches in Hm. apply filter_result_failure in Hm.
      destruct Hm as (b & Hb & Htest).
      apply book_matches_search_failure in Htest.
      destruct Htest as (_ & Htokens & Htruthy & Hdept).
      split; [intros H; rewrite H in Htruthy; discriminate|].
      exists b. split; [exact Hb|]. split; [|exact Hdept].
      now apply has_all_tokens_iff.
    + intros (Hne & b & Hb & Htokens & Hdept).
      assert (book_matches_search
                (JS.toLowerCase (normalizeString (opt_query options)))
                (normalizeString (opt_department options))
                (normalizeString (opt_publisher options))
                (normalizeString (opt_author options)) b = Failed NoSuchMethod) as Htest.
      { unfold book_matches_search, department_differs, department_lower.
        apply has_all_tokens_iff in Htokens. rewrite Htokens, Hdept. cbn [negb].
        destruct (JS.truthy (normalizeString (opt_department options))) eqn:Et;
          [reflexivity|].
        unfold JS.truthy in Et. apply negb_false_iff, String.eqb_eq in Et.
        now elim Hne. }
      destruct (filter_result_throws _ books b _ Hb Htest) as [f' Hf'].
      exists f'. unfold search, search_matches. now rewrite Hf'.
  - apply search_failure.
  - intros matches Hm. split.
    + unfold search_matches in Hm. apply filter_result_done in Hm.
      destruct Hm as [-> _]. apply filter_ext. intros b.
      now destruct (book_matches_search _ _ _ _ b) as [[|]|f].
    + intros b. rewrite (search_matches_In options books matches b Hm).
      rewrite book_matches_search_true, has_all_tokens_iff. reflexivity.
  - intros Hq Hd Hp Ha. unfold search_matches. rewrite Hq, Hd, Hp, Ha.
    induction books as [|b rest IH]; [reflexivity|].
    cbn [filter_result]. rewrite IH. reflexivity.
Qed.

(** A search by department over the file with the odd row throws after the
    file has been loaded: the cache is the fresh one. *)
Example search_throws_after_load :
  searchBooks Shelf.odd_runtime Shelf.morning empty_cache Shelf.civil_only
  = (Failed NoSuchMethod,
     refreshed Shelf.morning (Some 1000)
       (load_records Shelf.odd_runtime Shelf.odd_records 0),
     [StatFile; ReadFile])
  /\ exists r,
       searchBooks Shelf.odd_runtime Shelf.morning empty_cache (query_only "signals")
       = (Done r,
          refreshed Shelf.morning (Some 1000)
            (load_records Shelf.odd_runtime Shelf.odd_records 0),
          [StatFile; ReadFile])
       /\ sr_total r = 1.
Proof.
  split; [reflexivity|]. eexists. split; reflexivity.
Qed.

(** X27. A loaded book is found by its title typed as the query, in any
    case and with white space around it: the search does not throw, and the
    book is among the matches. *)
Theorem title_query_finds_book (rt : Runtime) (records : list CsvRecord)
    (b : InternalBookRecord) (typed : string) :
  In b (load_records rt records 0) ->
  JS.toLowerCase (JS.trim typed) = JS.toLowerCase (lb_title (ib_book b)) ->
  exists matches,
    search_matches (query_only typed) (load_records rt records 0) = Done matches
    /\ In b matches.
Proof.
  intros Hb Htyped.
  destruct (search_cases (query_only typed) (load_records rt records 0))
    as [(matches & Hm & _)|[Hm _]].
  - exists matches. split; [exact Hm|].
    apply (search_matches_In _ _ _ b Hm). split; [exact Hb|].
    apply book_matches_search_true.
    cbn [query_only opt_query opt_department opt_publisher opt_author].
    split; [|split; [left; reflexivity|split; left; reflexivity]].
    apply has_all_tokens_iff.
    unfold normalizeString at 1. cbn [default]. rewrite Htyped.
    apply load_records_In in Hb. destruct Hb as (k & record & _ & _ & ->).
    cbn [book_of_record ib_searchVector ib_book lb_title].
    unfold buildSearchVector. cbn [String.concat lb_title].
    intros token Htoken. rewrite toLowerCase_append.
    apply words_included, Htoken.
  - unfold search_matches in Hm. apply filter_result_failure in Hm.
    destruct Hm as (x & _ & Hx). apply book_matches_search_failure in Hx.
    destruct Hx as (_ & _ & Htruthy & _). discriminate.
Qed.

Lemma title_query_finds_book_witness :
  exists matches,
    search_matches (query_only "  THERMOdynamics ") Shelf.books = Done matches
    /\ In Shelf.thermodynamics matches.
Proof.
  assert (In Shelf.thermodynamics (load_records Shelf.runtime Shelf.records 0)) as Hin
    by (right; left; reflexivity).
  assert (JS.toLowerCase (JS.trim "  THERMOdynamics ")
          = JS.toLowerCase (lb_title (ib_book Shelf.thermodynamics))) as Htyped
    by reflexivity.
  exact (title_query_finds_book Shelf.runtime Shelf.records Shelf.thermodynamics
           "  THERMOdynamics " Hin Htyped).
Defined.

(** ** Aggregations *)

Lemma distinct_truthy_fold (values : list string) :
  forall acc,
    let out := fold_left (fun set v => if JS.truthy v then JS.set_add set v else set)
                 values acc in
    (NoDup acc -> NoDup out)
    /\ forall x, In x out <-> In x acc \/ (In x values /\ x <> "").
Proof.
  induction values as [|v rest IH]; intros acc; cbv zeta; cbn [fold_left].
  - split; [auto|]. intros x. cbn [In]. tauto.
  - destruct (IH (if JS.truthy v then JS.set_add acc v else acc)) as [Hnd Hin].
    cbv zeta in Hnd, Hin. split.
    + intros Hacc. apply Hnd. destruct (JS.truthy v); [apply set_add_NoDup|]; exact Hacc.
    + intros x. rewrite Hin. cbn [In]. destruct (JS.truthy v) eqn:E.
      * apply truthy_true in E. rewrite set_add_In. split.
        -- intros [[H| ->]|[H1 H2]]; auto.
        -- intros [H|[[<-|H1] H2]]; auto.
      * unfold JS.truthy in E. apply negb_false_iff, String.eqb_eq in E. subst v.
        split.
        -- intros [H|[H1 H2]]; auto.
        -- intros [H|[[<-|H1] H2]]; auto. now elim H2.
Qed.

Lemma distinct_truthy_spec (values : list string) :
  NoDup (distinct_truthy values)
  /\ forall x, In x (distinct_truthy values) <-> In x values /\ x <> "".
Proof.
  destruct (distinct_truthy_fold values []) as [Hnd Hin]. cbv zeta in Hnd, Hin.
  split; [apply Hnd; constructor|]. intros x. unfold distinct_truthy.
  rewrite Hin. cbn [In]. tauto.
Qed.

Lemma field_values {A} (field : InternalBookRecord -> A)
    (books : list InternalBookRecord) (x : A) :
  In x (map field books) <-> exists b, In b books /\ field b = x.
Proof.
  rewrite in_map_iff. split; intros (b & H1 & H2); exists b; auto.
Qed.

Lemma department_eqb_eq (a b : Departments.Resolved) :
  department_eqb a b = true <-> a = b.
Proof.
  destruct a as [x|], b as [y|]; cbn [department_eqb];
    try (split; [discriminate|intros [=]]); [|tauto].
  rewrite String.eqb_eq. split; [now intros ->|now intros [= ->]].
Qed.

Lemma department_set_has_In (set : list Departments.Resolved)
    (d : Departments.Resolved) :
  department_set_has set d = true <-> In d set.
Proof.
  unfold department_set_has. rewrite existsb_exists. split.
  - intros (x & Hx & E). apply department_eqb_eq in E. now subst.
  - intros H. exists d. split; [exact H|now apply department_eqb_eq].
Qed.

Lemma distinct_departments_In (values : list Departments.Resolved)
    (x : Departments.Resolved) :
  In x (distinct_departments values) <->
  In x values /\ department_truthy x = true.
Proof.
  unfold distinct_departments.
  assert (forall acc,
             In x (fold_left
                     (fun set d =>
                        if department_truthy d
                        then (if department_set_has set d then set else set ++ [d])
                        else set) values acc)
             <-> In x acc \/ (In x values /\ department_truthy x = true)) as Hfold.
  { induction values as [|v rest IH]; intros acc; cbn [fold_left In]; [tauto|].
    rewrite IH. destruct (department_truthy v) eqn:Ev.
    - destruct (department_set_has acc v) eqn:Eh.
      + apply department_set_has_In in Eh. split.
        * intros [H|[H1 H2]]; auto.
        * intros [H|[[<-|H1] H2]]; auto.
      + rewrite in_app_iff. cbn [In]. split.
        * intros [[H|[<-|[]]]|[H1 H2]]; auto.
        * intros [H|[[<-|H1] H2]]; auto.
    - split.
      + intros [H|[H1 H2]]; auto.
      + intros [H|[[<-|H1] H2]]; auto. congruence. }
  rewrite Hfold. cbn [In]. tauto.
Qed.

(** X28. [buildAggregations]: the departments are the entries of
    [CANONICAL_DEPARTMENTS] that some book has, so that a department
    outside that list, or one that is no string, is not reported;
    publishers and authors are the non-empty values that occur, each once,
    and they are sorted when the collation is a total preorder. *)
Theorem aggregations_content (rt : Runtime) (books : list InternalBookRecord) :
  let a := buildAggregations rt books in
  (forall d,
      In d (agg_departments a) <->
      In d (CANONICAL_DEPARTMENTS rt) /\ d <> ""
      /\ exists b, In b books /\ lb_department (ib_book b) = Departments.Department d)
  /\ (NoDup (CANONICAL_DEPARTMENTS rt) -> NoDup (agg_departments a))
  /\ NoDup (agg_publishers a)
  /\ (forall p,
        In p (agg_publishers a) <->
        p <> "" /\ exists b, In b books /\ lb_publisher (ib_book b) = p)
  /\ NoDup (agg_authors a)
  /\ (forall p,
        In p (agg_authors a) <->
        p <> "" /\ exists b, In b books /\ lb_author (ib_book b) = p)
  /\ ((forall x y z, collation rt x y <= 0 -> collation rt y z <= 0 ->
                     collation rt x z <= 0) ->
      (forall x y, 0 < collation rt x y -> collation rt y x <= 0) ->
      StronglySorted (fun x y => collation rt x y <= 0) (agg_publishers a)
      /\ StronglySorted (fun x y => collation rt x y <= 0) (agg_authors a)).
Proof.
  cbv zeta. unfold buildAggregations.
  cbn [agg_departments agg_publishers agg_authors].
  destruct (distinct_truthy_spec (map (fun b => lb_publisher (ib_book b)) books))
    as [Hpn Hp].
  destruct (distinct_truthy_spec (map (fun b => lb_author (ib_book b)) books))
    as [Han Ha].
  split.
  { intros d. rewrite filter_In, department_set_has_In, distinct_departments_In.
    rewrite field_values. cbn [department_truthy].
    assert (JS.truthy d = true <-> d <> "") as Ht.
    { unfold JS.truthy. rewrite negb_true_iff. split.
      - intros H ->. discriminate.
      - intros H. destruct (String.eqb_spec d ""); [now elim H|reflexivity]. }
    rewrite Ht. tauto. }
  split.
  { intros Hc. apply NoDup_filter, Hc. }
  split.
  { unfold JS.sort. eapply Permutation_NoDup; [|exact Hpn].
    symmetry. apply stable_sort_perm. }
  split.
  { intros p. unfold JS.sort. rewrite stable_sort_In, Hp, field_values. tauto. }
  split.
  { unfold JS.sort. eapply Permutation_NoDup; [|exact Han].
    symmetry. apply stable_sort_perm. }
  split.
  { intros p. unfold JS.sort. rewrite stable_sort_In, Ha, field_values. tauto. }
  intros Htrans Htotal. unfold JS.sort.
  split; apply stable_sort_sorted; assumption.
Qed.

(** X29. [getBooksAggregations] returns no stale aggregations: from a
    consistent cache the result is [buildAggregations] of the books
    [ensureCache] has just returned, and it is what the cache holds
    afterwards. *)
Theorem aggregations_fresh (rt : Runtime) (at_call : Moment) (c c' : Cache)
    (aggregations : BookAggregations) (events : list FsEvent) :
  cache_valid rt c ->
  getBooksAggregations rt at_call c = (Done aggregations, c', events) ->
  exists books c1,
    ensureCache rt at_call c = (Done books, c1, events)
    /\ aggregations = buildAggregations rt books
    /\ cachedBooks c' = Some books
    /\ cachedAggregations c' = Some aggregations
    /\ cachedMtime c' = cachedMtime c1.
Proof.
  intros Hc. pose proof (ensureCache_valid rt at_call c Hc) as Hv.
  unfold getBooksAggregations.
  destruct (ensureCache rt at_call c) as [[[books|f] c1] ev] eqn:E;
    cbn [fst snd] in Hv; [|discriminate].
  pose proof (ensureCache_returns_cached rt at_call c c1 books ev E) as Hb.
  destruct (cachedAggregations c1) as [held|] eqn:Ea.
  - intros [= <- <- <-]. exists books, c1.
    unfold cache_valid in Hv. rewrite Hb, Ea in Hv. destruct Hv as [_ ->]. auto.
  - intros [= <- <- <-]. exists books, c1. auto.
Qed.

Lemma aggregations_fresh_witness :
  exists books c1,
    ensureCache Shelf.runtime Shelf.morning empty_cache
    = (Done books, c1, [StatFile; ReadFile])
    /\ buildAggregations Shelf.runtime Shelf.books = buildAggregations Shelf.runtime books.
Proof.
  assert (cache_valid Shelf.runtime empty_cache) as Hvalid by reflexivity.
  assert (getBooksAggregations Shelf.runtime Shelf.morning empty_cache
          = (Done (buildAggregations Shelf.runtime Shelf.books),
             {| cachedBooks := Some Shelf.books;
                cachedAggregations := Some (buildAggregations Shelf.runtime Shelf.books);
                cachedMtime := Some 1000 |},
             [StatFile; ReadFile])) as Hcall by reflexivity.
  destruct (aggregations_fresh Shelf.runtime Shelf.morning empty_cache _ _ _ Hvalid Hcall)
    as (books & c1 & Hensure & Hbuilt & _).
  exists books, c1. split; [exact Hensure|exact Hbuilt].
Defined.

(** ** Department names *)

Lemma map_get_value {V} (m : list (string * V)) (k : string) (v : V) :
  JS.map_get m k = Some v -> In v (map snd m).
Proof.
  induction m as [|[k' v'] r IH]; cbn [JS.map_get map snd]; [discriminate|].
  destruct (String.eqb k k'); [intros [= <-]; now left|].
  intros H. right. apply IH, H.
Qed.

Lemma synonyms_are_names (key name : string) :
  JS.map_get Departments.departmentSynonyms key = Some name ->
  In name Departments.department_names.
Proof.
  intros H. apply map_get_value in H.
  assert (forallb (fun v => existsb (String.eqb v) Departments.department_names)
            (map snd Departments.departmentSynonyms) = true) as Hall
    by (vm_compute; reflexivity).
  rewrite forallb_forall in Hall. apply Hall in H.
  apply existsb_exists in H. destruct H as (x & Hx & E).
  apply String.eqb_eq in E. now subst.
Qed.

Lemma rules_give_names (key : string) (rule : (string -> bool) * string) :
  find (fun rule => fst rule key) Departments.departmentPatternRules = Some rule ->
  In (snd rule) Departments.department_names.
Proof.
  intros H. apply find_some in H. destruct H as [H _].
  unfold Departments.departmentPatternRules in H. cbn [In] in H.
  unfold Departments.department_names.
  repeat (destruct H as [<-|H]; [cbn [snd In]; tauto|]). destruct H.
Qed.

Lemma names_are_fixed (name : string) :
  In name Departments.department_names ->
  Departments.resolveDepartment (Some name) = Departments.Department name.
Proof.
  unfold Departments.department_names. cbn [In].
  intros H. repeat (destruct H as [<-|H]; [vm_compute; reflexivity|]). destruct H.
Qed.

(** X30. [resolveDepartment] returns one of the eight department names, and
    maps each of these to itself, so that resolving twice is resolving
    once; blank text gives the fallback.  The one exception is a text whose
    key is [constructor]: the lookup in the synonym object then finds the
    member of the object's prototype. *)
Theorem resolved_department_canonical (raw : option string) :
  (Departments.resolveDepartment raw = Departments.PrototypeMember <->
   Departments.sanitizeDepartmentKey (JS.trim (default raw "")) = "constructor")
  /\ (forall name,
        Departments.resolveDepartment raw = Departments.Department name ->
        In name Departments.department_names
        /\ Departments.resolveDepartment (Some name) = Departments.Department name)
  /\ (JS.trim (default raw "") = "" ->
      Departments.resolveDepartment raw
      = Departments.Department Departments.FALLBACK_DEPARTMENT).
Proof.
  assert (In Departments.FALLBACK_DEPARTMENT Departments.department_names) as Hfb
    by (cbn; tauto).
  assert (forall name,
             Departments.resolveDepartment raw = Departments.Department name ->
             In name Departments.department_names) as Hname.
  { unfold Departments.resolveDepartment. cbv zeta.
    destruct (JS.truthy (JS.trim (default raw ""))); cbn [negb];
      [|intros name [= <-]; exact Hfb].
    set (key := Departments.sanitizeDepartmentKey _).
    unfold Departments.synonym.
    destruct (JS.truthy key);
      [destruct (JS.map_get Departments.departmentSynonyms key) as [found|] eqn:Es;
       [intros name [= <-]; apply (synonyms_are_names key), Es|
        destruct (String.eqb key "constructor"); [discriminate|]]|];
      (destruct (find _ Departments.departmentPatternRules) as [rule|] eqn:Er;
       intros name [= <-]; [apply (rules_give_names key), Er|exact Hfb]). }
  split; [|split].
  - unfold Departments.resolveDepartment. cbv zeta.
    destruct (JS.truthy (JS.trim (default raw ""))) eqn:Et; cbn [negb].
    + set (key := Departments.sanitizeDepartmentKey _).
      unfold Departments.synonym.
      destruct (JS.truthy key) eqn:Ek.
      * destruct (JS.map_get Departments.departmentSynonyms key) as [found|] eqn:Es.
        -- split; [discriminate|]. intros E. rewrite E in Es. vm_compute in Es. discriminate.
        -- destruct (String.eqb_spec key "constructor") as [E|E].
           ++ split; auto.
           ++ destruct (find _ Departments.departmentPatternRules);
                (split; [discriminate|intros E'; now elim E]).
      * unfold JS.truthy in Ek. apply negb_false_iff, String.eqb_eq in Ek.
        rewrite Ek. destruct (find _ Departments.departmentPatternRules);
          (split; discriminate).
    + unfold JS.truthy in Et. apply negb_false_iff, String.eqb_eq in Et.
      rewrite Et. split; discriminate.
  - intros name H. pose proof (Hname name H) as Hin.
    split; [exact Hin|apply names_are_fixed, Hin].
  - intros E. unfold Departments.resolveDepartment. rewrite E. reflexivity.
Qed.
